(** * Tag reconciliation scripts: a shallow embedding and its properties

    The development follows the three scripts of the repository:
    - [tag_eventbridge.py] (class [EventBridgeTagger]) in module [EventBridge],
    - [tag_s3_new.py] (class [S3BucketTagger]) in module [S3New],
    - [tag_s3.py] (module-level functions) in module [S3Old].

    Python dictionaries [dict[str, str]] are finite maps [gmap string string];
    no property below depends on insertion order.  The remote services, the
    terminal and the file system are explicit: a [Remote] record says how the
    surroundings answer, a [State] record holds the remote tags and the trace
    of everything done so far, and the functions are computations in the
    monad [M], which threads the state and carries raised exceptions
    ([exn]). *)

From stdpp Require Import gmap strings list fin_maps sorting.

#[local] Set Warnings "-clear-no-such-hyp".

(** ** Python built-ins used by the scripts *)

Module Py.

(** A Python [str] is modelled by a Rocq [string]: a sequence of characters
    with code points below 256.  [str.isspace] on that range holds for
    9..13, 28..32, 133 and 160. *)
Definition isspace (c : Ascii.ascii) : bool :=
  let n := Ascii.N_of_ascii c in
  ((9 <=? n)%N && (n <=? 13)%N) || ((28 <=? n)%N && (n <=? 32)%N)
  || (n =? 133)%N || (n =? 160)%N.

Fixpoint lstrip (s : string) : string :=
  match s with
  | String c s' => if isspace c then lstrip s' else s
  | EmptyString => EmptyString
  end.

Definition rstrip (s : string) : string := String.rev (lstrip (String.rev s)).

(** [s.strip()] *)
Definition strip (s : string) : string := rstrip (lstrip s).

(** [str.lower] on code points below 256: A..Z and the Latin-1 capitals
    192..222 (except the multiplication sign 215) move up by 32. *)
Definition lower_char (c : Ascii.ascii) : Ascii.ascii :=
  let n := Ascii.N_of_ascii c in
  if ((65 <=? n)%N && (n <=? 90)%N)
     || ((192 <=? n)%N && (n <=? 222)%N && negb (n =? 215)%N)
  then Ascii.ascii_of_N (n + 32) else c.

Fixpoint lower (s : string) : string :=
  match s with
  | String c s' => String (lower_char c) (lower s')
  | EmptyString => EmptyString
  end.

(** Truth value of a string: [bool(s)], false exactly for the empty one. *)
Definition truthy (s : string) : bool :=
  match s with EmptyString => false | String _ _ => true end.

(** [p in s] for strings: substring containment. *)
Fixpoint contains (p s : string) : bool :=
  String.prefix p s
  || match s with
     | String _ s' => contains p s'
     | EmptyString => false
     end.

(** [sorted(keys)]: strings compare by code point, which is [String.le]. *)
Definition sorted (l : list string) : list string := merge_sort String.le l.

(** [{tag['Key']: tag['Value'] for tag in tags}]: a later pair overwrites an
    earlier one with the same key. *)
Definition dict_of_pairs (l : list (string * string)) : gmap string string :=
  foldl (λ m kv, <[kv.1 := kv.2]> m) ∅ l.

(** [{**a, **b}]: the entries of [b] override those of [a]. *)
Definition dict_merge (a b : gmap string string) : gmap string string := b ∪ a.

(** [[(k, v) for k, v in d.items()]] *)
Definition items (d : gmap string string) : list (string * string) :=
  map_to_list d.

End Py.

(** ** Exceptions and effects *)

(** The exceptions the scripts can meet.  All of them are subclasses of
    Python's [Exception]; [ClientError] carries
    [e.response['Error']['Code']], [BotoCoreError] stands for the
    client-side family (connection failures, timeouts), and [RecursionError]
    is what the interpreter raises at a call beyond its limit on nested
    calls. *)
Inductive exn : Type :=
| ClientError (code : string)
| BotoCoreError (msg : string)
| OSError (msg : string)
| TypeError (msg : string)
| NameError (name : string)
| KeyError (key : string)
| RecursionError.

Global Instance exn_eq_dec : EqDecision exn.
Proof. solve_decision. Defined.

Inductive result (A : Type) : Type :=
| Ok (a : A)
| Raise (e : exn).
Global Arguments Ok {A} a.
Global Arguments Raise {A} e.

(** A computation over a world [S]: it finishes in a new world, with a value
    or with a raised exception ([None] stands for a run without an answer; no
    function of the scripts has one).  What was done before an exception is
    raised stays done. *)
Definition M (S A : Type) : Type := S → option (S * result A).

Definition ret {S A} (a : A) : M S A := λ s, Some (s, Ok a).

Definition raise {S A} (e : exn) : M S A := λ s, Some (s, Raise e).

Definition bind {S A B} (m : M S A) (f : A → M S B) : M S B :=
  λ s, match m s with
       | None => None
       | Some (s', Ok a) => f a s'
       | Some (s', Raise e) => Some (s', Raise e)
       end.

(** [try: body / except ...]: [handler e] is the clause that matches [e], if
    one does.  An exception raised inside a clause is not caught by the other
    clauses of the same statement. *)
Definition try_except {S A} (body : M S A) (handler : exn → option (M S A))
  : M S A :=
  λ s, match body s with
       | Some (s', Raise e) =>
           match handler e with
           | Some h => h s'
           | None => Some (s', Raise e)
           end
       | r => r
       end.

Notation "x <- m ;; k" := (bind m (λ x, k))
  (at level 100, m at next level, right associativity).
Notation "m ;;; k" := (bind m (λ _, k))
  (at level 100, right associativity).

(** [for x in l: body(x)] *)
Fixpoint for_each {S A} (l : list A) (body : A → M S unit) : M S unit :=
  match l with
  | [] => ret ()
  | x :: l' => body x ;;; for_each l' body
  end.

(** A loop that updates one local variable: [for x in l: acc = body(acc, x)]. *)
Fixpoint for_fold {S A B} (l : list A) (acc : B) (body : B → A → M S B)
  : M S B :=
  match l with
  | [] => ret acc
  | x :: l' => acc' <- body acc x ;; for_fold l' acc' body
  end.

(** ** tag_eventbridge.py *)

Module EventBridge.

(** One printed line of the diff: [+ key: new], [- key: old] or
    [~ key: old -> new]. *)
Inductive TagChange : Type :=
| Add (key newValue : string)
| Remove (key oldValue : string)
| Change (key oldValue newValue : string).

Definition change_key (c : TagChange) : string :=
  match c with Add k _ | Remove k _ | Change k _ _ => k end.

Global Instance TagChange_eq_dec : EqDecision TagChange.
Proof. solve_decision. Defined.

(** The body of the loop of [show_tag_diff] for one key, lines 68-79
    ([dict.get] gives [None] for an absent key). *)
Definition classify (current_tags new_tags : gmap string string) (key : string)
  : option TagChange :=
  let current_value := current_tags !! key in
  let new_value := new_tags !! key in
  match current_value, new_value with
  | None, Some nv => Some (Add key nv)
  | Some cv, None => Some (Remove key cv)
  | _, _ =>
      if decide (current_value ≠ new_value)
      then match current_value, new_value with
           | Some cv, Some nv => Some (Change key cv nv)
           | _, _ => None
           end
      else None
  end.

(** [all_keys = set(current_tags.keys()) | set(new_tags.keys())] *)
Definition all_keys (current_tags new_tags : gmap string string) : gset string :=
  dom current_tags ∪ dom new_tags.

(** The changes that [show_tag_diff] prints, in the order it prints them
    (the loop of lines 67-79 over [sorted(all_keys)]). *)
Definition tag_diff (current_tags new_tags : gmap string string) : list TagChange :=
  omap (classify current_tags new_tags)
       (Py.sorted (elements (all_keys current_tags new_tags))).

(** What the script prints, one constructor per [print] statement (named by
    its text), with the interpolated values as arguments. *)
Inductive line : Type :=
| LHeader (rule_name : string)              (* "\n--- {rule_name} ---" *)
| LNotSupported                             (* "Not supported" *)
| LChange (c : TagChange)                   (* "+ k: v", "- k: v", "~ k: v -> w" *)
| LNoChangesRequired                        (* "No changes required" *)
| LTagingNotSupported (rule_name : string)  (* "Taging not supported for ..." *)
| LCouldNotGetTags (rule_name : string) (e : exn)  (* "Warning: Could not get tags ..." *)
| LErrorListing (e : exn)                   (* "Error listing EventBridge rules: ..." *)
| LSuccessfullyTagged (rule_name : string)  (* "Successfully tagged ..." *)
| LAccessDenied (rule_name : string) (e : exn)
| LRuleNotFound (rule_name : string) (e : exn)
| LTaggingNotSupported (rule_name : string)
| LRateLimit (rule_name : string)           (* "Rate limit exceed for ..., retrying" *)
| LErrorTagging (rule_name : string) (e : exn)
| LUnexpected (rule_name : string) (e : exn) (* "Enexcepted Error ..." *)
| LTagging                                  (* "Tagging" *)
| LNoMatch                                  (* "No Match" *)
| LFound (n : nat)
| LTaggable (n : nat)
| LNot (n : nat)
| LNoTaggable                               (* "No taggable rule found" *)
| LAborted                                  (* "Tagging aborted by user." *)
| LCancelled                                (* "Tagging cancelled" *)
| LCompleted (success_count total : nat).

(** [show_tag_diff], lines 58-82: the lines it prints. *)
Definition show_tag_diff (rule_name : string)
    (current_tags new_tags : gmap string string) (tagging_supported : bool)
  : list line :=
  LHeader rule_name ::
  if negb tagging_supported then [LNotSupported]
  else
    let changes := tag_diff current_tags new_tags in
    let has_changes := bool_decide (changes ≠ []) in
    (LChange <$> changes)
    ++ (if negb has_changes then [LNoChangesRequired] else []).

(** Applying a delta, in the words of the specification: Add inserts,
    Remove deletes, Change overwrites. *)
Definition apply_change (m : gmap string string) (c : TagChange)
  : gmap string string :=
  match c with
  | Add k nv => <[k := nv]> m
  | Remove k _ => delete k m
  | Change k _ nv => <[k := nv]> m
  end.

Definition apply_delta (d : list TagChange) (m : gmap string string)
  : gmap string string :=
  foldl apply_change m d.

(** *** The world of the EventBridge script *)

(** An entry of a [list_rules] page. *)
Record Rule : Type := { Name : string; Arn : string }.

(** An entry of [matched_rules]; the key ['tagging_supported'] is present
    only in the entries built by the [except] branch. *)
Record MatchedRule : Type := {
  name : string;
  arn : string;
  current_tags : gmap string string;
  tagging_supported : option bool
}.

(** [rule.get('tagging_supported', True)] *)
Definition get_tagging_supported (rule : MatchedRule) : bool :=
  default true (tagging_supported rule).

(** How the surroundings answer: the pages the paginator yields (a page may
    lack the key ['Rules']; fetching a page may raise), the answer of
    [list_tags_for_resource] for an ARN, the answer of the n-th call of
    [tag_resource] (an exception, or success), the environment variable [CI]
    and the line typed at the prompt. *)
Record Remote : Type := {
  pages : list (result (option (list Rule)));
  list_tags_for_resource : string → result (list (string * string));
  tag_resource_answer : nat → string → option exn;
  getenv_CI : option string;
  stdin_line : string
}.

Inductive event : Type :=
| Print (l : line)
| Sleep (milliseconds : nat)            (* [time.sleep(2)] is [Sleep 2000] *)
| SleepJitter (base_milliseconds : nat) (* [base_delay] plus a random 100..500 ms *)
| Prompt (n : nat)                      (* [input("Proceed with tagging n ?")] *)
| CallListTags (rule_arn : string)
| CallTagResource (rule_arn : string) (tag_list : list (string * string)).

(** The tags held remotely per ARN, and everything done so far. *)
Record State : Type := {
  remote_tags : gmap string (gmap string string);
  trace : list event
}.

Definition emit (e : event) : M State unit :=
  λ st, Some ({| remote_tags := remote_tags st; trace := trace st ++ [e] |}, Ok ()).

Definition print (l : line) : M State unit := emit (Print l).

Definition is_tag_call (e : event) : bool :=
  match e with CallTagResource _ _ => true | _ => false end.

(** The mutating calls made so far. *)
Definition tag_calls (st : State) : list event := filter is_tag_call (trace st).

(** [_wait_with_jitter()] with its default [base_delay = 0.5]. *)
Definition _wait_with_jitter : M State unit := emit (SleepJitter 500).

(** [events_client.tag_resource(ResourceARN=..., Tags=...)]: the call is
    recorded; it raises what the remote answers, or adds the tags to those of
    the resource. *)
Definition tag_resource (R : Remote) (rule_arn : string)
    (tag_list : list (string * string)) : M State unit :=
  λ st,
    let n := length (tag_calls st) in
    let tr := trace st ++ [CallTagResource rule_arn tag_list] in
    match tag_resource_answer R n rule_arn with
    | Some e => Some ({| remote_tags := remote_tags st; trace := tr |}, Raise e)
    | None =>
        let old := default ∅ (remote_tags st !! rule_arn) in
        Some ({| remote_tags :=
                   <[rule_arn := Py.dict_merge old (Py.dict_of_pairs tag_list)]>
                     (remote_tags st);
                 trace := tr |}, Ok ())
    end.

Definition call_list_tags (R : Remote) (rule_arn : string)
  : M State (list (string * string)) :=
  emit (CallListTags rule_arn) ;;;
  match list_tags_for_resource R rule_arn with
  | Ok tags => ret tags
  | Raise e => raise e
  end.

(** [any(pattern in rule_name for pattern in name_patterns)] *)
Definition matches (rule_name : string) (name_patterns : list string) : bool :=
  existsb (λ pattern, Py.contains pattern rule_name) name_patterns.

(** The body of the inner loop of [list_rules_by_pattern] for one rule,
    lines 27-52. *)
Definition visit_rule (R : Remote) (name_patterns : list string)
    (matched_rules : list MatchedRule) (rule : Rule) : M State (list MatchedRule) :=
  let rule_name := Name rule in
  let rule_arn := Arn rule in
  if matches rule_name name_patterns then
    matched_rules' <-
      try_except
        (tag_response <- call_list_tags R rule_arn ;;
         let current_tags := Py.dict_of_pairs tag_response in
         ret (matched_rules ++ [{| name := rule_name; arn := rule_arn;
                                   current_tags := current_tags;
                                   tagging_supported := None |}]))
        (λ e, match e with
              | ClientError code =>
                  Some ((if decide (code = "UnsupportedOperation")
                         then print (LTagingNotSupported rule_name)
                         else print (LCouldNotGetTags rule_name e)) ;;;
                        ret (matched_rules ++ [{| name := rule_name; arn := rule_arn;
                                                  current_tags := ∅;
                                                  tagging_supported := Some false |}]))
              | _ => None
              end) ;;
    _wait_with_jitter ;;;
    ret matched_rules'
  else ret matched_rules.

(** [for page in paginator.paginate(): for rule in page.get('Rules', []): ...] *)
Fixpoint walk_pages (R : Remote) (name_patterns : list string)
    (ps : list (result (option (list Rule)))) (matched_rules : list MatchedRule)
  : M State (list MatchedRule) :=
  match ps with
  | [] => ret matched_rules
  | Raise e :: _ => raise e
  | Ok page :: ps' =>
      matched_rules' <-
        for_fold (default [] page) matched_rules (visit_rule R name_patterns) ;;
      walk_pages R name_patterns ps' matched_rules'
  end.

(** [list_rules_by_pattern], lines 20-56: the handler of the outer [try]
    returns the empty list. *)
Definition list_rules_by_pattern (R : Remote) (name_patterns : list string)
  : M State (list MatchedRule) :=
  try_except
    (walk_pages R name_patterns (pages R) [])
    (λ e, match e with
          | ClientError _ | BotoCoreError _ =>
              Some (print (LErrorListing e) ;;; ret [])
          | _ => None
          end).

(** The body of [apply_tags], lines 85-113, over the two calls it makes:
    [call], the call of [tag_resource] of lines 87-90, and [again], the call
    of [apply_tags] itself of line 107.  The clause [except Exception] of
    line 111 catches whatever the body of the [try] raises that is no
    [ClientError]; what a clause itself raises is not caught. *)
Definition apply_tags_body (rule_name : string) (call : M State unit)
    (again : M State bool) : M State bool :=
  try_except
    (call ;;;
     print (LSuccessfullyTagged rule_name) ;;;
     _wait_with_jitter ;;;
     ret true)
    (λ e, match e with
          | ClientError error_code =>
              Some (if decide (error_code = "AccessDeniedException")
                    then print (LAccessDenied rule_name e) ;;; ret false
                    else if decide (error_code = "ResourceNotFound")
                    then print (LRuleNotFound rule_name e) ;;; ret false
                    else if decide (error_code = "unsupported ")
                    then print (LTaggingNotSupported rule_name) ;;; ret false
                    else if decide (error_code = "ThrottlingExcep")
                    then print (LRateLimit rule_name) ;;;
                         emit (Sleep 2000) ;;;
                         again
                    else print (LErrorTagging rule_name e) ;;; ret false)
          | _ => Some (print (LUnexpected rule_name e) ;;; ret false)
          end).

(** [apply_tags(rule_arn, rule_name, tags)], lines 84-113.  The function
    calls itself on a throttling answer, each call nested in the one before.
    [depth] is the number of nested calls of [apply_tags] that the
    interpreter's limit on nested calls ([sys.getrecursionlimit()], 1000
    unless changed, less the frames already on the stack) leaves room for.
    Where the room is spent, the call of [tag_resource], which needs frames of
    its own, raises [RecursionError] before it reaches the remote; it does so
    inside the [try], so that line 111 catches it. *)
Fixpoint apply_tags (depth : nat) (R : Remote) (rule_arn rule_name : string)
    (tags : gmap string string) : M State bool :=
  match depth with
  | O => apply_tags_body rule_name (raise RecursionError) (raise RecursionError)
  | S depth' =>
      apply_tags_body rule_name
        (let tag_list := Py.items tags in tag_resource R rule_arn tag_list)
        (apply_tags depth' R rule_arn rule_name tags)
  end.

(** [self.apply_tags(taggable_rules, tags)] at line 143: two arguments for
    three parameters, so the call raises before the body runs. *)
Definition apply_tags_two_arguments : M State bool :=
  raise (TypeError "apply_tags() missing 1 required positional argument: 'tags'").

(** Reading [response] at line 149: the name is assigned nowhere in
    [tag_rules] (line 147 is a comment) nor at module level. *)
Definition read_response : M State string := raise (NameError "response").

(** [input(prompt)] *)
Definition input (R : Remote) (n : nat) : M State string :=
  emit (Prompt n) ;;; ret (stdin_line R).

(** [tag_rules], lines 115-161.  Everything after the read of [response] is
    kept as the source has it, although no run reaches it.  [depth] is the
    room for nested calls, see [apply_tags]. *)
Definition tag_rules (depth : nat) (R : Remote) (name_patterns : list string)
    (tags : gmap string string) : M State unit :=
  print LTagging ;;;
  rules <- list_rules_by_pattern R name_patterns ;;
  if bool_decide (rules = []) then print LNoMatch
  else
    let taggable_rules := filter (λ rule, get_tagging_supported rule) rules in
    print (LFound (length rules)) ;;;
    print (LTaggable (length taggable_rules)) ;;;
    print (LNot (length rules - length taggable_rules)) ;;;
    for_each rules (λ rule,
      let current_tags := current_tags rule in
      let merged_tags := Py.dict_merge current_tags tags in
      let tagging_supported := get_tagging_supported rule in
      for_each (show_tag_diff (name rule) current_tags merged_tags tagging_supported)
               print) ;;;
    if bool_decide (taggable_rules = []) then print LNoTaggable
    else
      let is_ci := bool_decide (getenv_CI R = Some "true") in
      proceed <-
        (if is_ci then ret true
         else answer <- input R (length taggable_rules) ;;
              ret (bool_decide (Py.lower (Py.strip answer) = "yes"))) ;;
      (if proceed : bool
       then apply_tags_two_arguments ;;; ret ()
       else print LAborted) ;;;
      response <- read_response ;;
      if bool_decide (response ≠ "yes") then print LCancelled
      else
        success_count <-
          for_fold taggable_rules 0 (λ success_count rule,
            let current_tags := current_tags rule in
            let merged_tags := Py.dict_merge current_tags tags in
            ok <- apply_tags depth R (arn rule) (name rule) merged_tags ;;
            ret (if ok : bool then success_count + 1 else success_count)) ;;
        print (LCompleted success_count (length taggable_rules)).

End EventBridge.

(** ** The S3 service as the two bucket scripts see it *)

Module S3.

(** An entry of the [list_buckets] response. *)
Record Bucket : Type := { Name : string; CreationDate : string }.

(** How the surroundings answer: the [list_buckets] response (its key
    ['Buckets'] may be missing), the exception a call on a bucket raises, if
    any, for each tagging operation, and the exception [open(filename, "w")]
    raises, if any.  The faults of a bucket stay the same over the runs that
    are compared. *)
Record Remote : Type := {
  list_buckets_answer : result (option (list Bucket));
  get_fault : string → option exn;
  put_fault : string → option exn;
  delete_fault : string → option exn;
  open_fault : string → option exn
}.

Inductive call : Type :=
| ListBuckets
| GetBucketTagging (bucket_name : string)
| PutBucketTagging (bucket_name : string) (tag_set : list (string * string))
| DeleteBucketTagging (bucket_name : string).

(** The log records, one constructor per logging statement of the scripts. *)
Inductive log_record : Type :=
| FoundBuckets (n : nat)
| FailedToListBuckets (e : exn)
| NoExistingTags (bucket_name : string)
| FailedToFetchTags (bucket_name : string) (e : exn)
| BackedUp (bucket_name filename : string)
| FailedToBackUp (bucket_name : string) (e : exn)
| FilteredOut (removed_count : nat)
| Merging (new existing : nat)
| Replacing (new : nat)
| DryRunApply (bucket_name : string) (final_tags : gmap string string)
| Applied (n : nat) (bucket_name : string)
| FailedToApply (bucket_name : string) (e : exn)
| FilteredTo (n : nat) (bucket_filter : string)
| ActivityCompleted (successful total : nat)
| NoTagsToRemove (bucket_name : string)
| DryRunRemove (removed_keys : list string) (bucket_name : string)
| Removed (removed_count : nat) (bucket_name : string)
| FailedToRemove (bucket_name : string) (e : exn)
| Tagged (bucket_name : string) (tags : gmap string string)
| ErrorTagging (bucket_name : string) (e : exn).

Inductive event : Type :=
| Call (c : call)
| Info (r : log_record)
| Error (r : log_record)
| WriteFile (filename : string) (content : gmap string string).

(** The tag set stored per bucket (no entry: the bucket has no tag set), and
    everything done so far. *)
Record State : Type := {
  tagging : gmap string (list (string * string));
  trace : list event
}.

Definition emit (e : event) : M State unit :=
  λ st, Some ({| tagging := tagging st; trace := trace st ++ [e] |}, Ok ()).

Definition info (r : log_record) : M State unit := emit (Info r).
Definition error (r : log_record) : M State unit := emit (Error r).

Definition fail_with {A} (fault : option exn) (k : M State A) : M State A :=
  match fault with
  | Some e => raise e
  | None => k
  end.

(** [s3_client.list_buckets()] *)
Definition list_buckets (R : Remote) : M State (option (list Bucket)) :=
  emit (Call ListBuckets) ;;;
  match list_buckets_answer R with
  | Ok response => ret response
  | Raise e => raise e
  end.

(** [s3_client.get_bucket_tagging(Bucket=...)]: the stored tag set; a bucket
    without one answers with the error code [NoSuchTagSet].  An answer that
    is no error carries the key ['TagSet'], as the service documents it: the
    answer without the key, which line 42 of tag_s3_new.py would read as an
    empty list and line 29 of tag_s3.py would meet with a [KeyError], is not
    among the answers of this remote. *)
Definition get_bucket_tagging (R : Remote) (bucket_name : string)
  : M State (list (string * string)) :=
  emit (Call (GetBucketTagging bucket_name)) ;;;
  fail_with (get_fault R bucket_name)
    (λ st, match tagging st !! bucket_name with
           | Some tag_set => Some (st, Ok tag_set)
           | None => Some (st, Raise (ClientError "NoSuchTagSet"))
           end).

(** [s3_client.put_bucket_tagging(Bucket=..., Tagging={'TagSet': ...})] *)
Definition put_bucket_tagging (R : Remote) (bucket_name : string)
    (tag_set : list (string * string)) : M State unit :=
  emit (Call (PutBucketTagging bucket_name tag_set)) ;;;
  fail_with (put_fault R bucket_name)
    (λ st, Some ({| tagging := <[bucket_name := tag_set]> (tagging st);
                    trace := trace st |}, Ok ())).

(** [s3_client.delete_bucket_tagging(Bucket=...)] *)
Definition delete_bucket_tagging (R : Remote) (bucket_name : string)
  : M State unit :=
  emit (Call (DeleteBucketTagging bucket_name)) ;;;
  fail_with (delete_fault R bucket_name)
    (λ st, Some ({| tagging := delete bucket_name (tagging st);
                    trace := trace st |}, Ok ())).

(** [with open(filename, "w") as f: json.dump(tags, f, indent=4)] *)
Definition write_json (R : Remote) (filename : string)
    (tags : gmap string string) : M State unit :=
  fail_with (open_fault R filename) (emit (WriteFile filename tags)).

(** The calls that change remote tags. *)
Definition is_mutating (e : event) : bool :=
  match e with
  | Call (PutBucketTagging _ _) | Call (DeleteBucketTagging _) => true
  | _ => false
  end.

(** The bucket a tagging call is made on. *)
Definition call_bucket (e : event) : option string :=
  match e with
  | Call (GetBucketTagging b) | Call (PutBucketTagging b _)
  | Call (DeleteBucketTagging b) => Some b
  | _ => None
  end.

End S3.

(** ** tag_s3_new.py *)

Module S3New.
Import S3.

(** [list_buckets], lines 29-37. *)
Definition list_buckets (R : Remote) : M State (list Bucket) :=
  try_except
    (response <- S3.list_buckets R ;;
     let buckets := default [] response in
     info (FoundBuckets (length buckets)) ;;;
     ret buckets)
    (λ e, match e with
          | ClientError _ => Some (error (FailedToListBuckets e) ;;; raise e)
          | _ => None
          end).

(** [get_bucket_tags], lines 39-49. *)
Definition get_bucket_tags (R : Remote) (bucket_name : string)
  : M State (gmap string string) :=
  try_except
    (tag_set <- get_bucket_tagging R bucket_name ;;
     ret (Py.dict_of_pairs tag_set))
    (λ e, match e with
          | ClientError code =>
              Some (if decide (code = "NoSuchTagSet")
                    then info (NoExistingTags bucket_name) ;;; ret ∅
                    else error (FailedToFetchTags bucket_name e) ;;; raise e)
          | _ => None
          end).

(** [backup_tags], lines 51-58: a failure to write is logged and not
    raised. *)
Definition backup_tags (R : Remote) (bucket_name : string)
    (tags : gmap string string) : M State unit :=
  let filename := bucket_name +:+ "_tags_backup.json" in
  try_except
    (write_json R filename tags ;;;
     info (BackedUp bucket_name filename))
    (λ e, Some (error (FailedToBackUp bucket_name e))).

(** [{k: v for k, v in tags.items() if v.strip()}] *)
Definition filter_tags (tags : gmap string string) : gmap string string :=
  filter (λ kv : string * string, Is_true (Py.truthy (Py.strip kv.2))) tags.

(** [apply_tags_to_bucket], lines 60-104. *)
Definition apply_tags_to_bucket (R : Remote) (bucket_name : string)
    (tags : gmap string string) (merge_existing dry_run : bool) : M State bool :=
  try_except
    (let filtered_tags := filter_tags tags in
     (if bool_decide (size filtered_tags ≠ size tags)
      then info (FilteredOut (size tags - size filtered_tags))
      else ret ()) ;;;
     existing_tags <- get_bucket_tags R bucket_name ;;
     backup_tags R bucket_name existing_tags ;;;
     final_tags <-
       (if merge_existing
        then info (Merging (size filtered_tags) (size existing_tags)) ;;;
             ret (Py.dict_merge existing_tags filtered_tags)
        else info (Replacing (size filtered_tags)) ;;;
             ret filtered_tags) ;;
     let tag_set := Py.items final_tags in
     if dry_run
     then info (DryRunApply bucket_name final_tags) ;;; ret true
     else
       put_bucket_tagging R bucket_name tag_set ;;;
       info (Applied (size final_tags) bucket_name) ;;;
       ret true)
    (λ e, match e with
          | ClientError _ => Some (error (FailedToApply bucket_name e) ;;; ret false)
          | _ => None
          end).

(** [not bucket_filter or bucket_filter in bucket["Name"]] *)
Definition passes_filter (bucket_filter : option string) (bucket : Bucket) : bool :=
  match bucket_filter with
  | None => true
  | Some f => negb (Py.truthy f) || Py.contains f (Name bucket)
  end.

(** [sum(results.values())] *)
Definition sum_values (results : gmap string bool) : nat :=
  sum_list ((λ kv : string * bool, if kv.2 then 1 else 0) <$> map_to_list results).

(** [tag_all_bucket], lines 106-139. *)
Definition tag_all_bucket (R : Remote) (tags : gmap string string)
    (merge_existing dry_run : bool) (bucket_filter : option string)
  : M State (gmap string bool) :=
  buckets <- list_buckets R ;;
  let filtered_buckets := filter (λ bucket, passes_filter bucket_filter bucket) buckets in
  (match bucket_filter with
   | Some f =>
       if Py.truthy f then info (FilteredTo (length filtered_buckets) f) else ret ()
   | None => ret ()
   end) ;;;
  results <-
    for_fold filtered_buckets (∅ : gmap string bool) (λ results bucket,
      let bucket_name := Name bucket in
      success <- apply_tags_to_bucket R bucket_name tags merge_existing dry_run ;;
      ret (<[bucket_name := success]> results)) ;;
  let successful := sum_values results in
  let total := size results in
  info (ActivityCompleted successful total) ;;;
  ret results.

(** [remove_tags_from_bucket], lines 141-178. *)
Definition remove_tags_from_bucket (R : Remote) (bucket_name : string)
    (tag_keys : list string) (dry_run : bool) : M State bool :=
  try_except
    (existing_tags <- get_bucket_tags R bucket_name ;;
     if bool_decide (existing_tags = ∅)
     then info (NoTagsToRemove bucket_name) ;;; ret true
     else
       let remaining_tags :=
         filter (λ kv : string * string, kv.1 ∉ tag_keys) existing_tags in
       if dry_run
       then
         let removed_keys :=
           filter (λ k, is_Some (existing_tags !! k)) tag_keys in
         info (DryRunRemove removed_keys bucket_name) ;;; ret true
       else
         (if bool_decide (remaining_tags ≠ ∅)
          then put_bucket_tagging R bucket_name (Py.items remaining_tags)
          else delete_bucket_tagging R bucket_name) ;;;
         let removed_count :=
           length (filter (λ k, is_Some (existing_tags !! k)) tag_keys) in
         info (Removed removed_count bucket_name) ;;;
         ret true)
    (λ e, match e with
          | ClientError _ => Some (error (FailedToRemove bucket_name e) ;;; ret false)
          | _ => None
          end).

End S3New.

(** ** tag_s3.py *)

Module S3Old.
Import S3.

Definition REQUIRED_TAGS : gmap string string :=
  <["project" := "prod"]>
    (<["costcenter" := "engineering"]>
       (<["owner" := "abc@gmail.com"]> ∅)).

(** [get_existing_tags], lines 26-34.  The indexing [tagging['TagSet']] of
    line 29 finds its key in every answer of the remote, see
    [S3.get_bucket_tagging]. *)
Definition get_existing_tags (R : Remote) (bucket_name : string)
  : M State (gmap string string) :=
  try_except
    (tag_set <- get_bucket_tagging R bucket_name ;;
     ret (Py.dict_of_pairs tag_set))
    (λ e, match e with
          | ClientError code =>
              Some (if decide (code = "NoSuchTagSet") then ret ∅ else raise e)
          | _ => None
          end).

(** [apply_tags], lines 36-45. *)
Definition apply_tags (R : Remote) (bucket_name : string) : M State unit :=
  existing_tags <- get_existing_tags R bucket_name ;;
  let updated_tags := Py.dict_merge existing_tags REQUIRED_TAGS in
  let tag_set := Py.items updated_tags in
  put_bucket_tagging R bucket_name tag_set ;;;
  info (Tagged bucket_name REQUIRED_TAGS).

(** [s3.list_buckets()['Buckets']] followed by the loop of [main]; a missing
    key raises and is not caught. *)
Definition main (R : Remote) : M State unit :=
  response <- S3.list_buckets R ;;
  match response with
  | None => raise (KeyError "Buckets")
  | Some buckets =>
      for_each buckets (λ bucket,
        let bucket_name := Name bucket in
        try_except
          (apply_tags R bucket_name)
          (λ e, Some (error (ErrorTagging bucket_name e))))
  end.

End S3Old.

(** ** Vocabulary of the properties *)

Module S3Facts.
Import S3.

(** What fetching the tags of a bucket comes to: the error code
    [NoSuchTagSet] and a bucket without a stored tag set give the empty map,
    any other exception is raised. *)
Definition fetch (R : Remote) (tg : gmap string (list (string * string)))
    (bucket_name : string) : result (gmap string string) :=
  match get_fault R bucket_name with
  | Some (ClientError code) =>
      if decide (code = "NoSuchTagSet") then Ok ∅ else Raise (ClientError code)
  | Some e => Raise e
  | None =>
      Ok (match tg !! bucket_name with
          | Some tag_set => Py.dict_of_pairs tag_set
          | None => ∅
          end)
  end.

(** The outcome of the sending step of an apply. *)
Definition send_outcome (R : Remote) (bucket_name : string) (dry_run : bool)
  : result bool :=
  if dry_run then Ok true
  else match put_fault R bucket_name with
       | None => Ok true
       | Some (ClientError _) => Ok false
       | Some e => Raise e
       end.

(** The outcome of [apply_tags_to_bucket] read off the faults of the bucket. *)
Definition apply_outcome (R : Remote) (bucket_name : string) (dry_run : bool)
  : result bool :=
  match get_fault R bucket_name with
  | Some (ClientError code) =>
      if decide (code = "NoSuchTagSet") then send_outcome R bucket_name dry_run
      else Ok false
  | Some e => Raise e
  | None => send_outcome R bucket_name dry_run
  end.

(** A value that [v.strip()] makes empty. *)
Definition blank (v : string) : Prop := Py.truthy (Py.strip v) = false.

(** Every fault of the tagging calls is a [ClientError]. *)
Definition client_errors_only (R : Remote) : Prop :=
  ∀ b e, get_fault R b = Some e ∨ put_fault R b = Some e → ∃ code, e = ClientError code.

(** The events added between two states. *)
Definition new_events (st st' : State) : list event :=
  drop (length (trace st)) (trace st').

(** An event that is no tagging call on a bucket other than [bucket_name]. *)
Definition about (bucket_name : string) (e : event) : Prop :=
  ∀ b, call_bucket e = Some b → b = bucket_name.

(** The tags an apply sends, given the fetched ones. *)
Definition final_tags (existing_tags tags : gmap string string)
    (merge_existing : bool) : gmap string string :=
  if merge_existing then Py.dict_merge existing_tags (S3New.filter_tags tags)
  else S3New.filter_tags tags.

(** The stored tag sets after [apply_tags_to_bucket]. *)
Definition apply_tagging (R : Remote) (tg : gmap string (list (string * string)))
    (bucket_name : string) (tags : gmap string string)
    (merge_existing dry_run : bool) : gmap string (list (string * string)) :=
  match fetch R tg bucket_name, apply_outcome R bucket_name dry_run with
  | Ok existing_tags, Ok true =>
      if dry_run then tg
      else <[bucket_name := Py.items (final_tags existing_tags tags merge_existing)]> tg
  | _, _ => tg
  end.

(** The result of the loop of [tag_all_bucket] read off the faults of the
    buckets: the first outcome that is an exception ends the loop. *)
Fixpoint loop_result (R : Remote) (dry_run : bool) (buckets : list Bucket)
    (results : gmap string bool) : result (gmap string bool) :=
  match buckets with
  | [] => Ok results
  | bucket :: buckets' =>
      match apply_outcome R (Name bucket) dry_run with
      | Ok success =>
          loop_result R dry_run buckets' (<[Name bucket := success]> results)
      | Raise e => Raise e
      end
  end.

(** The buckets [tag_all_bucket] works on, for a listing response. *)
Definition filtered_buckets (bucket_filter : option string)
    (response : option (list Bucket)) : list Bucket :=
  filter (λ bucket, S3New.passes_filter bucket_filter bucket) (default [] response).

(** The result of [tag_all_bucket] read off the answers of the remote. *)
Definition run_result (R : Remote) (dry_run : bool)
    (bucket_filter : option string) : result (gmap string bool) :=
  match list_buckets_answer R with
  | Ok response =>
      loop_result R dry_run (filtered_buckets bucket_filter response) ∅
  | Raise e => Raise e
  end.

(** The number of [True] entries of a result mapping. *)
Definition true_entries (results : gmap string bool) : nat :=
  size (filter (λ kv : string * bool, kv.2 = true) results).

(** Fetching the tags of the bucket fails. *)
Definition fetch_fails (R : Remote) (bucket_name : string) : Prop :=
  ∃ e, get_fault R bucket_name = Some e ∧ e ≠ ClientError "NoSuchTagSet".

(** Events that change no remote tags and concern no other bucket. *)
Definition quiet (bucket_name : string) (evs : list event) : Prop :=
  Forall (λ e, is_mutating e = false ∧ about bucket_name e) evs.

(** One apply per bucket, in the order of the list, each from the state the
    one before it left, with the value each returned; no answer when one of
    them raises. *)
Fixpoint apply_each (R : Remote) (tags : gmap string string)
    (merge_existing dry_run : bool) (buckets : list Bucket) (st : State)
  : option (State * list (string * bool)) :=
  match buckets with
  | [] => Some (st, [])
  | bucket :: buckets' =>
      match S3New.apply_tags_to_bucket R (Name bucket) tags merge_existing dry_run st with
      | Some (st1, Ok success) =>
          match apply_each R tags merge_existing dry_run buckets' st1 with
          | Some (st2, outcomes) => Some (st2, (Name bucket, success) :: outcomes)
          | None => None
          end
      | _ => None
      end
  end.

(** [results[bucket_name] = success], one outcome after the other. *)
Definition record_outcomes (results : gmap string bool)
    (outcomes : list (string * bool)) : gmap string bool :=
  foldl (λ results o, <[o.1 := o.2]> results) results outcomes.

End S3Facts.

Module EventBridgeFacts.
Import EventBridge.

(** The answer on which [apply_tags] calls itself again. *)
Definition throttled : option exn := Some (ClientError "ThrottlingExcep").

(** The two-second pause before a retry. *)
Definition is_backoff (e : event) : bool :=
  match e with Sleep 2000 => true | _ => false end.

Definition backoffs (st : State) : list event := filter is_backoff (trace st).

(** The events added between two states. *)
Definition new_events (st st' : State) : list event :=
  drop (length (trace st)) (trace st').

(** The confirmation prompt. *)
Definition is_prompt (e : event) : bool :=
  match e with Prompt _ => true | _ => false end.

(** What follows the display of the diffs in [tag_rules], for the taggable
    rules found: the events, and how the run ends. *)
Definition gate_outcome (R : Remote) (taggable_rules : list MatchedRule)
  : list event * result unit :=
  if bool_decide (taggable_rules = []) then ([], Ok ())
  else if bool_decide (getenv_CI R = Some "true")
  then ([], Raise (TypeError "apply_tags() missing 1 required positional argument: 'tags'"))
  else if bool_decide (Py.lower (Py.strip (stdin_line R)) = "yes")
  then ([Prompt (length taggable_rules)],
        Raise (TypeError "apply_tags() missing 1 required positional argument: 'tags'"))
  else ([Prompt (length taggable_rules); Print LAborted],
        Raise (NameError "response")).

(** Events among which there is no call of [tag_resource]. *)
Definition silent (evs : list event) : Prop :=
  Forall (λ e, is_tag_call e = false) evs.

(** The state after a throttled attempt of [apply_tags]. *)
Definition after_throttle (st : State) (rule_arn rule_name : string)
    (tags : gmap string string) : State :=
  {| remote_tags := remote_tags st;
     trace := trace st ++ [CallTagResource rule_arn (Py.items tags);
                           Print (LRateLimit rule_name); Sleep 2000] |}.

(** The entry [list_rules_by_pattern] appends when the tag fetch of a
    matching rule raises a [ClientError]. *)
Definition unsupported_entry (rule : Rule) : MatchedRule :=
  {| name := Name rule; arn := Arn rule; current_tags := ∅;
     tagging_supported := Some false |}.

End EventBridgeFacts.

(** ** Concrete scenarios *)

Module Scenarios.
Import S3.

Definition bucket (n : string) : Bucket :=
  {| Name := n; CreationDate := "2024-01-01" |}.

Definition no_fault : string → option exn := λ _, None.

Definition fault_on (n : string) (e : exn) : string → option exn :=
  λ b, if decide (b = n) then Some e else None.

(** An account with the given buckets and faults of fetching and sending. *)
Definition s3_remote (buckets : list Bucket) (gf pf : string → option exn)
  : Remote :=
  {| list_buckets_answer := Ok (Some buckets);
     get_fault := gf; put_fault := pf;
     delete_fault := no_fault; open_fault := no_fault |}.

Definition s3_state (tg : gmap string (list (string * string))) : State :=
  {| tagging := tg; trace := [] |}.

(** The stored tag set of a bucket after a run, and the value returned. *)
Definition stored {A} (bucket_name : string) (run : option (State * result A))
  : option (option (list (string * string))) :=
  (λ r, tagging r.1 !! bucket_name) <$> run.

Definition returned {A} (run : option (State * result A)) : option (result A) :=
  snd <$> run.

Definition state_after {A} (run : option (State * result A)) : State :=
  match run with Some (st, _) => st | None => s3_state ∅ end.

Definition calls_made {A} (run : option (State * result A)) : option (list event) :=
  (λ r, filter (λ e, is_Some (call_bucket e)) (trace r.1)) <$> run.

(** Merge of current [{"b": "2"}] with desired [{"b": ""}]. *)
Definition merge_blank_desired : option (State * result bool) :=
  S3New.apply_tags_to_bucket (s3_remote [] no_fault no_fault) "bucket"
    {[ "b" := "" ]} true false (s3_state {[ "bucket" := [("b", "2")] ]}).

(** Merge of current [{"a": "1", "b": "2"}] with desired [{"b": "3", "c": "4"}]. *)
Definition merge_example : option (State * result bool) :=
  S3New.apply_tags_to_bucket (s3_remote [] no_fault no_fault) "bucket"
    {[ "b" := "3"; "c" := "4" ]} true false
    (s3_state {[ "bucket" := [("a", "1"); ("b", "2")] ]}).

(** Merge of current [{"x": ""}] with desired [{"x": ""}]. *)
Definition merge_blank_current : option (State * result bool) :=
  S3New.apply_tags_to_bucket (s3_remote [] no_fault no_fault) "bucket"
    {[ "x" := "" ]} true false (s3_state {[ "bucket" := [("x", "")] ]}).

Definition three_buckets : list Bucket := [bucket "r1"; bucket "r2"; bucket "r3"].


(** Three buckets; fetching the tags of the second one is denied. *)
Definition second_denied : Remote :=
  s3_remote three_buckets (fault_on "r2" (ClientError "AccessDenied")) no_fault.

(** A dry run on a bucket whose tags cannot be fetched. *)
Definition dry_run_denied : option (State * result bool) :=
  S3New.apply_tags_to_bucket
    (s3_remote [bucket "r2"] (fault_on "r2" (ClientError "AccessDenied")) no_fault)
    "r2" {[ "Env" := "dev" ]} true true (s3_state ∅).

End Scenarios.

Module EBScenarios.
Import EventBridge.

Definition rule (n : string) : Rule := {| Name := n; Arn := "arn:" +:+ n |}.

Definition always_ok : nat → string → option exn := λ _ _, None.

(** The first [n] calls of [tag_resource] are throttled, the later ones
    succeed. *)
Definition throttle_first (n : nat) : nat → string → option exn :=
  λ i _, if decide (i < n) then Some (ClientError "ThrottlingExcep") else None.

Definition no_tags : string → result (list (string * string)) := λ _, Ok [].

Definition state0 : State := {| remote_tags := ∅; trace := [] |}.

Definition returned {A} (run : option (State * result A)) : option (result A) :=
  snd <$> run.

Definition state_after {A} (run : option (State * result A)) : State :=
  match run with Some (st, _) => st | None => state0 end.

Definition printed {A} (run : option (State * result A)) : option (list line) :=
  (λ r, omap (λ e, match e with Print l => Some l | _ => None end) (trace r.1))
    <$> run.

Definition mutating_calls {A} (run : option (State * result A))
  : option (list event) :=
  (λ r, tag_calls r.1) <$> run.

Definition prompts {A} (run : option (State * result A)) : option (list event) :=
  (λ r, filter EventBridgeFacts.is_prompt (trace r.1)) <$> run.

Definition pauses {A} (run : option (State * result A)) : option nat :=
  (λ r, length (EventBridgeFacts.backoffs r.1)) <$> run.

(** One matching rule without tags, no [CI] variable, the given line typed
    at the prompt. *)
Definition one_rule (typed : string) : Remote :=
  {| pages := [Ok (Some [rule "test-rule"])];
     list_tags_for_resource := no_tags;
     tag_resource_answer := always_ok;
     getenv_CI := None;
     stdin_line := typed |}.

Definition the_tags : gmap string string := {[ "Env" := "prd" ]}.

(** The user answers "no" at the prompt. *)
Definition declined : option (State * result unit) :=
  tag_rules 5 (one_rule "no") ["test"] the_tags state0.

(** The user answers "yes" at the prompt. *)
Definition accepted : option (State * result unit) :=
  tag_rules 5 (one_rule "yes") ["test"] the_tags state0.

(** The only matching rule does not support tagging. *)
Definition none_taggable : option (State * result unit) :=
  tag_rules 5
    {| pages := [Ok (Some [rule "test-rule"])];
       list_tags_for_resource := λ _, Raise (ClientError "UnsupportedOperation");
       tag_resource_answer := always_ok;
       getenv_CI := None;
       stdin_line := "yes" |}
    ["test"] the_tags state0.

(** Two throttling answers, then success. *)
Definition throttled_twice : option (State * result bool) :=
  apply_tags 3
    {| pages := []; list_tags_for_resource := no_tags;
       tag_resource_answer := throttle_first 2;
       getenv_CI := None; stdin_line := "" |}
    "arn:test-rule" "test-rule" the_tags state0.

(** A tag with an empty value handed to [apply_tags]. *)
Definition blank_tag_applied : option (State * result bool) :=
  apply_tags 1 (one_rule "") "arn:test-rule" "test-rule" {[ "x" := "" ]} state0.

(** The first page holds a matching rule, fetching the second page fails. *)
Definition second_page_fails : Remote :=
  {| pages := [Ok (Some [rule "test-rule"]); Raise (ClientError "InternalException")];
     list_tags_for_resource := no_tags;
     tag_resource_answer := always_ok;
     getenv_CI := None;
     stdin_line := "yes" |}.

(** Fetching the tags of the matching rule times out. *)
Definition tags_time_out : Remote :=
  {| pages := [Ok (Some [rule "test-rule"])];
     list_tags_for_resource := λ _, Raise (BotoCoreError "ReadTimeoutError");
     tag_resource_answer := always_ok;
     getenv_CI := None;
     stdin_line := "yes" |}.

(** Fetching the tags of the matching rule is denied. *)
Definition tags_denied : Remote :=
  {| pages := [Ok (Some [rule "test-rule"])];
     list_tags_for_resource := λ _, Raise (ClientError "AccessDeniedException");
     tag_resource_answer := always_ok;
     getenv_CI := None;
     stdin_line := "yes" |}.

End EBScenarios.

(** ** tag_eventbridge.py, the entry point *)

Module EventBridgeMain.

(** The constants of [main], lines 168-174. *)
Definition tags : gmap string string :=
  <["Project" := "abc"]> (<["Env" := "prd"]> (<["owner" := "pqr"]> ∅)).

Definition name_patterns : list string := ["test"; "nex"; "project"].

(** [main], lines 164-181: the session and the client are the surroundings
    [R]. *)
Definition main (depth : nat) (R : EventBridge.Remote)
  : M EventBridge.State unit :=
  EventBridge.tag_rules depth R name_patterns tags.

End EventBridgeMain.

(** ** Further vocabulary *)

Module PyFacts.

(** Every character of the string is white space. *)
Fixpoint all_space (s : string) : bool :=
  match s with
  | String c s' => Py.isspace c && all_space s'
  | EmptyString => true
  end.

(** [p] occurs in [s] as a contiguous part. *)
Definition substring_of (p s : string) : Prop :=
  ∃ pre post, s = pre +:+ p +:+ post.

End PyFacts.

Module EventBridgeMore.
Import EventBridge.

(** The same change read from the other side. *)
Definition mirror (c : TagChange) : TagChange :=
  match c with
  | Add k v => Remove k v
  | Remove k v => Add k v
  | Change k o n => Change k n o
  end.

(** The rules of the pages, in listing order. *)
Definition listed (good : list (option (list Rule))) : list Rule :=
  concat (default [] <$> good).

(** The entry of [matched_rules] for a matching rule. *)
Definition discovered (R : Remote) (rule : Rule) : MatchedRule :=
  match list_tags_for_resource R (Arn rule) with
  | Ok tag_response =>
      {| name := Name rule; arn := Arn rule;
         current_tags := Py.dict_of_pairs tag_response;
         tagging_supported := None |}
  | Raise _ => EventBridgeFacts.unsupported_entry rule
  end.

Definition is_list_call (e : event) : bool :=
  match e with CallListTags _ => true | _ => false end.

(** The line [apply_tags] prints for a [ClientError] that it does not take
    for throttling, lines 98-109. *)
Definition failure_line (rule_name error_code : string) : line :=
  if decide (error_code = "AccessDeniedException")
  then LAccessDenied rule_name (ClientError error_code)
  else if decide (error_code = "ResourceNotFound")
  then LRuleNotFound rule_name (ClientError error_code)
  else if decide (error_code = "unsupported ")
  then LTaggingNotSupported rule_name
  else LErrorTagging rule_name (ClientError error_code).

(** Fetching the tags of a rule fails with a [ClientError] only. *)
Definition only_client_errors (R : Remote) : Prop :=
  ∀ a e, list_tags_for_resource R a = Raise e → ∃ code, e = ClientError code.

(** The lines [tag_rules] prints for one discovered rule, lines 130-133. *)
Definition displayed (tags : gmap string string) (rule : MatchedRule) : list line :=
  show_tag_diff (name rule) (current_tags rule)
    (Py.dict_merge (current_tags rule) tags) (get_tagging_supported rule).

(** A line that [show_tag_diff] prints. *)
Definition is_diff_line (e : event) : bool :=
  match e with
  | Print (LHeader _) | Print LNotSupported | Print (LChange _)
  | Print LNoChangesRequired => true
  | _ => false
  end.

End EventBridgeMore.

Module S3More.
Import S3.

(** The tags of a bucket as a map (the empty map without a stored tag set). *)
Definition tags_of (tg : gmap string (list (string * string)))
    (bucket_name : string) : gmap string string :=
  match tg !! bucket_name with
  | Some tag_set => Py.dict_of_pairs tag_set
  | None => ∅
  end.

(** The name of the backup file of a bucket. *)
Definition backup_file (bucket_name : string) : string :=
  bucket_name +:+ "_tags_backup.json".

(** [{k: v for k, v in existing_tags.items() if k not in tag_keys}] *)
Definition remaining (existing_tags : gmap string string)
    (tag_keys : list string) : gmap string string :=
  filter (λ kv : string * string, kv.1 ∉ tag_keys) existing_tags.

(** No tagging call on any bucket fails. *)
Definition no_faults (R : Remote) : Prop :=
  ∀ b, get_fault R b = None ∧ put_fault R b = None ∧ delete_fault R b = None.

Definition mutating_calls (evs : list event) : list event :=
  filter is_mutating evs.

(** The stored tag sets after the loop of [tag_all_bucket]: the applies in
    the order of the list, up to and with the first that raises. *)
Fixpoint loop_tagging (R : Remote) (tags : gmap string string)
    (merge_existing dry_run : bool) (buckets : list Bucket)
    (tg : gmap string (list (string * string)))
  : gmap string (list (string * string)) :=
  match buckets with
  | [] => tg
  | bucket :: buckets' =>
      let tg' :=
        S3Facts.apply_tagging R tg (Name bucket) tags merge_existing dry_run in
      match S3Facts.apply_outcome R (Name bucket) dry_run with
      | Ok _ => loop_tagging R tags merge_existing dry_run buckets' tg'
      | Raise _ => tg'
      end
  end.

(** The stored tag sets after [apply_tags] of tag_s3.py, whether it returns or
    raises. *)
Definition old_apply_tagging (R : Remote)
    (tg : gmap string (list (string * string))) (bucket_name : string)
  : gmap string (list (string * string)) :=
  match S3Facts.fetch R tg bucket_name, put_fault R bucket_name with
  | Ok existing_tags, None =>
      <[bucket_name := Py.items (Py.dict_merge existing_tags S3Old.REQUIRED_TAGS)]> tg
  | _, _ => tg
  end.

(** The mutating call [remove_tags_from_bucket] makes outside a dry run. *)
Definition removal_calls (bucket_name : string)
    (existing_tags : gmap string string) (tag_keys : list string) : list event :=
  if decide (existing_tags = ∅) then []
  else if decide (remaining existing_tags tag_keys = ∅)
       then [Call (DeleteBucketTagging bucket_name)]
       else [Call (PutBucketTagging bucket_name
                     (Py.items (remaining existing_tags tag_keys)))].

End S3More.

(** * Properties *)

(** ** Python built-ins *)

Example strip_example : Py.strip "  yes  " = "yes".
Proof. reflexivity. Qed.

Example strip_blank : Py.strip "   " = "".
Proof. reflexivity. Qed.

Example lower_example : Py.lower "YeS" = "yes".
Proof. reflexivity. Qed.

Example contains_example :
  Py.contains "project" "prod-project-rule" = true
  ∧ Py.contains "test" "other-rule" = false.
Proof. by vm_compute. Qed.

Example sorted_example : Py.sorted ["b"; "a"; "B"] = ["B"; "a"; "b"].
Proof. by vm_compute. Qed.

Example matches_example :
  EventBridge.matches "prod-project-rule" ["test"; "project"] = true
  ∧ EventBridge.matches "other-rule" ["test"; "project"] = false.
Proof. by vm_compute. Qed.

(** ** The diff of [show_tag_diff] *)

Section diff.
Import EventBridge.
Implicit Types (current desired m : gmap string string) (ks : list string).

Lemma sorted_permutation ks : Py.sorted ks ≡ₚ ks.
Proof. apply merge_sort_Permutation. Qed.

Lemma strict_sorted_of_NoDup ks :
  StronglySorted String.le ks → NoDup ks →
  StronglySorted (strict String.le) ks.
Proof.
  induction 1 as [|k ks Hs IH Hall]; intros Hnd; [constructor|].
  apply NoDup_cons in Hnd as [Hk Hnd].
  constructor; [by apply IH|].
  rewrite Forall_forall in Hall. apply Forall_forall. intros k' Hk'.
  split; [by apply Hall|].
  intros Hle. assert (k = k') as -> by (apply (anti_symm String.le); auto).
  done.
Qed.

Lemma sorted_strict ks :
  NoDup ks → StronglySorted (strict String.le) (Py.sorted ks).
Proof.
  intros Hnd. apply strict_sorted_of_NoDup.
  - apply StronglySorted_merge_sort; apply _.
  - by rewrite sorted_permutation.
Qed.

Lemma classify_key current desired k c :
  classify current desired k = Some c → change_key c = k.
Proof.
  unfold classify.
  destruct (current !! k), (desired !! k); try case_decide; naive_solver.
Qed.

Lemma classify_Some current desired k c :
  classify current desired k = Some c ↔
  match c with
  | Add k' v => k' = k ∧ current !! k = None ∧ desired !! k = Some v
  | Remove k' v => k' = k ∧ current !! k = Some v ∧ desired !! k = None
  | Change k' o n =>
      k' = k ∧ current !! k = Some o ∧ desired !! k = Some n ∧ o ≠ n
  end.
Proof.
  unfold classify.
  destruct (current !! k) as [cv|], (desired !! k) as [nv|], c;
    try case_decide; naive_solver.
Qed.

Lemma classify_None current desired k :
  classify current desired k = None ↔ current !! k = desired !! k.
Proof.
  unfold classify.
  destruct (current !! k) as [cv|], (desired !! k) as [nv|];
    try case_decide; naive_solver.
Qed.

Lemma classified_in_all_keys current desired k c :
  classify current desired k = Some c → k ∈ all_keys current desired.
Proof.
  intros Hc. unfold all_keys. rewrite elem_of_union, !elem_of_dom.
  destruct (current !! k) eqn:E1; [left; eauto|].
  destruct (desired !! k) eqn:E2; [right; eauto|].
  assert (classify current desired k = None) by (apply classify_None; congruence).
  congruence.
Qed.

Lemma elem_of_tag_diff current desired c :
  c ∈ tag_diff current desired ↔
  classify current desired (change_key c) = Some c.
Proof.
  unfold tag_diff. rewrite list_elem_of_omap. split.
  - intros (k & _ & Hc). by rewrite (classify_key _ _ _ _ Hc).
  - intros Hc. exists (change_key c). split; [|done].
    rewrite sorted_permutation. apply elem_of_elements.
    by eapply classified_in_all_keys.
Qed.

Lemma omap_classify_keys current desired ks :
  StronglySorted (strict String.le) ks →
  StronglySorted (strict String.le)
    (change_key <$> omap (classify current desired) ks).
Proof.
  induction 1 as [|k ks Hs IH Hall]; simpl; [constructor|].
  destruct (classify current desired k) as [c|] eqn:Hc; [|done].
  rewrite fmap_cons, (classify_key _ _ _ _ Hc).
  constructor; [done|].
  rewrite Forall_forall in Hall. apply Forall_forall. intros k'.
  rewrite list_elem_of_fmap. intros (c' & -> & Hc').
  apply list_elem_of_omap in Hc' as (k'' & Hk'' & Hc'').
  rewrite (classify_key _ _ _ _ Hc''). by apply Hall.
Qed.

(** One step of the loop brings the key it visits to its desired value and
    leaves every other key alone. *)
Lemma apply_classified current desired m k :
  m !! k = current !! k →
  let m' := match classify current desired k with
            | Some c => apply_change m c
            | None => m
            end in
  m' !! k = desired !! k ∧ ∀ k', k' ≠ k → m' !! k' = m !! k'.
Proof.
  intros Hm. unfold classify. rewrite <- Hm.
  destruct (m !! k) as [cv|] eqn:E1, (desired !! k) as [nv|] eqn:E2;
    try case_decide; simpl;
    repeat split; intros; simplify_map_eq; try done; congruence.
Qed.

Lemma apply_delta_lookup current desired ks :
  NoDup ks → ∀ m, (∀ k, k ∈ ks → m !! k = current !! k) →
  ∀ k, apply_delta (omap (classify current desired) ks) m !! k
       = if decide (k ∈ ks) then desired !! k else m !! k.
Proof.
  unfold apply_delta.
  induction 1 as [|k0 ks Hk0 Hnd IH]; intros m Hm k.
  { case_decide; [set_solver|done]. }
  destruct (apply_classified current desired m k0) as [H0 Hother].
  { apply Hm. set_solver. }
  set (m' := match classify current desired k0 with
             | Some c => apply_change m c
             | None => m
             end) in *.
  assert (foldl apply_change m (omap (classify current desired) (k0 :: ks))
          = foldl apply_change m' (omap (classify current desired) ks)) as ->.
  { unfold m'. simpl. by destruct (classify current desired k0). }
  rewrite IH.
  - destruct (decide (k ∈ ks)) as [Hin|Hnin],
      (decide (k ∈ k0 :: ks)) as [Hin'|Hnin']; try done.
    + set_solver.
    + assert (k = k0) as -> by set_solver. done.
    + apply Hother. set_solver.
  - intros k' Hk'. rewrite Hother; [apply Hm; set_solver|]. set_solver.
Qed.

Lemma apply_tag_diff current desired :
  apply_delta (tag_diff current desired) current = desired.
Proof.
  apply map_eq. intros k. unfold tag_diff.
  set (keys := elements (all_keys current desired)).
  assert (NoDup (Py.sorted keys)) as Hnd.
  { rewrite sorted_permutation. apply NoDup_elements. }
  rewrite (apply_delta_lookup current desired _ Hnd current) by done.
  case_decide as Hk; [done|].
  rewrite sorted_permutation in Hk. unfold keys in Hk.
  rewrite elem_of_elements in Hk. unfold all_keys in Hk.
  rewrite elem_of_union, !elem_of_dom in Hk.
  destruct (current !! k) eqn:E1; [exfalso; apply Hk; left; eauto|].
  destruct (desired !! k) eqn:E2; [exfalso; apply Hk; right; eauto|done].
Qed.

Lemma tag_diff_same m : tag_diff m m = [].
Proof.
  unfold tag_diff.
  induction (Py.sorted (elements (all_keys m m))) as [|k ks IH]; [done|].
  simpl. assert (classify m m k = None) as -> by by apply classify_None.
  exact IH.
Qed.

End diff.

Ltac eb_unfold :=
  cbv beta iota delta
    [bind ret raise try_except EventBridge.emit EventBridge.print
     EventBridge._wait_with_jitter EventBridge.tag_resource
     EventBridge.call_list_tags EventBridge.input
     EventBridge.apply_tags_two_arguments EventBridge.read_response
     EventBridge.apply_tags_body];
  simpl.

Ltac filter_simpl :=
  repeat first
    [ rewrite filter_cons_True by (simpl; exact I)
    | rewrite filter_cons_False by (simpl; tauto)
    | rewrite filter_nil ].

(** ** The EventBridge tagger *)

Section apply_tags.
Import EventBridge EventBridgeFacts.
Implicit Types (R : Remote) (st : State) (arn nm : string).

Lemma tag_calls_app r st evs :
  tag_calls {| remote_tags := r; trace := trace st ++ evs |}
  = tag_calls st ++ filter is_tag_call evs.
Proof. unfold tag_calls. simpl. apply filter_app. Qed.

Lemma backoffs_app r st evs :
  backoffs {| remote_tags := r; trace := trace st ++ evs |}
  = backoffs st ++ filter is_backoff evs.
Proof. unfold backoffs. simpl. apply filter_app. Qed.

Lemma apply_tags_throttled fuel R arn nm tags st :
  tag_resource_answer R (length (tag_calls st)) arn = throttled →
  apply_tags (S fuel) R arn nm tags st
  = apply_tags fuel R arn nm tags (after_throttle st arn nm tags).
Proof.
  intros Hans. unfold after_throttle. simpl. eb_unfold. rewrite Hans. eb_unfold.
  by rewrite <- !app_assoc.
Qed.

Lemma apply_tags_succeeds fuel R arn nm tags st :
  tag_resource_answer R (length (tag_calls st)) arn = None →
  apply_tags (S fuel) R arn nm tags st
  = Some ({| remote_tags :=
               <[arn := Py.dict_merge (default ∅ (remote_tags st !! arn))
                          (Py.dict_of_pairs (Py.items tags))]> (remote_tags st);
             trace := trace st ++ [CallTagResource arn (Py.items tags);
                                   Print (LSuccessfullyTagged nm);
                                   SleepJitter 500] |}, Ok true).
Proof.
  intros Hans. simpl. eb_unfold. rewrite Hans. eb_unfold.
  by rewrite <- !app_assoc.
Qed.

Lemma apply_tags_fails fuel R arn nm tags st e :
  tag_resource_answer R (length (tag_calls st)) arn = Some e →
  Some e ≠ throttled →
  ∃ l, apply_tags (S fuel) R arn nm tags st
       = Some ({| remote_tags := remote_tags st;
                  trace := trace st ++ [CallTagResource arn (Py.items tags);
                                        Print l] |}, Ok false).
Proof.
  intros Hans Hne. simpl. eb_unfold. rewrite Hans. unfold throttled in Hne.
  destruct e as [code| | | | | |]; eb_unfold;
    repeat (case_decide; eb_unfold); simplify_eq;
    rewrite <- ?app_assoc; simpl; eauto.
Qed.

Lemma apply_tags_runs n : ∀ fuel R arn nm tags st,
  (∀ i, i < n →
        tag_resource_answer R (length (tag_calls st) + i) arn = throttled) →
  tag_resource_answer R (length (tag_calls st) + n) arn ≠ throttled →
  n < fuel →
  ∃ st' ok,
    apply_tags fuel R arn nm tags st = Some (st', Ok ok)
    ∧ tag_calls st'
      = tag_calls st ++ replicate (n + 1) (CallTagResource arn (Py.items tags))
    ∧ length (backoffs st') = length (backoffs st) + n
    ∧ (ok = true ↔
       tag_resource_answer R (length (tag_calls st) + n) arn = None).
Proof.
  induction n as [|n IH]; intros fuel R arn nm tags st Hthr Hlast Hfuel.
  - destruct fuel as [|fuel]; [lia|]. rewrite Nat.add_0_r in *.
    destruct (tag_resource_answer R (length (tag_calls st)) arn) as [e|] eqn:Hans.
    + destruct (apply_tags_fails fuel R arn nm tags st e Hans) as [l Hrun];
        [exact Hlast|].
      rewrite Hrun. eexists _, false. split; [done|].
      rewrite tag_calls_app, backoffs_app. filter_simpl.
      rewrite app_nil_r, ?Nat.add_0_r, Hans.
      split; [done|]. split; [lia|]. split; intros; discriminate.
    + rewrite (apply_tags_succeeds fuel R arn nm tags st Hans).
      eexists _, true. split; [done|].
      rewrite tag_calls_app, backoffs_app. filter_simpl.
      rewrite app_nil_r, ?Nat.add_0_r, Hans.
      split; [done|]. split; [lia|]. done.
  - destruct fuel as [|fuel]; [lia|].
    rewrite apply_tags_throttled
      by (rewrite <- (Nat.add_0_r (length _)); apply Hthr; lia).
    set (st1 := after_throttle st arn nm tags).
    assert (tag_calls st1 = tag_calls st ++ [CallTagResource arn (Py.items tags)])
      as Hcalls.
    { unfold st1, after_throttle. rewrite tag_calls_app. by filter_simpl. }
    assert (length (backoffs st1) = length (backoffs st) + 1) as Hback.
    { unfold st1, after_throttle. rewrite backoffs_app. filter_simpl.
      by rewrite length_app. }
    destruct (IH fuel R arn nm tags st1) as (st' & ok & Hrun & Hc & Hb & Hok).
    + intros i Hi. rewrite Hcalls, length_app. simpl.
      replace (length (tag_calls st) + 1 + i) with (length (tag_calls st) + S i) by lia.
      apply Hthr. lia.
    + rewrite Hcalls, length_app. simpl.
      by replace (length (tag_calls st) + 1 + n) with (length (tag_calls st) + S n) by lia.
    + lia.
    + exists st', ok. split; [done|]. split; [|split].
      * rewrite Hc, Hcalls, <- app_assoc. done.
      * lia.
      * rewrite Hok, Hcalls, length_app. simpl.
        by replace (length (tag_calls st) + 1 + n) with (length (tag_calls st) + S n) by lia.
Qed.

Lemma apply_tags_at_limit R arn nm tags st :
  apply_tags 0 R arn nm tags st
  = Some ({| remote_tags := remote_tags st;
             trace := trace st ++ [Print (LUnexpected nm RecursionError)] |},
          Ok false).
Proof. simpl. by eb_unfold. Qed.

(** Throttled as long as there is room for a nested call: the last call gives
    up at the limit. *)
Lemma apply_tags_gives_up fuel : ∀ R arn nm tags st,
  (∀ i, i < fuel →
        tag_resource_answer R (length (tag_calls st) + i) arn = throttled) →
  ∃ st',
    apply_tags fuel R arn nm tags st = Some (st', Ok false)
    ∧ tag_calls st'
      = tag_calls st ++ replicate fuel (CallTagResource arn (Py.items tags))
    ∧ length (backoffs st') = length (backoffs st) + fuel
    ∧ remote_tags st' = remote_tags st
    ∧ last (trace st') = Some (Print (LUnexpected nm RecursionError)).
Proof.
  induction fuel as [|fuel IH]; intros R arn nm tags st Hthr.
  { rewrite apply_tags_at_limit. eexists. split; [done|].
    rewrite tag_calls_app, backoffs_app. filter_simpl. simpl.
    rewrite !app_nil_r, Nat.add_0_r, last_snoc. done. }
  rewrite apply_tags_throttled
    by (rewrite <- (Nat.add_0_r (length _)); apply Hthr; lia).
  set (st1 := after_throttle st arn nm tags).
  assert (tag_calls st1 = tag_calls st ++ [CallTagResource arn (Py.items tags)])
    as Hcalls.
  { unfold st1, after_throttle. rewrite tag_calls_app. by filter_simpl. }
  assert (length (backoffs st1) = length (backoffs st) + 1) as Hback.
  { unfold st1, after_throttle. rewrite backoffs_app. filter_simpl.
    by rewrite length_app. }
  destruct (IH R arn nm tags st1) as (st' & Hrun & Hc & Hb & Ht & Hl).
  { intros i Hi. rewrite Hcalls, length_app. simpl.
    replace (length (tag_calls st) + 1 + i) with (length (tag_calls st) + S i) by lia.
    apply Hthr. lia. }
  exists st'. split; [done|]. split; [|split; [lia|split; [done|done]]].
  rewrite Hc, Hcalls, <- app_assoc. done.
Qed.

(** [apply_tags] returns a boolean, whatever the remote answers. *)
Lemma apply_tags_total fuel : ∀ R arn nm tags st,
  ∃ st' ok, apply_tags fuel R arn nm tags st = Some (st', Ok ok).
Proof.
  induction fuel as [|fuel IH]; intros R arn nm tags st.
  { rewrite apply_tags_at_limit. eauto. }
  destruct (tag_resource_answer R (length (tag_calls st)) arn) as [e|] eqn:Hans.
  - destruct (decide (Some e = throttled)) as [Heq|Hne].
    + rewrite Heq in Hans. rewrite (apply_tags_throttled fuel R arn nm tags st Hans).
      apply IH.
    + destruct (apply_tags_fails fuel R arn nm tags st e Hans Hne) as [l ->]. eauto.
  - rewrite (apply_tags_succeeds fuel R arn nm tags st Hans). eauto.
Qed.

End apply_tags.

Section discovery.
Import EventBridge EventBridgeFacts.
Implicit Types (R : Remote) (st : State) (pats : list string).

Lemma visit_rule_run R pats m rule st :
  ∃ evs r,
    visit_rule R pats m rule st
    = Some ({| remote_tags := remote_tags st; trace := trace st ++ evs |}, r)
    ∧ silent evs
    ∧ match r with
      | Ok m' =>
          if matches (Name rule) pats then
            match list_tags_for_resource R (Arn rule) with
            | Ok tag_response =>
                m' = m ++ [{| name := Name rule; arn := Arn rule;
                              current_tags := Py.dict_of_pairs tag_response;
                              tagging_supported := None |}]
            | Raise (ClientError code) =>
                m' = m ++ [unsupported_entry rule]
                ∧ Print (if decide (code = "UnsupportedOperation")
                         then LTagingNotSupported (Name rule)
                         else LCouldNotGetTags (Name rule) (ClientError code))
                  ∈ evs
            | Raise _ => False
            end
          else m' = m
      | Raise e =>
          matches (Name rule) pats = true
          ∧ list_tags_for_resource R (Arn rule) = Raise e
          ∧ ∀ code, e ≠ ClientError code
      end.
Proof.
  unfold visit_rule, silent, unsupported_entry.
  destruct (matches (Name rule) pats).
  2:{ exists [], (Ok m). unfold ret. rewrite app_nil_r. by destruct st. }
  eb_unfold.
  destruct (list_tags_for_resource R (Arn rule)) as [tag_response|[code| | | | | |]];
    eb_unfold; try case_decide; eb_unfold; rewrite <- ?app_assoc; simpl;
    (eexists _, _; split; [reflexivity|]);
    (split; [repeat constructor|]); try done;
    (split; [done|]); set_solver.
Qed.

Lemma visit_rules_run R pats (rules : list Rule) : ∀ m st,
  ∃ evs r,
    for_fold rules m (visit_rule R pats) st
    = Some ({| remote_tags := remote_tags st; trace := trace st ++ evs |}, r)
    ∧ silent evs
    ∧ ((∀ a e, list_tags_for_resource R a = Raise e → ∃ code, e = ClientError code) →
       ∃ m', r = Ok m').
Proof.
  induction rules as [|rule rules IH]; intros m st.
  { exists [], (Ok m). simpl. unfold ret. rewrite app_nil_r. destruct st.
    repeat split; eauto. constructor. }
  destruct (visit_rule_run R pats m rule st) as (evs1 & r1 & Hrun & Hs1 & Hr1).
  simpl. unfold bind at 1. rewrite Hrun.
  destruct r1 as [m1|e].
  - destruct (IH m1 {| remote_tags := remote_tags st; trace := trace st ++ evs1 |})
      as (evs2 & r & Hrest & Hs2 & Hr).
    rewrite Hrest. simpl. rewrite <- app_assoc.
    eexists _, r. split; [reflexivity|]. split; [by apply Forall_app|done].
  - eexists evs1, _. split; [reflexivity|]. split; [done|].
    intros Hc. destruct Hr1 as (_ & Hraise & Hne).
    destruct (Hc _ _ Hraise) as [code ->]. by destruct (Hne code).
Qed.

Lemma walk_pages_run R pats (good : list (option (list Rule))) rest : ∀ m st,
  (∀ a e, list_tags_for_resource R a = Raise e → ∃ code, e = ClientError code) →
  ∃ evs m',
    silent evs
    ∧ walk_pages R pats ((Ok <$> good) ++ rest) m st
      = walk_pages R pats rest m'
          {| remote_tags := remote_tags st; trace := trace st ++ evs |}.
Proof.
  induction good as [|page good IH]; intros m st Hc.
  { exists [], m. rewrite app_nil_r. destruct st. split; [constructor|done]. }
  destruct (visit_rules_run R pats (default [] page) m st)
    as (evs1 & r & Hrun & Hs1 & Hr).
  destruct (Hr Hc) as [m1 ->].
  destruct (IH m1 {| remote_tags := remote_tags st; trace := trace st ++ evs1 |} Hc)
    as (evs2 & m' & Hs2 & Hrest).
  exists (evs1 ++ evs2), m'. split; [by apply Forall_app|].
  rewrite fmap_cons. simpl. unfold bind at 1. rewrite Hrun, Hrest. simpl.
  by rewrite app_assoc.
Qed.

Lemma list_rules_by_pattern_listing_fails R pats good e rest st :
  pages R = (Ok <$> good) ++ Raise e :: rest →
  (∃ code, e = ClientError code) ∨ (∃ msg, e = BotoCoreError msg) →
  (∀ a e', list_tags_for_resource R a = Raise e' → ∃ code, e' = ClientError code) →
  ∃ evs collected st1,
    walk_pages R pats (Ok <$> good) [] st = Some (st1, Ok collected)
    ∧ list_rules_by_pattern R pats st
      = Some ({| remote_tags := remote_tags st;
                 trace := trace st ++ evs ++ [Print (LErrorListing e)] |}, Ok [])
    ∧ silent evs.
Proof.
  intros Hpages He Hc. unfold list_rules_by_pattern, try_except.
  rewrite Hpages.
  destruct (walk_pages_run R pats good (Raise e :: rest) [] st Hc)
    as (evs & m' & Hs & Hwalk).
  destruct (walk_pages_run R pats good [] [] st Hc)
    as (evs' & m'' & Hs' & Hwalk').
  rewrite app_nil_r in Hwalk'. rewrite Hwalk.
  exists evs, m'', {| remote_tags := remote_tags st; trace := trace st ++ evs' |}.
  split; [by rewrite Hwalk'|]. split; [|done].
  simpl. destruct He as [[code ->]|[msg ->]]; eb_unfold; by rewrite <- app_assoc.
Qed.

End discovery.

(** *** The confirmation gate of [tag_rules] *)

Section gate.
Import EventBridge EventBridgeFacts.
Implicit Types (R : Remote) (st : State) (pats : list string).

Lemma walk_pages_any R pats ps : ∀ m st,
  ∃ evs r,
    walk_pages R pats ps m st
    = Some ({| remote_tags := remote_tags st; trace := trace st ++ evs |}, r)
    ∧ silent evs.
Proof.
  induction ps as [|[page|e] ps IH]; intros m st.
  - exists [], (Ok m). simpl. unfold ret. rewrite app_nil_r. destruct st.
    split; [done|constructor].
  - destruct (visit_rules_run R pats (default [] page) m st)
      as (evs1 & r1 & Hrun & Hs1 & _).
    simpl. unfold bind at 1. rewrite Hrun. destruct r1 as [m1|e].
    + destruct (IH m1 {| remote_tags := remote_tags st; trace := trace st ++ evs1 |})
        as (evs2 & r & Hrest & Hs2).
      rewrite Hrest. simpl. rewrite <- app_assoc.
      eexists _, r. split; [reflexivity|]. by apply Forall_app.
    + eexists evs1, _. split; [reflexivity|done].
  - exists [], (Raise e). simpl. unfold raise. rewrite app_nil_r. destruct st.
    split; [done|constructor].
Qed.

Lemma list_rules_by_pattern_any R pats st :
  ∃ evs r,
    list_rules_by_pattern R pats st
    = Some ({| remote_tags := remote_tags st; trace := trace st ++ evs |}, r)
    ∧ silent evs.
Proof.
  unfold list_rules_by_pattern, try_except.
  destruct (walk_pages_any R pats (pages R) [] st) as (evs & r & Hwalk & Hs).
  rewrite Hwalk. destruct r as [m|e].
  - eexists evs, _. split; [reflexivity|done].
  - destruct e; eb_unfold; rewrite <- ?app_assoc;
      (eexists _, _; split; [reflexivity|]);
      try done; (apply Forall_app; split; [done|]); repeat constructor.
Qed.

Lemma print_lines_run (ls : list line) : ∀ st,
  for_each ls print st
  = Some ({| remote_tags := remote_tags st;
             trace := trace st ++ (Print <$> ls) |}, Ok ()).
Proof.
  induction ls as [|l ls IH]; intros st; simpl.
  - unfold ret. rewrite app_nil_r. by destruct st.
  - eb_unfold. rewrite IH. simpl. by rewrite <- app_assoc.
Qed.

Lemma show_diffs_run (tags : gmap string string) (rules : list MatchedRule) :
  ∀ st, ∃ ls,
    for_each rules (λ rule,
      let current_tags := current_tags rule in
      let merged_tags := Py.dict_merge current_tags tags in
      let tagging_supported := get_tagging_supported rule in
      for_each (show_tag_diff (name rule) current_tags merged_tags tagging_supported)
               print) st
    = Some ({| remote_tags := remote_tags st;
               trace := trace st ++ (Print <$> ls) |}, Ok ()).
Proof.
  induction rules as [|rule rules IH]; intros st.
  - exists []. simpl. unfold ret. rewrite app_nil_r. by destruct st.
  - cbn [for_each]. unfold bind at 1. cbv zeta. rewrite print_lines_run.
    match goal with
    | |- context [for_each rules ?f ?s] => destruct (IH s) as (ls & Hrest)
    end.
    cbv zeta in Hrest. rewrite Hrest. cbn [remote_tags trace].
    rewrite <- app_assoc, <- fmap_app. eauto.
Qed.

(** What [tag_rules] does once the rules are discovered. *)
Lemma tag_rules_after_discovery fuel R pats tags st st1 rules :
  list_rules_by_pattern R pats
    {| remote_tags := remote_tags st; trace := trace st ++ [Print LTagging] |}
  = Some (st1, Ok rules) →
  ∃ ls,
    tag_rules fuel R pats tags st
    = Some ({| remote_tags := remote_tags st1;
               trace := trace st1 ++ (Print <$> ls)
                        ++ (gate_outcome R (filter (λ rule, get_tagging_supported rule) rules)).1 |},
            (gate_outcome R (filter (λ rule, get_tagging_supported rule) rules)).2).
Proof.
  intros Hlist. unfold tag_rules. unfold bind at 1.
  change (print LTagging st)
    with (Some ({| remote_tags := remote_tags st;
                   trace := trace st ++ [Print LTagging] |}, Ok ())).
  unfold bind at 1. rewrite Hlist. unfold gate_outcome.
  case_bool_decide as Hrules.
  { subst rules. exists [LNoMatch]. rewrite filter_nil. by eb_unfold. }
  cbv zeta.
  set (taggable := filter (λ rule, get_tagging_supported rule) rules).
  do 3 (unfold bind at 1; unfold print at 1; unfold emit at 1).
  unfold bind at 1.
  match goal with
  | |- context [for_each rules ?f ?s] =>
      destruct (show_diffs_run tags rules s) as (ls & Hshow)
  end.
  cbv zeta in Hshow. rewrite Hshow. simpl.
  case_bool_decide as Htag.
  { exists ([LFound (length rules); LTaggable (length taggable);
             LNot (length rules - length taggable)] ++ ls ++ [LNoTaggable]).
    eb_unfold. rewrite !fmap_app, <- !app_assoc. simpl. by rewrite ?app_nil_r. }
  exists ([LFound (length rules); LTaggable (length taggable);
           LNot (length rules - length taggable)] ++ ls).
  eb_unfold. repeat case_bool_decide; try contradiction; eb_unfold;
    rewrite ?fmap_app, <- ?app_assoc; simpl; rewrite ?app_nil_r; done.
Qed.

(** [tag_rules] never calls [tag_resource], whatever it is given. *)
Lemma tag_rules_makes_no_tag_call fuel R pats tags st :
  ∃ st' r,
    tag_rules fuel R pats tags st = Some (st', r)
    ∧ tag_calls st' = tag_calls st
    ∧ remote_tags st' = remote_tags st.
Proof.
  assert (∀ evs, silent evs → filter is_tag_call evs = []) as Hsilent.
  { induction 1 as [|x l Hx _ IH]; [done|].
    rewrite filter_cons_False; [done|]. rewrite Hx. tauto. }
  destruct (list_rules_by_pattern_any R pats
              {| remote_tags := remote_tags st;
                 trace := trace st ++ [Print LTagging] |})
    as (evs & r & Hlist & Hs).
  destruct r as [rules|e].
  - destruct (tag_rules_after_discovery fuel R pats tags st _ rules Hlist)
      as (ls & Hrun).
    eexists _, _. split; [exact Hrun|]. split; [|done]. simpl.
    rewrite <- !app_assoc, tag_calls_app, !filter_app, (Hsilent evs Hs).
    filter_simpl. simpl.
    assert (filter is_tag_call (Print <$> ls) = []) as ->.
    { apply Hsilent, Forall_fmap, Forall_true. done. }
    assert (filter is_tag_call
              (gate_outcome R (filter (λ rule, get_tagging_supported rule) rules)).1
            = []) as ->.
    { unfold gate_outcome. repeat case_bool_decide; simpl; by filter_simpl. }
    by rewrite !app_nil_r.
  - unfold tag_rules. unfold bind at 1.
    change (print LTagging st)
      with (Some ({| remote_tags := remote_tags st;
                     trace := trace st ++ [Print LTagging] |}, Ok ())).
    unfold bind at 1. rewrite Hlist.
    eexists _, _. split; [reflexivity|]. split; [|done]. simpl.
    rewrite <- !app_assoc, tag_calls_app, !filter_app, (Hsilent evs Hs).
    filter_simpl. by rewrite !app_nil_r.
Qed.

End gate.

(** ** The S3 tagger, one bucket at a time *)

Ltac s3_unfold :=
  cbv beta iota delta
    [bind ret raise try_except S3.emit S3.info S3.error S3.fail_with
     S3.list_buckets S3.get_bucket_tagging S3.put_bucket_tagging
     S3.delete_bucket_tagging S3.write_json
     S3New.list_buckets S3New.get_bucket_tags S3New.backup_tags
     S3Old.get_existing_tags];
  simpl.

Section s3_steps.
Import S3 S3New S3Facts.
Implicit Types (R : Remote) (st : State) (b : string).

Lemma dict_of_pairs_foldl (l : list (string * string)) (m : gmap string string) :
  NoDup l.*1 →
  foldl (λ m kv, <[kv.1 := kv.2]> m) m l = list_to_map l ∪ m.
Proof.
  revert m. induction l as [|[k v] l IH]; intros m Hnd.
  { simpl. by rewrite (left_id_L ∅ (∪)). }
  rewrite fmap_cons in Hnd. apply NoDup_cons in Hnd as [Hk Hnd].
  simpl. rewrite IH by done.
  rewrite <- insert_union_l. symmetry. apply insert_union_r.
  by apply not_elem_of_list_to_map_1.
Qed.

(** Reading back the items of a dictionary gives the dictionary. *)
Lemma dict_of_pairs_items (m : gmap string string) :
  Py.dict_of_pairs (Py.items m) = m.
Proof.
  unfold Py.dict_of_pairs, Py.items.
  rewrite dict_of_pairs_foldl by apply NoDup_fst_map_to_list.
  by rewrite (right_id_L ∅ (∪)), list_to_map_to_list.
Qed.

Lemma new_events_app st evs tg :
  new_events st {| tagging := tg; trace := trace st ++ evs |} = evs.
Proof. unfold new_events. simpl. by rewrite drop_app_length. Qed.

Lemma get_bucket_tags_run R b st :
  ∃ evs, get_bucket_tags R b st
         = Some ({| tagging := tagging st; trace := trace st ++ evs |},
                 fetch R (tagging st) b)
         ∧ quiet b evs.
Proof.
  unfold fetch, quiet, about. s3_unfold.
  destruct (get_fault R b) as [[code| | | | | |]|]; s3_unfold;
    try case_decide; try destruct (tagging st !! b); s3_unfold;
    rewrite <- ?app_assoc; simpl;
    (eexists; split; [reflexivity|]; repeat constructor; simpl; congruence).
Qed.

Lemma backup_tags_run R b tags st :
  ∃ evs, backup_tags R b tags st
         = Some ({| tagging := tagging st; trace := trace st ++ evs |}, Ok ())
         ∧ quiet b evs.
Proof.
  unfold quiet, about. s3_unfold.
  destruct (open_fault R _); s3_unfold; rewrite <- ?app_assoc; simpl;
    (eexists; split; [reflexivity|]; repeat constructor; simpl; congruence).
Qed.


Lemma apply_outcome_fetch R tg b dry :
  apply_outcome R b dry
  = match fetch R tg b with
    | Ok _ => send_outcome R b dry
    | Raise (ClientError _) => Ok false
    | Raise e => Raise e
    end.
Proof.
  unfold apply_outcome, fetch.
  destruct (get_fault R b) as [[code| | | | | |]|]; try done. by case_decide.
Qed.

Lemma quiet_Forall b evs (P : event → Prop) :
  quiet b evs → (∀ e, is_mutating e = false → about b e → P e) → Forall P evs.
Proof. unfold quiet. rewrite !Forall_forall. naive_solver. Qed.

Lemma apply_tags_to_bucket_run R b tags merge dry st :
  ∃ evs,
    apply_tags_to_bucket R b tags merge dry st
    = Some ({| tagging := apply_tagging R (tagging st) b tags merge dry;
               trace := trace st ++ evs |},
            apply_outcome R b dry)
    ∧ Forall (λ e, about b e ∧
                   (is_mutating e = true →
                    dry = false
                    ∧ ∃ existing, fetch R (tagging st) b = Ok existing
                        ∧ e = Call (PutBucketTagging b
                                      (Py.items (final_tags existing tags merge)))))
             evs
    ∧ (dry = false → ∀ existing, fetch R (tagging st) b = Ok existing →
       Call (PutBucketTagging b (Py.items (final_tags existing tags merge))) ∈ evs).
Proof.
  unfold apply_tags_to_bucket.
  set (log0 := if bool_decide (size (filter_tags tags) ≠ size tags) then _ else _).
  assert (∃ evs0, log0 st = Some ({| tagging := tagging st; trace := trace st ++ evs0 |}, Ok ())
            ∧ quiet b evs0) as (evs0 & Hlog0 & Hq0).
  { unfold log0, quiet, about. case_bool_decide; s3_unfold.
    - eexists; split; [reflexivity|]. repeat constructor; simpl; congruence.
    - exists []. rewrite app_nil_r. by destruct st. }
  unfold try_except, bind at 1. rewrite Hlog0.
  unfold bind at 1.
  destruct (get_bucket_tags_run R b {| tagging := tagging st; trace := trace st ++ evs0 |})
    as (evs1 & Hget & Hq1).
  rewrite Hget. simpl tagging. simpl trace.
  unfold apply_tagging. rewrite (apply_outcome_fetch R (tagging st)).
  destruct (fetch R (tagging st) b) as [existing|e] eqn:Hfetch.
  - unfold bind at 1.
    destruct (backup_tags_run R b existing
                {| tagging := tagging st; trace := (trace st ++ evs0) ++ evs1 |})
      as (evs2 & Hbk & Hq2).
    rewrite Hbk. simpl tagging. simpl trace.
    unfold send_outcome, final_tags.
    destruct merge, dry; s3_unfold;
      try (destruct (put_fault R b) as [[code| | | | | |]|]; s3_unfold);
      rewrite <- ?app_assoc; simpl;
      (eexists; split; [reflexivity|]);
      (split; [|intros Hd ex Hex; try discriminate; simplify_eq;
                rewrite !elem_of_app, !elem_of_cons; tauto]);
      repeat (apply Forall_app; split);
      try (eapply quiet_Forall; [eassumption|]; intros; split; [done|congruence]);
      repeat first [apply Forall_nil_2 | apply Forall_cons_2];
      (split; [unfold about; simpl; congruence|]);
      simpl; intros; try discriminate; eauto.
  - destruct e; s3_unfold; rewrite <- ?app_assoc; simpl;
      (eexists; split; [reflexivity|]);
      (split; [|intros Hd ex Hex; discriminate]);
      repeat (apply Forall_app; split);
      try (eapply quiet_Forall; [eassumption|]; intros; split; [done|congruence]);
      repeat first [apply Forall_nil_2 | apply Forall_cons_2];
      (split; [unfold about; simpl; congruence|]);
      simpl; intros; try discriminate; eauto.
Qed.

Lemma tag_loop_run R tags merge dry (bs : list Bucket) :
  ∀ (acc : gmap string bool) st, ∃ evs tg,
    for_fold bs acc (λ results bucket,
      success <- apply_tags_to_bucket R (Name bucket) tags merge dry ;;
      ret (<[Name bucket := success]> results)) st
    = Some ({| tagging := tg; trace := trace st ++ evs |},
            loop_result R dry bs acc)
    ∧ Forall (λ e, ∀ b, call_bucket e = Some b → b ∈ Name <$> bs) evs
    ∧ (dry = true → tg = tagging st ∧ Forall (λ e, is_mutating e = false) evs).
Proof.
  induction bs as [|bucket bs IH]; intros acc st.
  { exists [], (tagging st). simpl. unfold ret. rewrite app_nil_r.
    destruct st; simpl. repeat split; auto. }
  destruct (apply_tags_to_bucket_run R (Name bucket) tags merge dry st)
    as (evs1 & Hrun & Hev1 & _).
  simpl. unfold bind at 1. unfold bind at 1. rewrite Hrun.
  destruct (apply_outcome R (Name bucket) dry) as [success|exc] eqn:Hout.
  - unfold ret at 1.
    destruct (IH (<[Name bucket := success]> acc)
                {| tagging := apply_tagging R (tagging st) (Name bucket) tags merge dry;
                   trace := trace st ++ evs1 |}) as (evs2 & tg & Hrest & Hev2 & Hdry).
    rewrite Hrest. simpl. exists (evs1 ++ evs2), tg.
    rewrite app_assoc. split; [done|]. split.
    + apply Forall_app. split.
      * eapply Forall_impl; [exact Hev1|]. intros e [Hab _] b Hb.
        rewrite (Hab b Hb). set_solver.
      * eapply Forall_impl; [exact Hev2|]. intros e He b Hb. set_solver.
    + intros ->. destruct (Hdry eq_refl) as [-> Hq]. simpl. split.
      * unfold apply_tagging. by repeat case_match.
      * apply Forall_app. split; [|done].
        eapply Forall_impl; [exact Hev1|]. intros e [_ Hm].
        destruct (is_mutating e); [|done]. by destruct (Hm eq_refl).
  - exists evs1, (apply_tagging R (tagging st) (Name bucket) tags merge dry).
    split; [done|]. split.
    + eapply Forall_impl; [exact Hev1|]. intros e [Hab _] b Hb.
      rewrite (Hab b Hb). set_solver.
    + intros ->. split.
      * unfold apply_tagging. by repeat case_match.
      * eapply Forall_impl; [exact Hev1|]. intros e [_ Hm].
        destruct (is_mutating e); [|done]. by destruct (Hm eq_refl).
Qed.

Lemma list_buckets_run R st :
  ∃ evs, S3New.list_buckets R st
         = Some ({| tagging := tagging st; trace := trace st ++ evs |},
                 match list_buckets_answer R with
                 | Ok response => Ok (default [] response)
                 | Raise e => Raise e
                 end)
         ∧ Forall (λ e, call_bucket e = None ∧ is_mutating e = false) evs.
Proof.
  s3_unfold.
  destruct (list_buckets_answer R) as [response|[]]; s3_unfold;
    rewrite <- ?app_assoc; simpl;
    (eexists; split; [reflexivity|]); repeat constructor.
Qed.

Lemma tag_all_bucket_run R tags merge dry bf st :
  ∃ evs tg,
    tag_all_bucket R tags merge dry bf st
    = Some ({| tagging := tg; trace := trace st ++ evs |}, run_result R dry bf)
    ∧ Forall (λ e, ∀ b, call_bucket e = Some b →
                 ∃ response, list_buckets_answer R = Ok response
                   ∧ b ∈ Name <$> filtered_buckets bf response) evs
    ∧ (dry = true → tg = tagging st ∧ Forall (λ e, is_mutating e = false) evs)
    ∧ (∀ results, run_result R dry bf = Ok results →
         last evs = Some (Info (ActivityCompleted (sum_values results) (size results)))).
Proof.
  unfold tag_all_bucket, run_result.
  destruct (list_buckets_run R st) as (evs0 & Hlist & Hev0).
  unfold bind at 1. rewrite Hlist.
  destruct (list_buckets_answer R) as [response|exc] eqn:Hans.
  2:{ exists evs0, (tagging st). split; [done|]. split; [|split; [|done]].
      - eapply Forall_impl; [exact Hev0|]. intros e [He _] b Hb. congruence.
      - intros _. split; [done|]. eapply Forall_impl; [exact Hev0|]. naive_solver. }
  fold (filtered_buckets bf response).
  set (st0 := {| tagging := tagging st; trace := trace st ++ evs0 |}).
  set (log1 := match bf with Some f => _ | None => _ end).
  assert (∃ evs1, log1 st0 = Some ({| tagging := tagging st; trace := trace st0 ++ evs1 |}, Ok ())
            ∧ Forall (λ e, call_bucket e = None ∧ is_mutating e = false) evs1)
    as (evs1 & Hlog1 & Hev1).
  { unfold log1. destruct bf as [f|]; [destruct (Py.truthy f)|]; s3_unfold.
    - eexists; split; [reflexivity|]. repeat constructor.
    - exists []. by rewrite app_nil_r.
    - exists []. by rewrite app_nil_r. }
  unfold bind at 1. rewrite Hlog1. unfold bind at 1.
  destruct (tag_loop_run R tags merge dry (filtered_buckets bf response) ∅
              {| tagging := tagging st; trace := trace st0 ++ evs1 |})
    as (evs2 & tg & Hloop & Hev2 & Hdry).
  rewrite Hloop. simpl trace.
  destruct (loop_result R dry (filtered_buckets bf response) ∅) as [results|exc].
  - s3_unfold. rewrite <- !app_assoc.
    eexists _, tg. split; [reflexivity|]. split; [|split].
    + repeat (apply Forall_app; split).
      * eapply Forall_impl; [exact Hev0|]. intros e [He _] b Hb. congruence.
      * eapply Forall_impl; [exact Hev1|]. intros e [He _] b Hb. congruence.
      * eapply Forall_impl; [exact Hev2|]. intros e He b Hb. eauto.
      * repeat constructor. simpl. congruence.
    + intros Hd. destruct (Hdry Hd) as [-> Hq]. split; [done|].
      repeat (apply Forall_app; split); try done.
      * eapply Forall_impl; [exact Hev0|]. naive_solver.
      * eapply Forall_impl; [exact Hev1|]. naive_solver.
      * repeat constructor.
    + intros results' Hr. injection Hr as <-.
      by rewrite !last_app.
  - rewrite <- !app_assoc.
    eexists _, tg. split; [reflexivity|]. split; [|split; [|done]].
    + repeat (apply Forall_app; split).
      * eapply Forall_impl; [exact Hev0|]. intros e [He _] b Hb. congruence.
      * eapply Forall_impl; [exact Hev1|]. intros e [He _] b Hb. congruence.
      * eapply Forall_impl; [exact Hev2|]. intros e He b Hb. eauto.
    + intros Hd. destruct (Hdry Hd) as [-> Hq]. split; [done|].
      repeat (apply Forall_app; split); try done.
      * eapply Forall_impl; [exact Hev0|]. naive_solver.
      * eapply Forall_impl; [exact Hev1|]. naive_solver.
Qed.

Lemma loop_result_lookup R dry bs : ∀ acc results,
  loop_result R dry bs acc = Ok results →
  ∀ n, results !! n
       = if decide (n ∈ Name <$> bs)
         then match apply_outcome R n dry with Ok s => Some s | Raise _ => None end
         else acc !! n.
Proof.
  induction bs as [|bucket bs IH]; intros acc results Hres n.
  { simpl in Hres. simplify_eq. destruct (decide (n ∈ Name <$> [])); [set_solver|done]. }
  simpl in Hres.
  destruct (apply_outcome R (Name bucket) dry) as [s|] eqn:Hout; [|done].
  rewrite (IH _ _ Hres n).
  destruct (decide (n ∈ Name <$> bs)) as [Hin|Hnin],
    (decide (n ∈ Name <$> bucket :: bs)) as [Hin'|Hnin']; try done.
  - set_solver.
  - assert (n = Name bucket) as -> by set_solver.
    by rewrite lookup_insert_eq, Hout.
  - apply lookup_insert_ne. set_solver.
Qed.

Lemma loop_result_Ok R dry bs : ∀ acc,
  (∀ bucket, bucket ∈ bs → ∃ s, apply_outcome R (Name bucket) dry = Ok s) →
  ∃ results, loop_result R dry bs acc = Ok results.
Proof.
  induction bs as [|bucket bs IH]; intros acc Hok; simpl; [eauto|].
  destruct (Hok bucket) as [s ->]; [set_solver|].
  apply IH. intros. apply Hok. set_solver.
Qed.

Lemma apply_outcome_client R n dry :
  client_errors_only R → ∃ s, apply_outcome R n dry = Ok s.
Proof.
  intros Hc. unfold apply_outcome, send_outcome.
  destruct (get_fault R n) as [e|] eqn:Hg.
  { destruct (Hc n e) as [code ->]; [by left|]. case_decide; [|eauto].
    destruct dry; [eauto|].
    destruct (put_fault R n) as [e'|] eqn:Hp; [|eauto].
    destruct (Hc n e') as [code' ->]; [by right|]. eauto. }
  destruct dry; [eauto|].
  destruct (put_fault R n) as [e'|] eqn:Hp; [|eauto].
  destruct (Hc n e') as [code' ->]; [by right|]. eauto.
Qed.

Lemma sum_values_true_entries (results : gmap string bool) :
  sum_values results = true_entries results.
Proof.
  unfold sum_values, true_entries.
  induction results as [|n s m Hn IH] using map_ind.
  { by rewrite map_filter_empty, map_to_list_empty, map_size_empty. }
  rewrite map_to_list_insert by done. rewrite fmap_cons.
  change (sum_list (?x :: ?l)) with (x + sum_list l). rewrite IH.
  destruct s; simpl.
  - rewrite map_filter_insert_True by done.
    rewrite map_size_insert_None; [done|].
    by rewrite map_lookup_filter_None_2; [|left].
  - rewrite map_filter_insert_False by done.
    by rewrite delete_id by done.
Qed.

Lemma remove_tags_dry_run R b tag_keys st :
  ∃ evs,
    remove_tags_from_bucket R b tag_keys true st
    = Some ({| tagging := tagging st; trace := trace st ++ evs |},
            match fetch R (tagging st) b with
            | Ok _ => Ok true
            | Raise (ClientError _) => Ok false
            | Raise e => Raise e
            end)
    ∧ quiet b evs.
Proof.
  unfold remove_tags_from_bucket, try_except.
  destruct (get_bucket_tags_run R b st) as (evs1 & Hget & Hq1).
  unfold bind at 1. rewrite Hget.
  destruct (fetch R (tagging st) b) as [existing|e].
  - case_bool_decide; s3_unfold; rewrite <- ?app_assoc;
      (eexists; split; [reflexivity|]); unfold quiet in *;
      (apply Forall_app; split; [done|]);
      repeat constructor; unfold about; simpl; congruence.
  - destruct e; s3_unfold; rewrite <- ?app_assoc;
      (eexists; split; [reflexivity|]); unfold quiet in *;
      try done; try (apply Forall_app; split; [done|]);
      repeat constructor; unfold about; simpl; congruence.
Qed.



End s3_steps.

(** ** The final tags of an apply *)

Section s3_claims.
Import S3 S3New S3Facts.
Implicit Types (R : Remote) (st : State) (b : string).

Lemma filter_tags_lookup (tags : gmap string string) k :
  filter_tags tags !! k
  = match tags !! k with
    | Some v => if Py.truthy (Py.strip v) then Some v else None
    | None => None
    end.
Proof.
  unfold filter_tags. destruct (tags !! k) as [v|] eqn:Hk.
  - destruct (Py.truthy (Py.strip v)) eqn:Hv.
    + apply map_lookup_filter_Some. split; [done|]. simpl. by rewrite Hv.
    + apply map_lookup_filter_None. right. intros v' Hv'. simpl.
      assert (v' = v) as -> by congruence. rewrite Hv. auto.
  - apply map_lookup_filter_None. by left.
Qed.

Lemma dict_merge_lookup (a c : gmap string string) k :
  Py.dict_merge a c !! k
  = match c !! k with Some v => Some v | None => a !! k end.
Proof.
  unfold Py.dict_merge. rewrite lookup_union.
  destruct (c !! k), (a !! k); done.
Qed.

Lemma final_tags_lookup (existing tags : gmap string string) merge k :
  final_tags existing tags merge !! k
  = match tags !! k with
    | Some v =>
        if Py.truthy (Py.strip v) then Some v
        else if merge then existing !! k else None
    | None => if merge then existing !! k else None
    end.
Proof.
  unfold final_tags. destruct merge.
  - rewrite dict_merge_lookup, filter_tags_lookup.
    destruct (tags !! k) as [v|]; [|done]. by destruct (Py.truthy _).
  - rewrite filter_tags_lookup. destruct (tags !! k) as [v|]; [|done].
    by destruct (Py.truthy _).
Qed.

(** A successful apply stored the final tags computed from the fetched ones. *)
Lemma apply_succeeded R b tags merge st st' :
  apply_tags_to_bucket R b tags merge false st = Some (st', Ok true) →
  ∃ existing,
    fetch R (tagging st) b = Ok existing
    ∧ put_fault R b = None
    ∧ tagging st' = <[b := Py.items (final_tags existing tags merge)]> (tagging st)
    ∧ Call (PutBucketTagging b (Py.items (final_tags existing tags merge)))
      ∈ new_events st st'.
Proof.
  destruct (apply_tags_to_bucket_run R b tags merge false st)
    as (evs & Hrun & _ & Hput).
  rewrite Hrun. intros [= <- Hout].
  rewrite (apply_outcome_fetch R (tagging st)) in Hout.
  unfold apply_tagging. rewrite (apply_outcome_fetch R (tagging st)).
  destruct (fetch R (tagging st) b) as [existing|e] eqn:Hf.
  - exists existing. unfold send_outcome in *.
    destruct (put_fault R b) as [[| | | | | |]|]; simplify_eq.
    rewrite new_events_app. eauto.
  - destruct e; simplify_eq.
Qed.

Lemma apply_succeeds R b tags merge st existing :
  fetch R (tagging st) b = Ok existing → put_fault R b = None →
  ∃ st', apply_tags_to_bucket R b tags merge false st = Some (st', Ok true).
Proof.
  intros Hf Hp.
  destruct (apply_tags_to_bucket_run R b tags merge false st)
    as (evs & Hrun & _ & _).
  rewrite Hrun, (apply_outcome_fetch R (tagging st)), Hf.
  unfold send_outcome. rewrite Hp. eauto.
Qed.

End s3_claims.

Lemma get_existing_tags_run (R : S3.Remote) (b : string) (st : S3.State) :
  ∃ evs, S3Old.get_existing_tags R b st
         = Some ({| S3.tagging := S3.tagging st; S3.trace := S3.trace st ++ evs |},
                 S3Facts.fetch R (S3.tagging st) b).
Proof.
  unfold S3Facts.fetch. s3_unfold.
  destruct (S3.get_fault R b) as [[code| | | | | |]|]; s3_unfold;
    try case_decide; try destruct (S3.tagging st !! b); s3_unfold;
    rewrite <- ?app_assoc; simpl; eauto.
Qed.

(** ** Runs over all buckets *)

Section s3_runs.
Import S3 S3New S3Facts.
Implicit Types (R : Remote) (st : State) (b : string).

Lemma contains_empty s : Py.contains "" s = true.
Proof. by destruct s. Qed.

Lemma passes_filter_contains f bucket :
  passes_filter (Some f) bucket = Py.contains f (Name bucket).
Proof.
  unfold passes_filter. destruct f; [|done].
  by rewrite contains_empty.
Qed.

Lemma elem_of_filtered_buckets bf response bucket :
  bucket ∈ filtered_buckets bf response ↔
  bucket ∈ default [] response
  ∧ match bf with
    | Some f => Py.contains f (Name bucket) = true
    | None => True
    end.
Proof.
  unfold filtered_buckets. rewrite list_elem_of_filter.
  destruct bf as [f|].
  - rewrite passes_filter_contains. rewrite Is_true_true. tauto.
  - simpl. tauto.
Qed.

Lemma loop_result_Ok_inv R dry bs : ∀ acc results,
  loop_result R dry bs acc = Ok results →
  ∀ bucket, bucket ∈ bs → ∃ s, apply_outcome R (Name bucket) dry = Ok s.
Proof.
  induction bs as [|b0 bs IH]; intros acc results Hres bucket Hin; [set_solver|].
  simpl in Hres.
  destruct (apply_outcome R (Name b0) dry) as [s|] eqn:Hout; [|done].
  apply elem_of_cons in Hin as [->|Hin]; [eauto|]. eauto.
Qed.

Lemma loop_result_entries R dry bs results :
  loop_result R dry bs ∅ = Ok results →
  ∀ n, is_Some (results !! n) ↔ n ∈ Name <$> bs.
Proof.
  intros Hres n. rewrite (loop_result_lookup R dry bs ∅ results Hres n).
  case_decide as Hn.
  - split; [done|]. intros _.
    apply list_elem_of_fmap in Hn as (bucket & -> & Hin).
    destruct (loop_result_Ok_inv R dry bs ∅ results Hres bucket Hin) as [s ->].
    eauto.
  - rewrite lookup_empty. split; [by intros []|done].
Qed.


Lemma apply_outcome_succeeded R n dry :
  ¬ fetch_fails R n → dry = true ∨ put_fault R n = None →
  apply_outcome R n dry = Ok true.
Proof.
  intros Hf Hsend. unfold apply_outcome, send_outcome.
  assert ((if dry then Ok true
           else match put_fault R n with
                | Some (ClientError _) => Ok false
                | Some e => Raise e
                | None => Ok true
                end) = Ok true) as Hs.
  { destruct Hsend as [->| ->]; [done|]. by destruct dry. }
  destruct (get_fault R n) as [e|] eqn:Hg; [|done].
  destruct e as [code| | | | | |];
    try (exfalso; apply Hf; eexists; split; [done|congruence]).
  case_decide as Hcode; [done|].
  exfalso. apply Hf. eexists. split; [done|congruence].
Qed.


End s3_runs.

Lemma dry_outcome (R : S3.Remote) (b : string) :
  (¬ S3Facts.fetch_fails R b → S3Facts.apply_outcome R b true = Ok true)
  ∧ (∀ code, S3.get_fault R b = Some (ClientError code) → code ≠ "NoSuchTagSet" →
             S3Facts.apply_outcome R b true = Ok false).
Proof.
  split.
  - intros Hf. apply apply_outcome_succeeded; auto.
  - intros code Hg Hne. unfold S3Facts.apply_outcome. rewrite Hg.
    by rewrite decide_False.
Qed.

Lemma tag_all_bucket_returns (R : S3.Remote) (tags : gmap string string)
    (merge dry : bool) (bf : option string) (st : S3.State)
    (response : option (list S3.Bucket)) :
  S3.list_buckets_answer R = Ok response → S3Facts.client_errors_only R →
  ∃ st' results,
    S3New.tag_all_bucket R tags merge dry bf st = Some (st', Ok results).
Proof.
  intros Hans Hc.
  destruct (tag_all_bucket_run R tags merge dry bf st) as (evs & tg & Hrun & _).
  unfold S3Facts.run_result in Hrun. rewrite Hans in Hrun.
  destruct (loop_result_Ok R dry (S3Facts.filtered_buckets bf response) ∅)
    as [results Hres].
  { intros bucket _. by apply apply_outcome_client. }
  rewrite Hres in Hrun. eauto.
Qed.

(** *** Failures of the tag fetch in the discovery *)

Section tag_fetch_in_discovery.
Import EventBridge EventBridgeFacts.
Implicit Types (R : Remote) (st : State) (pats : list string).

Lemma for_fold_app {S A B} (l1 l2 : list A) (acc : B) (body : B → A → M S B) s :
  for_fold (l1 ++ l2) acc body s
  = (acc' <- for_fold l1 acc body ;; for_fold l2 acc' body) s.
Proof.
  revert acc s. induction l1 as [|x l1 IH]; intros acc s; [done|].
  cbn [app for_fold]. unfold bind.
  destruct (body acc x s) as [[s1 [acc1|e]]|]; [|done|done].
  rewrite IH. done.
Qed.

(** The pages one after the other are their rules one after the other. *)
Lemma walk_pages_flat R pats (good : list (option (list Rule))) : ∀ m st,
  walk_pages R pats (Ok <$> good) m st
  = for_fold (concat (default [] <$> good)) m (visit_rule R pats) st.
Proof.
  induction good as [|page good IH]; intros m st; [done|].
  rewrite !fmap_cons. cbn [walk_pages concat]. rewrite for_fold_app.
  unfold bind.
  destruct (for_fold (default [] page) m (visit_rule R pats) st)
    as [[st1 [m1|e]]|]; [|done|done].
  apply IH.
Qed.

(** The rules visited while every failing tag fetch is a [ClientError]. *)
Lemma visit_rules_client R pats (rules : list Rule) : ∀ m st,
  (∀ rule e, rule ∈ rules → matches (Name rule) pats = true →
             list_tags_for_resource R (Arn rule) = Raise e →
             ∃ code, e = ClientError code) →
  ∃ evs m',
    for_fold rules m (visit_rule R pats) st
    = Some ({| remote_tags := remote_tags st; trace := trace st ++ evs |}, Ok m')
    ∧ silent evs
    ∧ (∀ x, x ∈ m → x ∈ m')
    ∧ ∀ rule code,
        rule ∈ rules → matches (Name rule) pats = true →
        list_tags_for_resource R (Arn rule) = Raise (ClientError code) →
        unsupported_entry rule ∈ m'
        ∧ Print (if decide (code = "UnsupportedOperation")
                 then LTagingNotSupported (Name rule)
                 else LCouldNotGetTags (Name rule) (ClientError code)) ∈ evs.
Proof.
  induction rules as [|rule rules IH]; intros m st Hc.
  { exists [], m. simpl. unfold ret. rewrite app_nil_r. destruct st.
    split; [done|]. split; [constructor|]. split; [done|].
    intros rule code Hin. by apply elem_of_nil in Hin. }
  destruct (visit_rule_run R pats m rule st) as (evs1 & r1 & Hrun & Hs1 & Hr1).
  simpl. unfold bind at 1. rewrite Hrun.
  destruct r1 as [m1|e].
  2:{ destruct Hr1 as (Hm & Hraise & Hne).
      destruct (Hc rule e) as [code ->]; [apply list_elem_of_here|done|done|].
      by destruct (Hne code). }
  destruct (IH m1 {| remote_tags := remote_tags st; trace := trace st ++ evs1 |})
    as (evs2 & m' & Hrest & Hs2 & Hkeep & Hfail).
  { intros rule' e Hin. apply Hc. by apply list_elem_of_further. }
  rewrite Hrest. cbn [remote_tags trace]. rewrite <- app_assoc.
  exists (evs1 ++ evs2), m'. split; [done|]. split; [by apply Forall_app|].
  assert (∀ x, x ∈ m → x ∈ m1) as Hm1.
  { intros x Hx. destruct (matches (Name rule) pats); [|by subst].
    destruct (list_tags_for_resource R (Arn rule)) as [ts|[code| | | | | |]];
      try done; [subst m1|destruct Hr1 as [-> _]];
      apply elem_of_app; by left. }
  split; [intros x Hx; apply Hkeep, Hm1, Hx|].
  intros rule' code Hin Hmatch Hraise.
  apply elem_of_cons in Hin as [->|Hin].
  - rewrite Hmatch, Hraise in Hr1. destruct Hr1 as [-> Hprint]. split.
    + apply Hkeep, elem_of_app. right. apply list_elem_of_here.
    + apply elem_of_app. by left.
  - destruct (Hfail rule' code Hin Hmatch Hraise) as [Hentry Hprint].
    split; [done|]. apply elem_of_app. by right.
Qed.

(** The rule whose tag fetch fails with another exception ends the walk. *)
Lemma visit_rules_until_failure R pats (before after : list Rule) rule e m st :
  (∀ rule' e', rule' ∈ before → matches (Name rule') pats = true →
               list_tags_for_resource R (Arn rule') = Raise e' →
               ∃ code, e' = ClientError code) →
  matches (Name rule) pats = true →
  list_tags_for_resource R (Arn rule) = Raise e →
  (∀ code, e ≠ ClientError code) →
  ∃ evs,
    for_fold (before ++ rule :: after) m (visit_rule R pats) st
    = Some ({| remote_tags := remote_tags st; trace := trace st ++ evs |}, Raise e)
    ∧ silent evs.
Proof.
  intros Hc Hmatch Hraise Hne.
  destruct (visit_rules_client R pats before m st Hc)
    as (evs1 & m1 & Hrun1 & Hs1 & _).
  rewrite for_fold_app. unfold bind at 1. rewrite Hrun1.
  destruct (visit_rule_run R pats m1 rule
              {| remote_tags := remote_tags st; trace := trace st ++ evs1 |})
    as (evs2 & r2 & Hrun2 & Hs2 & Hr2).
  cbn [for_fold]. unfold bind at 1. rewrite Hrun2.
  cbn [remote_tags trace]. rewrite <- app_assoc.
  destruct r2 as [m2|e2].
  - rewrite Hmatch, Hraise in Hr2. destruct e; try done. by destruct (Hne code).
  - destruct Hr2 as (_ & Hraise2 & _). rewrite Hraise in Hraise2.
    injection Hraise2 as <-.
    exists (evs1 ++ evs2). split; [done|]. by apply Forall_app.
Qed.

End tag_fetch_in_discovery.

(** *** The applies of a run over all buckets *)

Section each_apply.
Import S3 S3New S3Facts.
Implicit Types (R : Remote) (st : State) (b : string).

Lemma tag_loop_each R tags merge dry (bs : list Bucket) :
  ∀ (acc : gmap string bool) st st2 results,
    for_fold bs acc (λ results bucket,
      success <- apply_tags_to_bucket R (Name bucket) tags merge dry ;;
      ret (<[Name bucket := success]> results)) st
    = Some (st2, Ok results) →
    ∃ outcomes,
      apply_each R tags merge dry bs st = Some (st2, outcomes)
      ∧ outcomes.*1 = Name <$> bs
      ∧ results = record_outcomes acc outcomes.
Proof.
  induction bs as [|bucket bs IH]; intros acc st st2 results Hrun.
  { simpl in Hrun. injection Hrun as <- <-. by exists []. }
  cbn [for_fold] in Hrun. unfold bind at 1 in Hrun. unfold bind at 1 in Hrun.
  cbn [apply_each].
  destruct (apply_tags_to_bucket R (Name bucket) tags merge dry st)
    as [[st1 [success|e]]|]; [|done|done].
  unfold ret at 1 in Hrun.
  destruct (IH _ _ _ _ Hrun) as (outcomes & -> & Hnames & ->).
  eexists. split; [reflexivity|]. split; [|done].
  rewrite !fmap_cons. by f_equal.
Qed.

Lemma get_bucket_tags_calls R b st :
  ∃ evs, get_bucket_tags R b st
         = Some ({| tagging := tagging st; trace := trace st ++ evs |},
                 fetch R (tagging st) b)
         ∧ Call (GetBucketTagging b) ∈ evs.
Proof.
  unfold fetch. s3_unfold.
  destruct (get_fault R b) as [[code| | | | | |]|]; s3_unfold;
    try case_decide; try destruct (tagging st !! b); s3_unfold;
    rewrite <- ?app_assoc; simpl;
    (eexists; split; [reflexivity|]); apply list_elem_of_here.
Qed.

(** Every apply makes the fetch call on its bucket. *)
Lemma apply_tags_to_bucket_fetches R b tags merge dry st st' r :
  apply_tags_to_bucket R b tags merge dry st = Some (st', r) →
  ∃ evs, trace st' = trace st ++ evs ∧ Call (GetBucketTagging b) ∈ evs.
Proof.
  unfold apply_tags_to_bucket.
  set (log0 := if bool_decide (size (filter_tags tags) ≠ size tags) then _ else _).
  assert (∃ evs0, log0 st = Some ({| tagging := tagging st; trace := trace st ++ evs0 |}, Ok ()))
    as (evs0 & Hlog0).
  { unfold log0. case_bool_decide; s3_unfold.
    - eexists; reflexivity.
    - exists []. rewrite app_nil_r. by destruct st. }
  unfold try_except, bind at 1. rewrite Hlog0.
  unfold bind at 1.
  destruct (get_bucket_tags_calls R b {| tagging := tagging st; trace := trace st ++ evs0 |})
    as (evs1 & Hget & Hin).
  rewrite Hget. simpl tagging. simpl trace.
  assert (Call (GetBucketTagging b) ∈ evs0 ++ evs1) as Hin'
    by (apply elem_of_app; by right).
  rewrite <- app_assoc.
  destruct (fetch R (tagging st) b) as [existing|e].
  - unfold bind at 1.
    destruct (backup_tags_run R b existing
                {| tagging := tagging st; trace := trace st ++ evs0 ++ evs1 |})
      as (evs2 & Hbk & _).
    rewrite Hbk. simpl tagging. simpl trace.
    destruct merge, dry; s3_unfold;
      try (destruct (put_fault R b) as [[code| | | | | |]|]; s3_unfold);
      intros [= <- _]; simpl; rewrite <- ?app_assoc;
      (eexists; split; [reflexivity|]);
      rewrite ?elem_of_app; tauto.
  - destruct e; s3_unfold; intros [= <- _]; simpl; rewrite <- ?app_assoc;
      (eexists; split; [reflexivity|]);
      rewrite ?elem_of_app; tauto.
Qed.

Lemma apply_each_fetches R tags merge dry (bs : list Bucket) :
  ∀ st st2 outcomes,
    apply_each R tags merge dry bs st = Some (st2, outcomes) →
    ∃ evs, trace st2 = trace st ++ evs
           ∧ ∀ n, n ∈ Name <$> bs → Call (GetBucketTagging n) ∈ evs.
Proof.
  induction bs as [|bucket bs IH]; intros st st2 outcomes Hrun.
  { simpl in Hrun. injection Hrun as <- <-. exists []. rewrite app_nil_r.
    split; [done|]. intros n Hn. by apply elem_of_nil in Hn. }
  cbn [apply_each] in Hrun.
  destruct (apply_tags_to_bucket R (Name bucket) tags merge dry st)
    as [[st1 [success|e]]|] eqn:Happly; [|done|done].
  destruct (apply_each R tags merge dry bs st1) as [[st2' outs]|] eqn:Hrest;
    [|done].
  injection Hrun as <- <-.
  destruct (apply_tags_to_bucket_fetches R _ tags merge dry st st1 _ Happly)
    as (evs1 & Ht1 & Hin1).
  destruct (IH _ _ _ Hrest) as (evs2 & Ht2 & Hin2).
  exists (evs1 ++ evs2). split; [by rewrite Ht2, Ht1, app_assoc|].
  intros n Hn. rewrite fmap_cons in Hn. apply elem_of_app.
  apply elem_of_cons in Hn as [->|Hn]; [by left|right; by apply Hin2].
Qed.

End each_apply.

Section run_steps.
Import S3 S3New S3Facts.
Implicit Types (R : Remote) (st : State) (b : string).

(** A run of [tag_all_bucket] that returns, step by step: the listing, one
    apply per bucket that passes the filter, the summary line. *)
Lemma tag_all_bucket_steps R tags merge dry bf st st' results :
  tag_all_bucket R tags merge dry bf st = Some (st', Ok results) →
  ∃ response evs0 st2 outcomes,
    list_buckets_answer R = Ok response
    ∧ Forall (λ e, call_bucket e = None) evs0
    ∧ apply_each R tags merge dry (filtered_buckets bf response)
        {| tagging := tagging st; trace := trace st ++ evs0 |}
      = Some (st2, outcomes)
    ∧ outcomes.*1 = Name <$> filtered_buckets bf response
    ∧ results = record_outcomes ∅ outcomes
    ∧ st' = {| tagging := tagging st2;
               trace := trace st2
                        ++ [Info (ActivityCompleted (sum_values results)
                                    (size results))] |}.
Proof.
  unfold tag_all_bucket.
  destruct (list_buckets_run R st) as (evs0 & Hlist & Hev0).
  unfold bind at 1. rewrite Hlist.
  destruct (list_buckets_answer R) as [response|exc] eqn:Hans; [|done].
  fold (filtered_buckets bf response).
  set (st0 := {| tagging := tagging st; trace := trace st ++ evs0 |}).
  set (log1 := match bf with Some f => _ | None => _ end).
  assert (∃ evs1, log1 st0 = Some ({| tagging := tagging st; trace := trace st0 ++ evs1 |}, Ok ())
            ∧ Forall (λ e, call_bucket e = None) evs1)
    as (evs1 & Hlog1 & Hev1).
  { unfold log1. destruct bf as [f|]; [destruct (Py.truthy f)|]; s3_unfold.
    - eexists; split; [reflexivity|]. repeat constructor.
    - exists []. by rewrite app_nil_r.
    - exists []. by rewrite app_nil_r. }
  unfold bind at 1. rewrite Hlog1. unfold bind at 1.
  cbn [trace st0]. unfold st0. cbn [trace]. rewrite <- app_assoc.
  match goal with
  | |- context [for_fold ?l ?a ?f ?s] =>
      destruct (for_fold l a f s) as [[st2 [results'|e]]|] eqn:Hloop; [|done|done]
  end.
  destruct (tag_loop_each R tags merge dry _ _ _ _ _ Hloop)
    as (outcomes & Heach & Hnames & ->).
  s3_unfold. intros [= <- <-].
  exists response, (evs0 ++ evs1), st2, outcomes.
  split; [done|]. split.
  { apply Forall_app. split; [|done].
    eapply Forall_impl; [exact Hev0|]. by intros e []. }
  split; [done|]. split; [done|]. split; done.
Qed.

End run_steps.

(** * The claims *)

(** C1.  For all tag maps [current] and [desired], the changes computed by
    [show_tag_diff] are exactly: Add with the new value for a key only in
    [desired], Remove with the old value for a key only in [current], Change
    for a key in both with different values, nothing for a key with equal
    values; so the keys of the delta are the keys whose values differ.  The
    keys come in strictly increasing order.  Applying the delta to [current]
    (Add inserts, Remove deletes, Change overwrites) yields [desired], the
    diff of a map with itself is empty, and these changes are what the
    function prints after the header. *)
Theorem tag_diff_correct (current desired : gmap string string) :
  let delta := EventBridge.tag_diff current desired in
  (∀ c, c ∈ delta ↔
        match c with
        | EventBridge.Add k v => current !! k = None ∧ desired !! k = Some v
        | EventBridge.Remove k v => current !! k = Some v ∧ desired !! k = None
        | EventBridge.Change k o n =>
            current !! k = Some o ∧ desired !! k = Some n ∧ o ≠ n
        end)
  ∧ (∀ k, k ∈ EventBridge.change_key <$> delta ↔ current !! k ≠ desired !! k)
  ∧ StronglySorted (strict String.le) (EventBridge.change_key <$> delta)
  ∧ EventBridge.apply_delta delta current = desired
  ∧ EventBridge.tag_diff current current = []
  ∧ ∀ rule_name,
      EventBridge.show_tag_diff rule_name current desired true
      = EventBridge.LHeader rule_name
        :: (EventBridge.LChange <$> delta)
        ++ match delta with [] => [EventBridge.LNoChangesRequired] | _ => [] end.
Proof.
  intros delta. repeat split.
  - intros Hc. apply elem_of_tag_diff, classify_Some in Hc.
    destruct c; naive_solver.
  - intros Hc. apply elem_of_tag_diff, classify_Some. destruct c; naive_solver.
  - rewrite list_elem_of_fmap. intros (c & -> & Hc).
    apply elem_of_tag_diff in Hc. intros Heq.
    apply classify_None in Heq. congruence.
  - intros Hne. rewrite list_elem_of_fmap.
    destruct (EventBridge.classify current desired k) as [c|] eqn:Hc.
    + exists c. pose proof (classify_key _ _ _ _ Hc) as Hk. split; [done|].
      apply elem_of_tag_diff. by rewrite Hk.
    + by apply classify_None in Hc.
  - apply omap_classify_keys, sorted_strict, NoDup_elements.
  - apply apply_tag_diff.
  - apply tag_diff_same.
  - intros rule_name. unfold EventBridge.show_tag_diff. simpl.
    fold delta. by destruct delta.
Qed.

(** C2, counterexample.  Current tags [{"b": "2"}] merged with desired tags
    [{"b": ""}]: the apply succeeds and the bucket holds [{"b": "2"}], while
    the union in which the desired value wins is [{"b": ""}]. *)
Lemma merge_blank_desired_keeps_current :
  Scenarios.returned Scenarios.merge_blank_desired = Some (Ok true)
  ∧ Scenarios.stored "bucket" Scenarios.merge_blank_desired
    = Some (Some [("b", "2")])
  ∧ Py.items (Py.dict_merge {[ "b" := "2" ]} {[ "b" := "" ]}) = [("b", "")]
  ∧ Scenarios.stored "bucket" Scenarios.merge_blank_desired
    ≠ Some (Some (Py.items (Py.dict_merge {[ "b" := "2" ]} {[ "b" := "" ]}))).
Proof. by vm_compute. Qed.

(** C2, amended.  In merge mode, whenever the tags of the bucket can be
    fetched and sent, the apply succeeds and the tag set it sends, which the
    bucket then holds, is the union of the current tags and the desired tags
    without their blank values: a key takes its desired value when that value
    is not blank, and keeps its current value (if any) otherwise.  For current
    [{"a": "1", "b": "2"}] and desired [{"b": "3", "c": "4"}] this is
    [{"a": "1", "b": "3", "c": "4"}].  The unfiltered merge of [tag_rules]
    and of [tag_s3.apply_tags] lets the desired value win for every key. *)
Theorem merge_sends_current_overlaid_with_desired
    (R : S3.Remote) (b : string) (tags existing : gmap string string)
    (st : S3.State) :
  S3Facts.fetch R (S3.tagging st) b = Ok existing →
  S3.put_fault R b = None →
  (∃ st' final,
     S3New.apply_tags_to_bucket R b tags true false st = Some (st', Ok true)
     ∧ S3.Call (S3.PutBucketTagging b (Py.items final)) ∈ S3Facts.new_events st st'
     ∧ S3.tagging st' !! b = Some (Py.items final)
     ∧ Py.dict_of_pairs (Py.items final) = final
     ∧ ∀ k, final !! k
            = match tags !! k with
              | Some v => if Py.truthy (Py.strip v) then Some v else existing !! k
              | None => existing !! k
              end)
  ∧ Py.dict_merge {[ "a" := "1"; "b" := "2" ]} {[ "b" := "3"; "c" := "4" ]}
    = ({[ "a" := "1"; "b" := "3"; "c" := "4" ]} : gmap string string)
  ∧ ∀ (current desired : gmap string string) k,
      Py.dict_merge current desired !! k
      = match desired !! k with Some v => Some v | None => current !! k end.
Proof.
  intros Hf Hp. split; [|split].
  - destruct (apply_succeeds R b tags true st existing Hf Hp) as [st' Hrun].
    destruct (apply_succeeded R b tags true st st' Hrun)
      as (existing' & Hf' & _ & Htg & Hcall).
    assert (existing' = existing) as -> by congruence.
    exists st', (S3Facts.final_tags existing tags true).
    split; [done|]. split; [done|]. split.
    { rewrite Htg. apply lookup_insert_eq. }
    split; [apply dict_of_pairs_items|].
    intros k. apply final_tags_lookup.
  - by vm_compute.
  - apply dict_merge_lookup.
Qed.

(** The merge of the example, run on a bucket that holds
    [{"a": "1", "b": "2"}]. *)
Lemma merge_sends_current_overlaid_with_desired_witness :
  ∃ st' final,
    S3New.apply_tags_to_bucket (Scenarios.s3_remote [] Scenarios.no_fault Scenarios.no_fault)
      "bucket" {[ "b" := "3"; "c" := "4" ]} true false
      (Scenarios.s3_state {[ "bucket" := [("a", "1"); ("b", "2")] ]})
    = Some (st', Ok true)
    ∧ S3.tagging st' !! "bucket" = Some (Py.items final)
    ∧ final !! "a" = Some "1" ∧ final !! "b" = Some "3" ∧ final !! "c" = Some "4".
Proof.
  destruct (merge_sends_current_overlaid_with_desired
              (Scenarios.s3_remote [] Scenarios.no_fault Scenarios.no_fault)
              "bucket" {[ "b" := "3"; "c" := "4" ]} {[ "a" := "1"; "b" := "2" ]}
              (Scenarios.s3_state {[ "bucket" := [("a", "1"); ("b", "2")] ]}))
    as [(st' & final & Hrun & _ & Hst & _ & Hk) _].
  - vm_compute. reflexivity.
  - reflexivity.
  - exists st', final. split; [exact Hrun|]. split; [exact Hst|].
    rewrite !Hk. vm_compute. auto.
Defined.

(** C3, counterexample.  With current tags [{"x": ""}] and desired tags
    [{"x": ""}] in merge mode the apply succeeds and the bucket holds the tag
    [x] with the empty value; [EventBridge.apply_tags] sends a tag with an
    empty value as it is. *)
Lemma blank_current_value_is_applied :
  Scenarios.returned Scenarios.merge_blank_current = Some (Ok true)
  ∧ Scenarios.stored "bucket" Scenarios.merge_blank_current
    = Some (Some [("x", "")])
  ∧ (∃ tag_set, Scenarios.stored "bucket" Scenarios.merge_blank_current
                = Some (Some tag_set) ∧ ("x", "") ∈ tag_set)
  ∧ EBScenarios.returned EBScenarios.blank_tag_applied = Some (Ok true)
  ∧ EBScenarios.mutating_calls EBScenarios.blank_tag_applied
    = Some [EventBridge.CallTagResource "arn:test-rule" [("x", "")]].
Proof.
  split; [by vm_compute|]. split; [by vm_compute|].
  split; [|by vm_compute]. exists [("x", "")]. split; [by vm_compute|].
  apply list_elem_of_here.
Qed.

(** C3, amended.  [apply_tags_to_bucket] drops the desired tags whose value
    is blank (empty after [strip]) before it merges: in the tag set of a
    successful apply a desired tag with a blank value is absent in replace
    mode and leaves the current value of its key (if any) in merge mode, and
    a blank value in the final tag set is the current value of its key, in
    merge mode only.  [EventBridge.apply_tags] filters nothing: every tag it
    is given is in the list it sends. *)
Theorem blank_values_come_from_current_tags
    (R : S3.Remote) (b : string) (tags : gmap string string) (merge : bool)
    (st st' : S3.State) :
  S3New.apply_tags_to_bucket R b tags merge false st = Some (st', Ok true) →
  (∃ existing final,
     S3Facts.fetch R (S3.tagging st) b = Ok existing
     ∧ S3.tagging st' !! b = Some (Py.items final)
     ∧ S3.Call (S3.PutBucketTagging b (Py.items final)) ∈ S3Facts.new_events st st'
     ∧ (∀ k v, tags !! k = Some v → S3Facts.blank v →
               final !! k = if merge then existing !! k else None)
     ∧ (∀ k v, final !! k = Some v → S3Facts.blank v →
               merge = true ∧ existing !! k = Some v))
  ∧ ∀ fuel R' arn nm (tags' : gmap string string) st0,
      EventBridge.tag_resource_answer R' (length (EventBridge.tag_calls st0)) arn
      = None →
      ∃ st1 sent,
        EventBridge.apply_tags (S fuel) R' arn nm tags' st0 = Some (st1, Ok true)
        ∧ EventBridge.CallTagResource arn sent ∈ EventBridgeFacts.new_events st0 st1
        ∧ ∀ k v, tags' !! k = Some v → (k, v) ∈ sent.
Proof.
  intros Hrun. split.
  - destruct (apply_succeeded R b tags merge st st' Hrun)
      as (existing & Hf & _ & Htg & Hcall).
    exists existing, (S3Facts.final_tags existing tags merge).
    split; [done|]. split; [rewrite Htg; apply lookup_insert_eq|].
    split; [done|]. unfold S3Facts.blank. split.
    + intros k v Hk Hv. by rewrite final_tags_lookup, Hk, Hv.
    + intros k v Hk Hv. rewrite final_tags_lookup in Hk.
      destruct (tags !! k) as [w|]; [destruct (Py.truthy (Py.strip w)) eqn:Hw|];
        destruct merge; simplify_eq; auto; congruence.
  - intros fuel R' arn nm tags' st0 Hans.
    rewrite (apply_tags_succeeds fuel R' arn nm tags' st0 Hans).
    eexists _, (Py.items tags'). split; [done|]. split.
    + unfold EventBridgeFacts.new_events. simpl. rewrite drop_app_length.
      set_solver.
    + intros k v Hk. by apply elem_of_map_to_list.
Qed.

(** The blank value of the bucket that holds [{"x": ""}] is its current
    one. *)
Lemma blank_values_come_from_current_tags_witness :
  ∃ existing final,
    S3Facts.fetch (Scenarios.s3_remote [] Scenarios.no_fault Scenarios.no_fault)
      {[ "bucket" := [("x", "")] ]} "bucket" = Ok existing
    ∧ S3.tagging (Scenarios.state_after Scenarios.merge_blank_current) !! "bucket"
      = Some (Py.items final)
    ∧ (∀ k v, final !! k = Some v → S3Facts.blank v →
              true = true ∧ existing !! k = Some v).
Proof.
  destruct (blank_values_come_from_current_tags
              (Scenarios.s3_remote [] Scenarios.no_fault Scenarios.no_fault)
              "bucket" {[ "x" := "" ]} true
              (Scenarios.s3_state {[ "bucket" := [("x", "")] ]})
              (Scenarios.state_after Scenarios.merge_blank_current))
    as [(existing & final & Hf & Hst & _ & _ & Hblank) _].
  - vm_compute. reflexivity.
  - exists existing, final. auto.
Defined.

(** C4, the run at the failing input.  One taggable rule, no [CI] variable,
    "no" typed at the prompt: [tag_rules] prints that tagging is aborted,
    makes no call of [tag_resource], and ends by raising [NameError] for the
    name [response] instead of returning.  Typing "yes" ends the run with a
    [TypeError] at the call of [apply_tags] with two arguments, again without
    a call of [tag_resource].  With no taggable rule the run returns before
    the prompt. *)
Theorem declined_run_raises_name_error :
  EBScenarios.returned EBScenarios.declined = Some (Raise (NameError "response"))
  ∧ EBScenarios.mutating_calls EBScenarios.declined = Some []
  ∧ (last <$> EBScenarios.printed EBScenarios.declined)
    = Some (Some EventBridge.LAborted)
  ∧ EBScenarios.returned EBScenarios.accepted
    = Some (Raise (TypeError "apply_tags() missing 1 required positional argument: 'tags'"))
  ∧ EBScenarios.mutating_calls EBScenarios.accepted = Some []
  ∧ EBScenarios.returned EBScenarios.none_taggable = Some (Ok ())
  ∧ EBScenarios.mutating_calls EBScenarios.none_taggable = Some []
  ∧ (last <$> EBScenarios.printed EBScenarios.none_taggable)
    = Some (Some EventBridge.LNoTaggable)
  ∧ EBScenarios.prompts EBScenarios.none_taggable = Some []
  ∧ EBScenarios.prompts EBScenarios.declined = Some [EventBridge.Prompt 1].
Proof. by vm_compute. Qed.

(** C5, counterexample.  The remote throttles two calls and accepts the
    third: [apply_tags] pauses twice, calls [tag_resource] three times and
    returns [True]; it neither stops after one retry nor reports a failure. *)
Lemma throttled_twice_retries_twice :
  EBScenarios.returned EBScenarios.throttled_twice = Some (Ok true)
  ∧ EBScenarios.mutating_calls EBScenarios.throttled_twice
    = Some (replicate 3 (EventBridge.CallTagResource "arn:test-rule" [("Env", "prd")]))
  ∧ EBScenarios.pauses EBScenarios.throttled_twice = Some 2
  ∧ EBScenarios.returned EBScenarios.throttled_twice ≠ Some (Ok false)
  ∧ EBScenarios.mutating_calls EBScenarios.throttled_twice
    ≠ Some (replicate 2 (EventBridge.CallTagResource "arn:test-rule" [("Env", "prd")])).
Proof. by vm_compute. Qed.

(** C5, amended.  On the answer that it takes for throttling, [apply_tags]
    pauses two seconds and calls itself with the same arguments, once per such
    answer: the retry has no attempt counter, it goes on as long as the remote
    throttles and is bounded only by the interpreter's limit on nested calls.
    If the remote throttles [n] calls in a row, [n] below the room for nested
    calls, and then gives any other answer, [apply_tags] returns after exactly
    [n + 1] identical calls of [tag_resource] and [n] pauses, with [True]
    exactly when the last answer is a success.  If it throttles as long as
    there is room, the call at the limit fails with a [RecursionError] that
    line 111 catches, and [apply_tags] returns [False] after as many calls
    and pauses as there was room for, the tags unchanged.  For every remote,
    [apply_tags] returns. *)
Theorem apply_tags_retries_while_throttled
    (depth : nat) (R : EventBridge.Remote) (arn nm : string)
    (tags : gmap string string) (st : EventBridge.State) :
  (∃ st' ok, EventBridge.apply_tags depth R arn nm tags st = Some (st', Ok ok))
  ∧ (∀ n,
       (∀ i, i < n →
             EventBridge.tag_resource_answer R (length (EventBridge.tag_calls st) + i) arn
             = EventBridgeFacts.throttled) →
       EventBridge.tag_resource_answer R (length (EventBridge.tag_calls st) + n) arn
       ≠ EventBridgeFacts.throttled →
       n < depth →
       ∃ st' ok,
         EventBridge.apply_tags depth R arn nm tags st = Some (st', Ok ok)
         ∧ EventBridge.tag_calls st'
           = EventBridge.tag_calls st
             ++ replicate (n + 1) (EventBridge.CallTagResource arn (Py.items tags))
         ∧ length (EventBridgeFacts.backoffs st')
           = length (EventBridgeFacts.backoffs st) + n
         ∧ (ok = true ↔
            EventBridge.tag_resource_answer R (length (EventBridge.tag_calls st) + n) arn
            = None))
  ∧ ((∀ i, i < depth →
           EventBridge.tag_resource_answer R (length (EventBridge.tag_calls st) + i) arn
           = EventBridgeFacts.throttled) →
     ∃ st',
       EventBridge.apply_tags depth R arn nm tags st = Some (st', Ok false)
       ∧ EventBridge.tag_calls st'
         = EventBridge.tag_calls st
           ++ replicate depth (EventBridge.CallTagResource arn (Py.items tags))
       ∧ length (EventBridgeFacts.backoffs st')
         = length (EventBridgeFacts.backoffs st) + depth
       ∧ EventBridge.remote_tags st' = EventBridge.remote_tags st
       ∧ last (EventBridge.trace st')
         = Some (EventBridge.Print (EventBridge.LUnexpected nm RecursionError))).
Proof.
  split; [apply apply_tags_total|]. split.
  - intros n. apply apply_tags_runs.
  - apply apply_tags_gives_up.
Qed.

(** Two throttled calls, then success: three calls and two pauses. *)
Lemma apply_tags_retries_while_throttled_witness :
  ∃ st',
    EBScenarios.throttled_twice = Some (st', Ok true)
    ∧ length (EventBridge.tag_calls st') = 3
    ∧ length (EventBridgeFacts.backoffs st') = 2.
Proof.
  destruct (apply_tags_retries_while_throttled 3
              {| EventBridge.pages := [];
                 EventBridge.list_tags_for_resource := EBScenarios.no_tags;
                 EventBridge.tag_resource_answer := EBScenarios.throttle_first 2;
                 EventBridge.getenv_CI := None;
                 EventBridge.stdin_line := "" |}
              "arn:test-rule" "test-rule" EBScenarios.the_tags EBScenarios.state0)
    as (_ & Hruns & _).
  destruct (Hruns 2) as (st' & ok & Hrun & Hcalls & Hback & Hok).
  - intros i Hi. simpl. unfold EBScenarios.throttle_first.
    destruct (decide (i < 2)); [reflexivity|lia].
  - vm_compute. discriminate.
  - lia.
  - assert (ok = true) as -> by (apply Hok; reflexivity).
    exists st'. split; [exact Hrun|]. split.
    + rewrite Hcalls. reflexivity.
    + rewrite Hback. reflexivity.
Defined.




(** C7, counterexample.  The first page yields a matching rule, fetching the
    second page fails: the walk over the first page alone collects the rule,
    but [list_rules_by_pattern] returns the empty list and [tag_rules] ends
    with "No Match". *)
Lemma listing_failure_discards_collected_rules :
  EBScenarios.returned
    (EventBridge.walk_pages EBScenarios.second_page_fails ["test"]
       [Ok (Some [EBScenarios.rule "test-rule"])] [] EBScenarios.state0)
  = Some (Ok [{| EventBridge.name := "test-rule";
                 EventBridge.arn := "arn:test-rule";
                 EventBridge.current_tags := ∅;
                 EventBridge.tagging_supported := None |}])
  ∧ EBScenarios.returned
      (EventBridge.list_rules_by_pattern EBScenarios.second_page_fails ["test"]
         EBScenarios.state0)
    = Some (Ok [])
  ∧ EBScenarios.returned
      (EventBridge.list_rules_by_pattern EBScenarios.second_page_fails ["test"]
         EBScenarios.state0)
    ≠ EBScenarios.returned
        (EventBridge.walk_pages EBScenarios.second_page_fails ["test"]
           [Ok (Some [EBScenarios.rule "test-rule"])] [] EBScenarios.state0)
  ∧ EBScenarios.printed
      (EventBridge.tag_rules 5 EBScenarios.second_page_fails ["test"]
         EBScenarios.the_tags EBScenarios.state0)
    = Some [EventBridge.LTagging;
            EventBridge.LErrorListing (ClientError "InternalException");
            EventBridge.LNoMatch].
Proof. by vm_compute. Qed.

(** C7, amended.  If fetching a page fails with a [ClientError] or a
    [BotoCoreError] after the earlier pages were walked, then
    [list_rules_by_pattern] prints the listing error and returns the empty
    list, whatever the walk had collected, without a call of [tag_resource];
    [tag_rules] then prints "No Match" and returns, the remote tags
    unchanged. *)
Theorem listing_failure_returns_no_rules
    (fuel : nat) (R : EventBridge.Remote) (pats : list string)
    (tags : gmap string string)
    (good : list (option (list EventBridge.Rule))) (e : exn)
    (rest : list (result (option (list EventBridge.Rule))))
    (st : EventBridge.State) :
  EventBridge.pages R = (Ok <$> good) ++ Raise e :: rest →
  (∃ code, e = ClientError code) ∨ (∃ msg, e = BotoCoreError msg) →
  (∀ a e', EventBridge.list_tags_for_resource R a = Raise e' →
           ∃ code, e' = ClientError code) →
  ∃ collected st1 st2 st3,
    EventBridge.walk_pages R pats (Ok <$> good) [] st = Some (st1, Ok collected)
    ∧ EventBridge.list_rules_by_pattern R pats st = Some (st2, Ok [])
    ∧ last (EventBridge.trace st2)
      = Some (EventBridge.Print (EventBridge.LErrorListing e))
    ∧ EventBridge.tag_calls st2 = EventBridge.tag_calls st
    ∧ EventBridge.tag_rules fuel R pats tags st = Some (st3, Ok ())
    ∧ last (EventBridge.trace st3) = Some (EventBridge.Print EventBridge.LNoMatch)
    ∧ EventBridge.tag_calls st3 = EventBridge.tag_calls st
    ∧ EventBridge.remote_tags st3 = EventBridge.remote_tags st.
Proof.
  intros Hpages He Hc.
  set (st0 := {| EventBridge.remote_tags := EventBridge.remote_tags st;
                 EventBridge.trace := EventBridge.trace st
                                      ++ [EventBridge.Print EventBridge.LTagging] |}).
  destruct (list_rules_by_pattern_listing_fails R pats good e rest st Hpages He Hc)
    as (evs & collected & st1 & Hwalk & Hlist & Hs).
  destruct (list_rules_by_pattern_listing_fails R pats good e rest st0 Hpages He Hc)
    as (evs0 & _ & _ & _ & Hlist0 & Hs0).
  eexists collected, st1, _, _. split; [exact Hwalk|]. split; [exact Hlist|].
  split; [|split; [|split; [|split; [|split]]]].
  - simpl. by rewrite !app_assoc, last_snoc.
  - rewrite tag_calls_app, filter_app. filter_simpl.
    rewrite app_nil_r. unfold EventBridgeFacts.silent in Hs.
    assert (filter EventBridge.is_tag_call evs = []) as ->; [|by rewrite app_nil_r].
    clear -Hs. induction Hs as [|x l Hx _ IH]; [done|].
    rewrite filter_cons_False; [done|]. rewrite Hx. tauto.
  - unfold EventBridge.tag_rules. unfold bind at 1.
    change (EventBridge.print EventBridge.LTagging st) with (Some (st0, Ok ())).
    unfold bind at 1. rewrite Hlist0. simpl. reflexivity.
  - simpl. by rewrite !app_assoc, last_snoc.
  - simpl. rewrite <- !app_assoc. rewrite tag_calls_app, !filter_app. filter_simpl.
    assert (filter EventBridge.is_tag_call evs0 = []) as ->; [|by rewrite !app_nil_r].
    clear -Hs0. induction Hs0 as [|x l Hx _ IH]; [done|].
    rewrite filter_cons_False; [done|]. rewrite Hx. tauto.
  - done.
Qed.

(** One page with a matching rule, then a failing page. *)
Lemma listing_failure_returns_no_rules_witness :
  ∃ st2, EventBridge.list_rules_by_pattern EBScenarios.second_page_fails ["test"]
           EBScenarios.state0 = Some (st2, Ok [])
         ∧ EventBridge.tag_calls st2 = [].
Proof.
  destruct (listing_failure_returns_no_rules 5 EBScenarios.second_page_fails
              ["test"] EBScenarios.the_tags [Some [EBScenarios.rule "test-rule"]]
              (ClientError "InternalException") [] EBScenarios.state0)
    as (collected & st1 & st2 & st3 & _ & Hlist & _ & Hcalls & _).
  - reflexivity.
  - left. exists "InternalException". reflexivity.
  - intros a e' H. simpl in H. discriminate H.
  - exists st2. split; [exact Hlist|exact Hcalls].
Defined.

(** C8, counterexample.  Fetching the tags of the matching rule is denied:
    [list_rules_by_pattern] returns normally, with an entry for the rule that
    has an empty tag map and is marked as not supporting tags. *)
Lemma denied_tag_fetch_becomes_unsupported :
  EBScenarios.returned
    (EventBridge.list_rules_by_pattern EBScenarios.tags_denied ["test"]
       EBScenarios.state0)
  = Some (Ok [{| EventBridge.name := "test-rule";
                 EventBridge.arn := "arn:test-rule";
                 EventBridge.current_tags := ∅;
                 EventBridge.tagging_supported := Some false |}])
  ∧ EBScenarios.printed
      (EventBridge.list_rules_by_pattern EBScenarios.tags_denied ["test"]
         EBScenarios.state0)
    = Some [EventBridge.LCouldNotGetTags "test-rule"
              (ClientError "AccessDeniedException")]
  ∧ ∀ e, EBScenarios.returned
           (EventBridge.list_rules_by_pattern EBScenarios.tags_denied ["test"]
              EBScenarios.state0)
         ≠ Some (Raise e).
Proof. by vm_compute. Qed.

(** C8, amended.  [get_bucket_tags] returns the empty map for a bucket without
    tags: an empty tag set, no tag set, or the error code [NoSuchTagSet];
    every other exception of the fetch is raised to the caller unchanged, and
    the stored tags stay as they are.  In [list_rules_by_pattern], when every
    page is fetched: a [ClientError] of the tag fetch of a matching rule,
    whatever its code, is printed and turned into an entry with an empty tag
    map marked as not taggable, and the discovery goes on; the first tag fetch
    that fails with another exception ends the discovery: a [BotoCoreError]
    is printed and the empty list is returned, anything else is raised to the
    caller. *)
Theorem tag_fetch_errors (R : S3.Remote) (b : string) (st : S3.State) :
  (∃ st' r,
     S3New.get_bucket_tags R b st = Some (st', r)
     ∧ S3.tagging st' = S3.tagging st
     ∧ (S3.get_fault R b = None →
        S3.tagging st !! b = None ∨ S3.tagging st !! b = Some [] → r = Ok ∅)
     ∧ (S3.get_fault R b = Some (ClientError "NoSuchTagSet") → r = Ok ∅)
     ∧ (∀ e, S3.get_fault R b = Some e → e ≠ ClientError "NoSuchTagSet" →
             r = Raise e))
  ∧ ∀ (R' : EventBridge.Remote) pats good st0,
      EventBridge.pages R' = Ok <$> good →
      ((∀ rule e,
          rule ∈ EventBridgeMore.listed good →
          EventBridge.matches (EventBridge.Name rule) pats = true →
          EventBridge.list_tags_for_resource R' (EventBridge.Arn rule) = Raise e →
          ∃ code, e = ClientError code) →
       ∃ st1 rules,
         EventBridge.list_rules_by_pattern R' pats st0 = Some (st1, Ok rules)
         ∧ ∀ rule code,
             rule ∈ EventBridgeMore.listed good →
             EventBridge.matches (EventBridge.Name rule) pats = true →
             EventBridge.list_tags_for_resource R' (EventBridge.Arn rule)
             = Raise (ClientError code) →
             EventBridgeFacts.unsupported_entry rule ∈ rules
             ∧ EventBridge.Print
                 (if decide (code = "UnsupportedOperation")
                  then EventBridge.LTagingNotSupported (EventBridge.Name rule)
                  else EventBridge.LCouldNotGetTags (EventBridge.Name rule)
                         (ClientError code))
               ∈ EventBridgeFacts.new_events st0 st1)
      ∧ (∀ before rule after e,
           EventBridgeMore.listed good = before ++ rule :: after →
           (∀ rule' e',
              rule' ∈ before →
              EventBridge.matches (EventBridge.Name rule') pats = true →
              EventBridge.list_tags_for_resource R' (EventBridge.Arn rule') = Raise e' →
              ∃ code, e' = ClientError code) →
           EventBridge.matches (EventBridge.Name rule) pats = true →
           EventBridge.list_tags_for_resource R' (EventBridge.Arn rule) = Raise e →
           (∀ code, e ≠ ClientError code) →
           ∃ st1,
             EventBridge.list_rules_by_pattern R' pats st0
             = Some (st1, match e with
                          | BotoCoreError _ => Ok []
                          | _ => Raise e
                          end)
             ∧ EventBridge.remote_tags st1 = EventBridge.remote_tags st0
             ∧ (∀ msg, e = BotoCoreError msg →
                       last (EventBridge.trace st1)
                       = Some (EventBridge.Print (EventBridge.LErrorListing e)))).
Proof.
  split.
  - destruct (get_bucket_tags_run R b st) as (evs & Hnew & _).
    eexists _, _. split; [exact Hnew|].
    split; [done|]. unfold S3Facts.fetch. repeat split.
    + intros -> [->| ->]; done.
    + intros ->. by rewrite decide_True.
    + intros e -> Hne. destruct e as [code| | | | | |]; try done.
      rewrite decide_False; [done|]. congruence.
  - intros R' pats good st0 Hpages. split.
    + intros Hc.
      destruct (visit_rules_client R' pats (EventBridgeMore.listed good) [] st0 Hc)
        as (evs & rules & Hrun & _ & _ & Hfail).
      unfold EventBridge.list_rules_by_pattern, try_except.
      rewrite Hpages, walk_pages_flat.
      unfold EventBridgeMore.listed in Hrun. rewrite Hrun.
      eexists _, rules. split; [done|].
      intros rule code Hin Hm Hraise.
      destruct (Hfail rule code Hin Hm Hraise) as [Hentry Hprint].
      split; [done|].
      unfold EventBridgeFacts.new_events. cbn [EventBridge.trace].
      by rewrite drop_app_length.
    + intros before rule after e Hlisted Hc Hm Hraise Hne.
      destruct (visit_rules_until_failure R' pats before after rule e [] st0
                  Hc Hm Hraise Hne) as (evs & Hrun & _).
      unfold EventBridge.list_rules_by_pattern, try_except.
      rewrite Hpages, walk_pages_flat.
      unfold EventBridgeMore.listed in Hlisted. rewrite Hlisted, Hrun.
      destruct e as [code| | | | | |]; try (by destruct (Hne code));
        eb_unfold; (eexists; split; [reflexivity|]); (split; [done|]);
        intros msg' Hmsg; try discriminate Hmsg.
      cbn [EventBridge.trace]. by rewrite last_snoc.
Qed.

(** A denied tag fetch gives the entry marked as not taggable; a tag fetch
    that times out gives the empty list. *)
Lemma tag_fetch_errors_witness :
  (∃ st1 rules,
     EventBridge.list_rules_by_pattern EBScenarios.tags_denied ["test"]
       EBScenarios.state0 = Some (st1, Ok rules)
     ∧ EventBridgeFacts.unsupported_entry (EBScenarios.rule "test-rule") ∈ rules)
  ∧ ∃ st1,
      EventBridge.list_rules_by_pattern EBScenarios.tags_time_out ["test"]
        EBScenarios.state0 = Some (st1, Ok []).
Proof.
  destruct (tag_fetch_errors (Scenarios.s3_remote [] Scenarios.no_fault Scenarios.no_fault)
              "bucket" (Scenarios.s3_state ∅)) as [_ Heb].
  split.
  - destruct (Heb EBScenarios.tags_denied ["test"] [Some [EBScenarios.rule "test-rule"]]
                EBScenarios.state0 eq_refl) as [Hclient _].
    destruct Hclient as (st1 & rules & Hrun & Hall).
    + intros rule e _ _ H. simpl in H. injection H as <-. eauto.
    + exists st1, rules. split; [exact Hrun|].
      apply (Hall (EBScenarios.rule "test-rule") "AccessDeniedException").
      * apply list_elem_of_here.
      * vm_compute. reflexivity.
      * reflexivity.
  - destruct (Heb EBScenarios.tags_time_out ["test"] [Some [EBScenarios.rule "test-rule"]]
                EBScenarios.state0 eq_refl) as [_ Hother].
    destruct (Hother [] (EBScenarios.rule "test-rule") []
                (BotoCoreError "ReadTimeoutError")) as (st1 & Hrun & _).
    + reflexivity.
    + intros rule' e' Hin. by apply elem_of_nil in Hin.
    + vm_compute. reflexivity.
    + reflexivity.
    + intros code. discriminate.
    + exists st1. exact Hrun.
Defined.

(** C9, counterexample.  A dry run of the apply on a bucket whose tags
    cannot be fetched returns [False]; it makes the fetch call only. *)
Lemma dry_run_reports_fetch_failure :
  Scenarios.returned Scenarios.dry_run_denied = Some (Ok false)
  ∧ Scenarios.returned Scenarios.dry_run_denied ≠ Some (Ok true)
  ∧ Scenarios.calls_made Scenarios.dry_run_denied
    = Some [S3.Call (S3.GetBucketTagging "r2")].
Proof. by vm_compute. Qed.

(** C9, amended.  With dry run enabled, [apply_tags_to_bucket] and
    [remove_tags_from_bucket] make no mutating call and leave the stored tags
    as they are, for every bucket and tag set; they return [True] whenever
    the tags of the bucket can be fetched, and [False] when the fetch fails
    with a [ClientError].  Two dry runs of [tag_all_bucket] in a row give the
    same result, with the stored tags unchanged and no mutating call. *)
Theorem dry_run_leaves_tags_alone
    (R : S3.Remote) (b : string) (tags : gmap string string) (merge : bool)
    (tag_keys : list string) (bf : option string) (st : S3.State) :
  (∃ st' r,
     S3New.apply_tags_to_bucket R b tags merge true st = Some (st', r)
     ∧ S3.tagging st' = S3.tagging st
     ∧ Forall (λ e, S3.is_mutating e = false) (S3Facts.new_events st st')
     ∧ (¬ S3Facts.fetch_fails R b → r = Ok true)
     ∧ (∀ code, S3.get_fault R b = Some (ClientError code) →
                code ≠ "NoSuchTagSet" → r = Ok false))
  ∧ (∃ st' r,
       S3New.remove_tags_from_bucket R b tag_keys true st = Some (st', r)
       ∧ S3.tagging st' = S3.tagging st
       ∧ Forall (λ e, S3.is_mutating e = false) (S3Facts.new_events st st')
       ∧ (¬ S3Facts.fetch_fails R b → r = Ok true)
       ∧ (∀ code, S3.get_fault R b = Some (ClientError code) →
                  code ≠ "NoSuchTagSet" → r = Ok false))
  ∧ (∃ st1 st2 r,
       S3New.tag_all_bucket R tags merge true bf st = Some (st1, r)
       ∧ S3New.tag_all_bucket R tags merge true bf st1 = Some (st2, r)
       ∧ S3.tagging st1 = S3.tagging st
       ∧ S3.tagging st2 = S3.tagging st
       ∧ Forall (λ e, S3.is_mutating e = false) (S3Facts.new_events st st2)).
Proof.
  split; [|split].
  - destruct (apply_tags_to_bucket_run R b tags merge true st)
      as (evs & Hrun & Hev & _).
    eexists _, _. split; [exact Hrun|]. split.
    { simpl. unfold S3Facts.apply_tagging. by repeat case_match. }
    split.
    { rewrite new_events_app. eapply Forall_impl; [exact Hev|].
      intros e [_ Hm]. destruct (S3.is_mutating e); [|done].
      by destruct (Hm eq_refl). }
    apply dry_outcome.
  - destruct (remove_tags_dry_run R b tag_keys st) as (evs & Hrun & Hq).
    eexists _, _. split; [exact Hrun|]. split; [done|]. split.
    { rewrite new_events_app. eapply Forall_impl; [exact Hq|]. by intros e []. }
    assert (S3Facts.apply_outcome R b true
            = match S3Facts.fetch R (S3.tagging st) b with
              | Ok _ => Ok true
              | Raise (ClientError _) => Ok false
              | Raise e => Raise e
              end) as <- by apply apply_outcome_fetch.
    apply dry_outcome.
  - destruct (tag_all_bucket_run R tags merge true bf st)
      as (evs1 & tg1 & Hrun1 & _ & Hdry1 & _).
    destruct (Hdry1 eq_refl) as [-> Hq1].
    destruct (tag_all_bucket_run R tags merge true bf
                {| S3.tagging := S3.tagging st; S3.trace := S3.trace st ++ evs1 |})
      as (evs2 & tg2 & Hrun2 & _ & Hdry2 & _).
    destruct (Hdry2 eq_refl) as [-> Hq2]. simpl in *.
    eexists _, _, _. split; [exact Hrun1|]. split; [exact Hrun2|].
    split; [done|]. split; [done|].
    rewrite <- app_assoc, new_events_app. by apply Forall_app.
Qed.

(** The dry run on the bucket whose fetch is denied returns [False] and
    stores nothing. *)
Lemma dry_run_leaves_tags_alone_witness :
  ∃ st', Scenarios.dry_run_denied = Some (st', Ok false)
         ∧ S3.tagging st' = ∅.
Proof.
  destruct (dry_run_leaves_tags_alone
              (Scenarios.s3_remote [Scenarios.bucket "r2"]
                 (Scenarios.fault_on "r2" (ClientError "AccessDenied"))
                 Scenarios.no_fault)
              "r2" {[ "Env" := "dev" ]} true [] None (Scenarios.s3_state ∅))
    as [(st' & r & Hrun & Htg & _ & _ & Hfalse) _].
  exists st'. rewrite (Hfalse "AccessDenied") in Hrun.
  - split; [exact Hrun|exact Htg].
  - reflexivity.
  - discriminate.
Defined.

(** C10.  Whenever [tag_all_bucket] returns a mapping, the run was: the
    listing, then one [apply_tags_to_bucket] per listed bucket whose name
    contains the filter as a substring (per listed bucket without a filter),
    in listing order and each from the state the one before it left, with the
    value each returned recorded under the name of its bucket, then the
    summary line.  So the mapping has an entry exactly for the names of these
    buckets, each of them was fetched, no tagging call was made on any other
    bucket, and the success count of the summary line is the number of [True]
    entries of the mapping.  It does return a mapping when the listing
    succeeds and the faults of the tagging calls are [ClientError]s. *)
Theorem tag_all_bucket_results
    (R : S3.Remote) (tags : gmap string string) (merge dry : bool)
    (bf : option string) (st : S3.State) :
  (∀ st' results,
     S3New.tag_all_bucket R tags merge dry bf st = Some (st', Ok results) →
     ∃ response,
       S3.list_buckets_answer R = Ok response
       ∧ (∀ n, is_Some (results !! n) ↔
               ∃ bucket, bucket ∈ default [] response ∧ S3.Name bucket = n
                 ∧ match bf with
                   | Some f => Py.contains f n = true
                   | None => True
                   end)
       ∧ (∃ st1 st2 outcomes,
            S3.tagging st1 = S3.tagging st
            ∧ Forall (λ e, S3.call_bucket e = None) (S3Facts.new_events st st1)
            ∧ S3Facts.apply_each R tags merge dry
                (S3Facts.filtered_buckets bf response) st1
              = Some (st2, outcomes)
            ∧ outcomes.*1 = S3.Name <$> S3Facts.filtered_buckets bf response
            ∧ results = S3Facts.record_outcomes ∅ outcomes
            ∧ S3.tagging st' = S3.tagging st2
            ∧ S3.trace st'
              = S3.trace st2
                ++ [S3.Info (S3.ActivityCompleted (S3Facts.true_entries results)
                               (size results))])
       ∧ (∀ n, is_Some (results !! n) →
               S3.Call (S3.GetBucketTagging n) ∈ S3Facts.new_events st st')
       ∧ (∀ e n, e ∈ S3Facts.new_events st st' → S3.call_bucket e = Some n →
                 is_Some (results !! n))
       ∧ last (S3.trace st')
         = Some (S3.Info (S3.ActivityCompleted (S3Facts.true_entries results)
                            (size results))))
  ∧ (∀ response,
       S3.list_buckets_answer R = Ok response → S3Facts.client_errors_only R →
       ∃ st' results,
         S3New.tag_all_bucket R tags merge dry bf st = Some (st', Ok results)).
Proof.
  split.
  - intros st' results Hrun.
    destruct (tag_all_bucket_run R tags merge dry bf st)
      as (evs & tg & Hrun' & Hev & _ & Hlast).
    destruct (tag_all_bucket_steps R tags merge dry bf st st' results Hrun)
      as (response & evs0 & st2 & outcomes & Hans & Hev0 & Heach & Hnames
          & Hres' & Hst').
    rewrite Hrun' in Hrun. injection Hrun as Hst Hres.
    unfold S3Facts.run_result in Hres. rewrite Hans in Hres.
    exists response. split; [done|].
    pose proof (loop_result_entries R dry _ results Hres) as Hdom.
    destruct (apply_each_fetches R tags merge dry _ _ _ _ Heach)
      as (evs2 & Ht2 & Hfetch).
    cbn [S3.trace] in Ht2.
    split; [|split; [|split; [|split]]].
    + intros n. rewrite Hdom, list_elem_of_fmap. split.
      * intros (bucket & -> & Hin).
        apply elem_of_filtered_buckets in Hin as [Hin Hf]. eauto.
      * intros (bucket & Hin & <- & Hf). exists bucket. split; [done|].
        apply elem_of_filtered_buckets. eauto.
    + exists {| S3.tagging := S3.tagging st; S3.trace := S3.trace st ++ evs0 |},
        st2, outcomes.
      split; [done|]. split; [by rewrite new_events_app|].
      split; [done|]. split; [done|]. split; [done|].
      rewrite Hst'. cbn [S3.tagging S3.trace].
      by rewrite sum_values_true_entries.
    + intros n Hn. apply Hdom in Hn.
      rewrite Hst'. unfold S3Facts.new_events. cbn [S3.trace].
      rewrite Ht2, <- !app_assoc, drop_app_length.
      rewrite !elem_of_app. right. left. by apply Hfetch.
    + intros e n He Hn. rewrite <- Hst, new_events_app in He.
      rewrite Forall_forall in Hev.
      destruct (Hev e He n Hn) as (response' & Hr' & Hin).
      apply Hdom. congruence.
    + rewrite <- Hst. simpl. rewrite last_app, (Hlast results).
      * by rewrite sum_values_true_entries.
      * unfold S3Facts.run_result. by rewrite Hans.
  - intros response Hans Hc.
    by apply (tag_all_bucket_returns R tags merge dry bf st response).
Qed.

(** With the filter "2", only the bucket [r2] of [r1], [r2], [r3] has an
    entry. *)
Lemma tag_all_bucket_results_witness :
  ∃ st' results,
    S3New.tag_all_bucket Scenarios.second_denied {[ "Env" := "dev" ]} true false
      (Some "2") (Scenarios.s3_state ∅) = Some (st', Ok results)
    ∧ is_Some (results !! "r2")
    ∧ results !! "r1" = None.
Proof.
  destruct (tag_all_bucket_results Scenarios.second_denied {[ "Env" := "dev" ]}
              true false (Some "2") (Scenarios.s3_state ∅)) as [Hentries Hreturns].
  destruct (Hreturns (Some Scenarios.three_buckets)) as (st' & results & Hrun).
  - reflexivity.
  - intros b e. simpl. unfold Scenarios.fault_on, Scenarios.no_fault.
    intros [H|H]; [|discriminate H].
    destruct (decide (b = "r2")); [|discriminate H].
    exists "AccessDenied". congruence.
  - exists st', results. split; [exact Hrun|].
    destruct (Hentries st' results Hrun) as (response & Hans & Hdom & _).
    simpl in Hans. injection Hans as <-. split.
    + apply Hdom. exists (Scenarios.bucket "r2"). split; [|split; reflexivity].
      simpl. apply list_elem_of_further, list_elem_of_here.
    + apply eq_None_not_Some. intros Hsome.
      apply Hdom in Hsome as (bucket & _ & _ & Hcontains).
      vm_compute in Hcontains. discriminate Hcontains.
Defined.

(** * Further properties *)

(** ** Strings: substrings and blank values *)

Section py_strings.
Import PyFacts.

Lemma str_app_nil (s : string) : "" +:+ s = s.
Proof. reflexivity. Qed.

Lemma str_app_cons c (s1 s2 : string) : String c s1 +:+ s2 = String c (s1 +:+ s2).
Proof. reflexivity. Qed.

Lemma prefix_iff (p s : string) :
  String.prefix p s = true ↔ ∃ post, s = p +:+ post.
Proof.
  revert s. induction p as [|a p IH]; intros s.
  - split; [|by destruct s]. intros _. exists s. by rewrite str_app_nil.
  - destruct s as [|b s].
    + split; [done|]. intros [post H]. rewrite str_app_cons in H. done.
    + simpl. destruct (Ascii.ascii_dec a b) as [->|Hne].
      * rewrite IH. split.
        -- intros [post ->]. exists post. by rewrite str_app_cons.
        -- intros [post H]. rewrite str_app_cons in H. injection H as ->. eauto.
      * split; [done|]. intros [post H]. rewrite str_app_cons in H. congruence.
Qed.

Lemma contains_iff (p s : string) :
  Py.contains p s = true ↔ substring_of p s.
Proof.
  unfold substring_of. induction s as [|c s IH].
  - cbn [Py.contains]. rewrite orb_false_r, prefix_iff. split.
    + intros [post H]. exists "", post. by rewrite str_app_nil.
    + intros (pre & post & H). destruct pre; [|by rewrite str_app_cons in H].
      rewrite str_app_nil in H. eauto.
  - cbn [Py.contains]. rewrite orb_true_iff, prefix_iff, IH. split.
    + intros [[post H]|(pre & post & H)].
      * exists "", post. by rewrite str_app_nil.
      * exists (String c pre), post. by rewrite str_app_cons, H.
    + intros (pre & post & H). destruct pre as [|c' pre].
      * left. rewrite str_app_nil in H. eauto.
      * right. rewrite str_app_cons in H. injection H as -> ->. eauto.
Qed.

Lemma lstrip_empty (s : string) : Py.lstrip s = "" ↔ all_space s = true.
Proof.
  induction s as [|c s IH]; [done|]. simpl.
  destruct (Py.isspace c); [done|]. simpl. split; discriminate.
Qed.

Lemma lstrip_head (s : string) :
  Py.lstrip s = "" ∨ ∃ c t, Py.lstrip s = String c t ∧ Py.isspace c = false.
Proof.
  induction s as [|c s IH]; [by left|]. simpl.
  destruct (Py.isspace c) eqn:Hc; [done|]. right. eauto.
Qed.

Lemma rev_app_all_space (s1 s2 : string) :
  all_space (String.rev_app s1 s2) = all_space s1 && all_space s2.
Proof.
  revert s2. induction s1 as [|c s1 IH]; intros s2; [done|].
  simpl. rewrite IH. simpl. by destruct (Py.isspace c), (all_space s1).
Qed.

Lemma rev_app_empty (s1 s2 : string) :
  String.rev_app s1 s2 = "" → s1 = "" ∧ s2 = "".
Proof.
  revert s2. induction s1 as [|c s1 IH]; intros s2; [done|].
  simpl. intros H. by destruct (IH _ H).
Qed.

Lemma strip_empty (s : string) : Py.strip s = "" ↔ all_space s = true.
Proof.
  unfold Py.strip, Py.rstrip, String.rev. split.
  - intros H. apply rev_app_empty in H as [H _].
    apply lstrip_empty in H. rewrite rev_app_all_space, andb_true_r in H.
    destruct (lstrip_head s) as [Hs|(c & t & Hs & Hc)].
    + by apply lstrip_empty.
    + rewrite Hs in H. simpl in H. by rewrite Hc in H.
  - intros H. apply lstrip_empty in H. by rewrite H.
Qed.

Lemma blank_iff (v : string) : S3Facts.blank v ↔ all_space v = true.
Proof.
  unfold S3Facts.blank. rewrite <- strip_empty.
  destruct (Py.strip v); simpl; split; congruence.
Qed.

End py_strings.

(** X1.  A rule name matches a list of patterns exactly when one of the
    patterns occurs in it as a contiguous part (case-sensitive, no wildcard);
    a bucket passes a filter exactly when the filter occurs in its name, and
    every bucket passes when there is no filter. *)
Theorem matching_is_substring_containment
    (rule_name : string) (name_patterns : list string)
    (bucket_filter : string) (bucket : S3.Bucket) :
  (EventBridge.matches rule_name name_patterns = true ↔
   ∃ pattern, pattern ∈ name_patterns ∧ PyFacts.substring_of pattern rule_name)
  ∧ (S3New.passes_filter (Some bucket_filter) bucket = true ↔
     PyFacts.substring_of bucket_filter (S3.Name bucket))
  ∧ S3New.passes_filter None bucket = true.
Proof.
  split; [|split; [|done]].
  - unfold EventBridge.matches. rewrite existsb_exists. split.
    + intros (pattern & Hin & Hc). exists pattern.
      split; [by apply list_elem_of_In|by apply contains_iff].
    + intros (pattern & Hin & Hc). exists pattern.
      split; [by apply list_elem_of_In|by apply contains_iff].
  - rewrite passes_filter_contains. apply contains_iff.
Qed.

(** X2.  The filter of [apply_tags_to_bucket] keeps a desired tag exactly
    when its value has a character that is not white space: a value made of
    white space only, the empty one included, is dropped. *)
Theorem filter_keeps_values_with_a_visible_character
    (tags : gmap string string) (k v : string) :
  (S3New.filter_tags tags !! k = Some v ↔
   tags !! k = Some v ∧ PyFacts.all_space v = false)
  ∧ (Py.strip v = "" ↔ PyFacts.all_space v = true).
Proof.
  split; [|apply strip_empty].
  rewrite filter_tags_lookup. destruct (tags !! k) as [w|]; [|naive_solver].
  destruct (Py.truthy (Py.strip w)) eqn:Hw.
  - split.
    + intros [= ->]. split; [done|].
      destruct (PyFacts.all_space v) eqn:Hs; [|done].
      apply blank_iff in Hs. unfold S3Facts.blank in Hs. congruence.
    + by intros [[= ->] _].
  - split; [done|]. intros [[= ->] Hs].
    assert (PyFacts.all_space v = true) by by apply blank_iff. congruence.
Qed.

(** ** More on the diff *)

Section more_diff.
Import EventBridge EventBridgeMore.
Implicit Types (current desired m : gmap string string).

Lemma tag_diff_nil current desired :
  tag_diff current desired = [] ↔ current = desired.
Proof.
  split.
  - intros H. rewrite <- (apply_tag_diff current desired), H. done.
  - intros ->. apply tag_diff_same.
Qed.

Lemma classify_mirror current desired k :
  classify desired current k = mirror <$> classify current desired k.
Proof.
  unfold classify.
  destruct (current !! k) as [cv|], (desired !! k) as [nv|];
    repeat case_decide; simpl; try done; congruence.
Qed.

Lemma tag_diff_mirror current desired :
  tag_diff desired current = mirror <$> tag_diff current desired.
Proof.
  unfold tag_diff, all_keys.
  rewrite (comm_L (∪) (dom desired) (dom current)).
  induction (Py.sorted (elements (dom current ∪ dom desired))) as [|k ks IH];
    [done|].
  csimpl. rewrite classify_mirror, IH.
  by destruct (classify current desired k).
Qed.

End more_diff.

(** X3.  [show_tag_diff] prints "No changes required" exactly when the two
    tag maps are equal (and tagging is supported); for a rule that does not
    support tagging it prints "Not supported" whatever the maps are. *)
Theorem no_changes_exactly_for_equal_maps
    (rule_name : string) (current desired : gmap string string) :
  (EventBridge.tag_diff current desired = [] ↔ current = desired)
  ∧ (EventBridge.LNoChangesRequired
       ∈ EventBridge.show_tag_diff rule_name current desired true ↔
     current = desired)
  ∧ EventBridge.show_tag_diff rule_name current desired false
    = [EventBridge.LHeader rule_name; EventBridge.LNotSupported].
Proof.
  split; [apply tag_diff_nil|]. split; [|done].
  rewrite <- tag_diff_nil. unfold EventBridge.show_tag_diff. cbn [negb].
  destruct (EventBridge.tag_diff current desired) as [|c cs] eqn:Hd.
  - rewrite bool_decide_eq_false_2 by (intros H; by apply H).
    split; [done|]. intros _. cbn [negb]. rewrite fmap_nil, app_nil_l.
    apply list_elem_of_further, list_elem_of_here.
  - split; [|done]. rewrite bool_decide_eq_true_2 by done. cbn [negb].
    rewrite app_nil_r, elem_of_cons, list_elem_of_fmap.
    intros [H|(x & H & _)]; discriminate.
Qed.

Section display.
Import EventBridge EventBridgeFacts EventBridgeMore.
Implicit Types (R : Remote) (st : State) (pats : list string).

Lemma visit_rule_no_diff R pats m rule st :
  ∃ evs r,
    visit_rule R pats m rule st
    = Some ({| remote_tags := remote_tags st; trace := trace st ++ evs |}, r)
    ∧ Forall (λ e, is_diff_line e = false) evs.
Proof.
  unfold visit_rule. destruct (matches (Name rule) pats).
  2:{ exists [], (Ok m). unfold ret. rewrite app_nil_r. by destruct st. }
  eb_unfold.
  destruct (list_tags_for_resource R (Arn rule)) as [tag_response|[code| | | | | |]];
    eb_unfold; try case_decide; eb_unfold; rewrite <- ?app_assoc; simpl;
    (eexists _, _; split; [reflexivity|]); repeat constructor.
Qed.

Lemma visit_rules_no_diff R pats (rules : list Rule) : ∀ m st,
  ∃ evs r,
    for_fold rules m (visit_rule R pats) st
    = Some ({| remote_tags := remote_tags st; trace := trace st ++ evs |}, r)
    ∧ Forall (λ e, is_diff_line e = false) evs.
Proof.
  induction rules as [|rule rules IH]; intros m st.
  { exists [], (Ok m). simpl. unfold ret. rewrite app_nil_r. by destruct st. }
  destruct (visit_rule_no_diff R pats m rule st) as (evs1 & r1 & Hrun & Hs1).
  simpl. unfold bind at 1. rewrite Hrun.
  destruct r1 as [m1|e].
  - destruct (IH m1 {| remote_tags := remote_tags st; trace := trace st ++ evs1 |})
      as (evs2 & r & Hrest & Hs2).
    rewrite Hrest. simpl. rewrite <- app_assoc.
    eexists _, r. split; [reflexivity|]. by apply Forall_app.
  - eexists evs1, _. split; [reflexivity|done].
Qed.

Lemma walk_pages_no_diff R pats ps : ∀ m st,
  ∃ evs r,
    walk_pages R pats ps m st
    = Some ({| remote_tags := remote_tags st; trace := trace st ++ evs |}, r)
    ∧ Forall (λ e, is_diff_line e = false) evs.
Proof.
  induction ps as [|[page|e] ps IH]; intros m st.
  - exists [], (Ok m). simpl. unfold ret. rewrite app_nil_r. by destruct st.
  - destruct (visit_rules_no_diff R pats (default [] page) m st)
      as (evs1 & r1 & Hrun & Hs1).
    simpl. unfold bind at 1. rewrite Hrun. destruct r1 as [m1|e].
    + destruct (IH m1 {| remote_tags := remote_tags st; trace := trace st ++ evs1 |})
        as (evs2 & r & Hrest & Hs2).
      rewrite Hrest. simpl. rewrite <- app_assoc.
      eexists _, r. split; [reflexivity|]. by apply Forall_app.
    + eexists evs1, _. split; [reflexivity|done].
  - exists [], (Raise e). simpl. unfold raise. rewrite app_nil_r. by destruct st.
Qed.

(** The discovery prints no line of a diff. *)
Lemma list_rules_by_pattern_no_diff R pats st :
  ∃ evs r,
    list_rules_by_pattern R pats st
    = Some ({| remote_tags := remote_tags st; trace := trace st ++ evs |}, r)
    ∧ Forall (λ e, is_diff_line e = false) evs.
Proof.
  unfold list_rules_by_pattern, try_except.
  destruct (walk_pages_no_diff R pats (pages R) [] st) as (evs & r & Hwalk & Hs).
  rewrite Hwalk. destruct r as [m|e].
  - eexists evs, _. split; [reflexivity|done].
  - destruct e; eb_unfold; rewrite <- ?app_assoc;
      (eexists _, _; split; [reflexivity|]);
      try done; (apply Forall_app; split; [done|]); repeat constructor.
Qed.

(** The display loop of [tag_rules] prints the diff of each rule in turn. *)
Lemma show_diffs_exact (tags : gmap string string) (rules : list MatchedRule) :
  ∀ st,
    for_each rules (λ rule,
      let current_tags := current_tags rule in
      let merged_tags := Py.dict_merge current_tags tags in
      let tagging_supported := get_tagging_supported rule in
      for_each (show_tag_diff (name rule) current_tags merged_tags tagging_supported)
               print) st
    = Some ({| remote_tags := remote_tags st;
               trace := trace st ++ (Print <$> concat (displayed tags <$> rules)) |},
            Ok ()).
Proof.
  induction rules as [|rule rules IH]; intros st.
  - simpl. unfold ret. rewrite app_nil_r. by destruct st.
  - cbn [for_each]. unfold bind at 1. cbv zeta. rewrite print_lines_run.
    cbv zeta in IH. rewrite IH. cbn [remote_tags trace].
    rewrite fmap_cons. cbn [concat]. rewrite fmap_app, <- app_assoc. done.
Qed.

(** What [tag_rules] prints once the rules are discovered. *)
Lemma tag_rules_display fuel R pats tags st st1 rules :
  list_rules_by_pattern R pats
    {| remote_tags := remote_tags st; trace := trace st ++ [Print LTagging] |}
  = Some (st1, Ok rules) →
  rules ≠ [] →
  let taggable := filter (λ rule, get_tagging_supported rule) rules in
  ∃ post,
    tag_rules fuel R pats tags st
    = Some ({| remote_tags := remote_tags st1;
               trace := trace st1
                 ++ (Print <$> ([LFound (length rules); LTaggable (length taggable);
                                 LNot (length rules - length taggable)]
                                ++ concat (displayed tags <$> rules)))
                 ++ post |},
            (gate_outcome R taggable).2)
    ∧ Forall (λ e, is_diff_line e = false) post.
Proof.
  intros Hlist Hrules taggable. unfold tag_rules. unfold bind at 1.
  change (print LTagging st)
    with (Some ({| remote_tags := remote_tags st;
                   trace := trace st ++ [Print LTagging] |}, Ok ())).
  unfold bind at 1. rewrite Hlist. unfold gate_outcome.
  rewrite bool_decide_eq_false_2 by done.
  cbv zeta. fold taggable.
  do 3 (unfold bind at 1; unfold print at 1; unfold emit at 1).
  unfold bind at 1. rewrite show_diffs_exact. simpl.
  case_bool_decide as Htag.
  { exists [Print LNoTaggable].
    eb_unfold. rewrite ?fmap_app, <- ?app_assoc. simpl.
    split; [done|]. repeat constructor. }
  eb_unfold. repeat case_bool_decide; try contradiction; eb_unfold;
    rewrite ?fmap_app, <- ?app_assoc; simpl;
    first [ eexists; split; [reflexivity|]; by repeat constructor
          | exists []; rewrite app_nil_r; split; [reflexivity|constructor] ].
Qed.

End display.

Section display_facts.
Import EventBridge EventBridgeFacts EventBridgeMore.

Lemma filter_none {A} (f : A → bool) (l : list A) :
  Forall (λ x, f x = false) l → filter f l = [].
Proof.
  induction 1 as [|x l Hx _ IH]; [done|].
  rewrite filter_cons_False; [done|]. rewrite Hx. auto.
Qed.

Lemma filter_all {A} (f : A → bool) (l : list A) :
  Forall (λ x, f x = true) l → filter f l = l.
Proof.
  induction 1 as [|x l Hx _ IH]; [done|].
  rewrite filter_cons_True; [by rewrite IH|]. by rewrite Hx.
Qed.

Lemma displayed_diff_lines tags (rules : list MatchedRule) :
  Forall (λ e, is_diff_line e = true) (Print <$> concat (displayed tags <$> rules)).
Proof.
  apply Forall_fmap, Forall_concat, Forall_fmap, Forall_true. intros rule.
  unfold displayed, show_tag_diff. apply Forall_cons_2; [done|].
  destruct (negb (get_tagging_supported rule)); [by repeat constructor|].
  apply Forall_app. split.
  - by apply Forall_fmap, Forall_true.
  - destruct (negb _); by repeat constructor.
Qed.

Lemma elem_of_displayed tags (rule : MatchedRule) c :
  LChange c ∈ displayed tags rule ↔
  get_tagging_supported rule = true
  ∧ c ∈ tag_diff (current_tags rule) (Py.dict_merge (current_tags rule) tags).
Proof.
  unfold displayed, show_tag_diff.
  destruct (get_tagging_supported rule); cbn [negb].
  - rewrite elem_of_cons, elem_of_app, list_elem_of_fmap. split.
    + intros [H|[(c' & [= ->] & Hc)|H]]; [discriminate H|done|].
      destruct (negb _); [|by apply elem_of_nil in H].
      apply list_elem_of_singleton in H. discriminate H.
    + intros [_ Hc]. right. left. eauto.
  - split; [|by intros [? _]].
    rewrite !elem_of_cons. intros [H|[H|H]]; try discriminate H.
    by apply elem_of_nil in H.
Qed.

End display_facts.

(** X4.  The lines of a diff that a run of [tag_rules] prints are, in this
    order, those of [show_tag_diff] for each discovered rule, between its
    current tags and their merge with the desired tags.  No printed line is a
    removal: for a taggable rule the diff has an addition exactly for each
    desired key the rule lacks and a change exactly for each desired key whose
    current value differs, and applying it to the current tags gives the
    merged tags. *)
Theorem displayed_diff_has_no_removal
    (depth : nat) (R : EventBridge.Remote) (pats : list string)
    (tags : gmap string string) (st : EventBridge.State) :
  ∃ st' r,
    EventBridge.tag_rules depth R pats tags st = Some (st', r)
    ∧ (∀ st1 rules,
         EventBridge.list_rules_by_pattern R pats
           {| EventBridge.remote_tags := EventBridge.remote_tags st;
              EventBridge.trace := EventBridge.trace st
                                   ++ [EventBridge.Print EventBridge.LTagging] |}
         = Some (st1, Ok rules) →
         filter EventBridgeMore.is_diff_line (EventBridgeFacts.new_events st st')
         = EventBridge.Print <$> concat (EventBridgeMore.displayed tags <$> rules))
    ∧ (∀ k v, EventBridge.Print (EventBridge.LChange (EventBridge.Remove k v))
              ∉ EventBridgeFacts.new_events st st')
    ∧ (∀ rule c,
        EventBridge.LChange c ∈ EventBridgeMore.displayed tags rule ↔
        EventBridge.get_tagging_supported rule = true
        ∧ match c with
          | EventBridge.Add k v =>
              EventBridge.current_tags rule !! k = None ∧ tags !! k = Some v
          | EventBridge.Remove _ _ => False
          | EventBridge.Change k o n =>
              EventBridge.current_tags rule !! k = Some o ∧ tags !! k = Some n
              ∧ o ≠ n
          end)
    ∧ ∀ current,
        EventBridge.apply_delta
          (EventBridge.tag_diff current (Py.dict_merge current tags)) current
        = Py.dict_merge current tags.
Proof.
  assert (∀ rule c,
            EventBridge.LChange c ∈ EventBridgeMore.displayed tags rule ↔
            EventBridge.get_tagging_supported rule = true
            ∧ match c with
              | EventBridge.Add k v =>
                  EventBridge.current_tags rule !! k = None ∧ tags !! k = Some v
              | EventBridge.Remove _ _ => False
              | EventBridge.Change k o n =>
                  EventBridge.current_tags rule !! k = Some o ∧ tags !! k = Some n
                  ∧ o ≠ n
              end) as Hlines.
  { intros rule c. rewrite elem_of_displayed, elem_of_tag_diff, classify_Some.
    destruct c as [k v|k v|k o n]; simpl; rewrite dict_merge_lookup;
      destruct (tags !! k) as [w|], (EventBridge.current_tags rule !! k) as [cv|];
      naive_solver. }
  destruct (list_rules_by_pattern_no_diff R pats
              {| EventBridge.remote_tags := EventBridge.remote_tags st;
                 EventBridge.trace := EventBridge.trace st
                                      ++ [EventBridge.Print EventBridge.LTagging] |})
    as (evs & r0 & Hlist & Hnd).
  assert (∃ st' r,
            EventBridge.tag_rules depth R pats tags st = Some (st', r)
            ∧ ∀ st1 rules,
                EventBridge.list_rules_by_pattern R pats
                  {| EventBridge.remote_tags := EventBridge.remote_tags st;
                     EventBridge.trace := EventBridge.trace st
                                          ++ [EventBridge.Print EventBridge.LTagging] |}
                = Some (st1, Ok rules) →
                filter EventBridgeMore.is_diff_line (EventBridgeFacts.new_events st st')
                = EventBridge.Print <$> concat (EventBridgeMore.displayed tags <$> rules))
    as (st' & r & Hrun & Hfilter).
  { destruct r0 as [rules|e].
    - destruct (decide (rules = [])) as [->|Hne].
      + eexists _, _. split.
        { unfold EventBridge.tag_rules. unfold bind at 1.
          change (EventBridge.print EventBridge.LTagging st)
            with (Some ({| EventBridge.remote_tags := EventBridge.remote_tags st;
                           EventBridge.trace := EventBridge.trace st
                             ++ [EventBridge.Print EventBridge.LTagging] |}, Ok ())).
          unfold bind at 1. rewrite Hlist.
          rewrite bool_decide_eq_true_2 by done. reflexivity. }
        intros st1 rules H. rewrite Hlist in H. injection H as <- <-.
        unfold EventBridgeFacts.new_events. cbn [EventBridge.trace].
        rewrite <- !app_assoc, drop_app_length, !filter_app, (filter_none _ evs Hnd).
        by filter_simpl.
      + destruct (tag_rules_display depth R pats tags st _ rules Hlist Hne)
          as (post & Hrun & Hpost).
        eexists _, _. split; [exact Hrun|].
        intros st1 rules' H. rewrite Hlist in H. injection H as <- <-.
        unfold EventBridgeFacts.new_events. cbn [EventBridge.trace].
        rewrite <- !app_assoc, drop_app_length, !filter_app, (filter_none _ evs Hnd).
        rewrite fmap_app, filter_app.
        rewrite (filter_all _ _ (displayed_diff_lines tags rules)).
        rewrite (filter_none _ post Hpost). cbn [fmap list_fmap].
        filter_simpl. by rewrite app_nil_r.
    - eexists _, _. split.
      { unfold EventBridge.tag_rules. unfold bind at 1.
        change (EventBridge.print EventBridge.LTagging st)
          with (Some ({| EventBridge.remote_tags := EventBridge.remote_tags st;
                         EventBridge.trace := EventBridge.trace st
                           ++ [EventBridge.Print EventBridge.LTagging] |}, Ok ())).
        unfold bind at 1. rewrite Hlist. reflexivity. }
      intros st1 rules H. rewrite Hlist in H. discriminate H. }
  exists st', r. split; [done|]. split; [done|].
  split; [|split; [done|intros current; apply apply_tag_diff]].
  intros k v Hin.
  assert (EventBridge.Print (EventBridge.LChange (EventBridge.Remove k v))
          ∈ filter EventBridgeMore.is_diff_line (EventBridgeFacts.new_events st st'))
    as Hin' by (apply list_elem_of_filter; split; [exact I|done]).
  destruct r0 as [rules|e].
  - rewrite (Hfilter _ rules Hlist) in Hin'.
    apply list_elem_of_fmap in Hin' as (l & [= <-] & Hl).
    assert (Forall (λ l, l ≠ EventBridge.LChange (EventBridge.Remove k v))
              (concat (EventBridgeMore.displayed tags <$> rules))) as Hall.
    { apply Forall_concat, Forall_fmap, Forall_true. intros rule.
      apply Forall_forall. intros l Hl' ->. by apply Hlines in Hl' as [_ []]. }
    rewrite Forall_forall in Hall. by apply (Hall _ Hl).
  - clear Hfilter Hin'. revert Hin.
    unfold EventBridge.tag_rules in Hrun. unfold bind at 1 in Hrun.
    change (EventBridge.print EventBridge.LTagging st)
      with (Some ({| EventBridge.remote_tags := EventBridge.remote_tags st;
                     EventBridge.trace := EventBridge.trace st
                       ++ [EventBridge.Print EventBridge.LTagging] |}, Ok ())) in Hrun.
    unfold bind at 1 in Hrun. rewrite Hlist in Hrun. injection Hrun as <- _.
    unfold EventBridgeFacts.new_events. cbn [EventBridge.trace].
    rewrite <- !app_assoc, drop_app_length. intros Hin.
    apply elem_of_cons in Hin as [Hin|Hin]; [discriminate Hin|].
    rewrite Forall_forall in Hnd. specialize (Hnd _ Hin). discriminate Hnd.
Qed.

(** X5.  Swapping the two arguments of the diff mirrors it: additions
    become removals and back, and a change swaps its old and new value; the
    keys and their order stay. *)
Theorem swapped_diff_is_mirrored (current desired : gmap string string) :
  EventBridge.tag_diff desired current
  = EventBridgeMore.mirror <$> EventBridge.tag_diff current desired.
Proof. apply tag_diff_mirror. Qed.

(** ** More on the EventBridge tagger *)

Section more_discovery.
Import EventBridge EventBridgeFacts EventBridgeMore.
Implicit Types (R : Remote) (st : State) (pats : list string).

Lemma visit_rule_exact R pats m rule st :
  only_client_errors R →
  ∃ evs,
    visit_rule R pats m rule st
    = Some ({| remote_tags := remote_tags st; trace := trace st ++ evs |},
            Ok (m ++ (discovered R <$> filter (λ r, matches (Name r) pats) [rule])))
    ∧ filter is_list_call evs
      = (CallListTags ∘ Arn) <$> filter (λ r, matches (Name r) pats) [rule].
Proof.
  intros Hc. unfold visit_rule, discovered, unsupported_entry.
  destruct (matches (Name rule) pats) eqn:Hm.
  2:{ exists []. rewrite filter_cons_False, filter_nil by (rewrite Hm; tauto).
      unfold ret. rewrite !app_nil_r. by destruct st. }
  rewrite filter_cons_True, filter_nil by (by rewrite Hm).
  eb_unfold.
  destruct (list_tags_for_resource R (Arn rule)) as [tag_response|e] eqn:Hl.
  - eb_unfold. rewrite <- !app_assoc. eexists. split; [reflexivity|].
    simpl. by filter_simpl.
  - destruct (Hc _ _ Hl) as [code ->]. eb_unfold.
    case_decide; eb_unfold; rewrite <- !app_assoc;
      (eexists; split; [reflexivity|]); simpl; by filter_simpl.
Qed.

Lemma visit_rules_exact R pats (rules : list Rule) : ∀ m st,
  only_client_errors R →
  ∃ evs,
    for_fold rules m (visit_rule R pats) st
    = Some ({| remote_tags := remote_tags st; trace := trace st ++ evs |},
            Ok (m ++ (discovered R <$> filter (λ r, matches (Name r) pats) rules)))
    ∧ filter is_list_call evs
      = (CallListTags ∘ Arn) <$> filter (λ r, matches (Name r) pats) rules.
Proof.
  induction rules as [|rule rules IH]; intros m st Hc.
  { exists []. simpl. unfold ret. rewrite !app_nil_r. by destruct st. }
  destruct (visit_rule_exact R pats m rule st Hc) as (evs1 & Hrun & Hev1).
  cbn [for_fold]. unfold bind at 1. rewrite Hrun.
  destruct (IH (m ++ (discovered R <$> filter (λ r, matches (Name r) pats) [rule]))
              {| remote_tags := remote_tags st; trace := trace st ++ evs1 |} Hc)
    as (evs2 & Hrest & Hev2).
  rewrite Hrest. exists (evs1 ++ evs2). cbn [remote_tags trace].
  rewrite <- !app_assoc, filter_app, Hev1, Hev2, <- !fmap_app.
  assert (filter (λ r, matches (Name r) pats) [rule]
          ++ filter (λ r, matches (Name r) pats) rules
          = filter (λ r, matches (Name r) pats) (rule :: rules)) as ->.
  { by rewrite <- filter_app. }
  done.
Qed.

Lemma walk_pages_exact R pats (good : list (option (list Rule))) : ∀ m st,
  only_client_errors R →
  ∃ evs,
    walk_pages R pats (Ok <$> good) m st
    = Some ({| remote_tags := remote_tags st; trace := trace st ++ evs |},
            Ok (m ++ (discovered R <$> filter (λ r, matches (Name r) pats) (listed good))))
    ∧ filter is_list_call evs
      = (CallListTags ∘ Arn) <$> filter (λ r, matches (Name r) pats) (listed good).
Proof.
  induction good as [|page good IH]; intros m st Hc.
  { exists []. simpl. unfold ret. rewrite !app_nil_r. by destruct st. }
  destruct (visit_rules_exact R pats (default [] page) m st Hc)
    as (evs1 & Hrun & Hev1).
  rewrite fmap_cons. cbn [walk_pages]. unfold bind at 1. rewrite Hrun.
  destruct (IH (m ++ (discovered R <$>
                  filter (λ r, matches (Name r) pats) (default [] page)))
              {| remote_tags := remote_tags st; trace := trace st ++ evs1 |} Hc)
    as (evs2 & Hrest & Hev2).
  rewrite Hrest. exists (evs1 ++ evs2). cbn [remote_tags trace].
  unfold listed. rewrite fmap_cons. cbn [concat].
  rewrite <- !app_assoc, !filter_app, Hev1, Hev2, !fmap_app. done.
Qed.

Lemma list_rules_by_pattern_caught R pats st :
  ∃ evs r,
    list_rules_by_pattern R pats st
    = Some ({| remote_tags := remote_tags st; trace := trace st ++ evs |}, r)
    ∧ silent evs
    ∧ ∀ e, r = Raise e →
           (∀ code, e ≠ ClientError code) ∧ (∀ msg, e ≠ BotoCoreError msg).
Proof.
  unfold list_rules_by_pattern, try_except.
  destruct (walk_pages_any R pats (pages R) [] st) as (evs & r & Hwalk & Hs).
  rewrite Hwalk. destruct r as [m|e].
  - eexists evs, _. split; [reflexivity|]. split; [done|]. discriminate.
  - destruct e; eb_unfold; rewrite <- ?app_assoc;
      (eexists _, _; split; [reflexivity|]);
      (split; [try done; (apply Forall_app; split; [done|]); repeat constructor|]);
      intros e' He'; simplify_eq; split; discriminate.
Qed.

Lemma silent_filter evs : silent evs → filter is_tag_call evs = [].
Proof.
  induction 1 as [|x l Hx _ IH]; [done|].
  rewrite filter_cons_False; [done|]. rewrite Hx. tauto.
Qed.

Lemma apply_tags_result fuel : ∀ R arn nm (tags : gmap string string) st st' r,
  apply_tags fuel R arn nm tags st = Some (st', r) →
  ∃ ok, r = Ok ok
    ∧ (ok = false → remote_tags st' = remote_tags st)
    ∧ (ok = true →
       remote_tags st'
       = <[arn := Py.dict_merge (default ∅ (remote_tags st !! arn)) tags]>
           (remote_tags st)).
Proof.
  induction fuel as [|fuel IH]; intros R arn nm tags st st' r Hrun.
  { rewrite apply_tags_at_limit in Hrun. injection Hrun as <- <-.
    exists false. repeat split; done. }
  destruct (tag_resource_answer R (length (tag_calls st)) arn) as [e|] eqn:Hans.
  - destruct (decide (Some e = throttled)) as [Heq|Hne].
    + rewrite apply_tags_throttled in Hrun by congruence.
      destruct (IH _ _ _ _ _ _ _ Hrun) as (ok & -> & Hf & Ht). eauto.
    + destruct (apply_tags_fails fuel R arn nm tags st e Hans Hne) as [l Hl].
      rewrite Hl in Hrun. injection Hrun as <- <-.
      exists false. repeat split; done.
  - rewrite (apply_tags_succeeds fuel R arn nm tags st Hans) in Hrun.
    injection Hrun as <- <-. exists true.
    rewrite dict_of_pairs_items. repeat split; done.
Qed.

End more_discovery.

(** X6.  When every page can be fetched and the tag fetch fails with
    [ClientError]s only, [list_rules_by_pattern] returns one entry per rule
    whose name matches, in listing order, and fetches the tags of exactly
    these rules; an entry is taggable exactly when its tag fetch succeeded,
    and then carries the fetched tags.  The remote tags are not changed. *)
Theorem discovery_returns_matching_rules
    (R : EventBridge.Remote) (pats : list string)
    (good : list (option (list EventBridge.Rule))) (st : EventBridge.State) :
  EventBridge.pages R = Ok <$> good →
  EventBridgeMore.only_client_errors R →
  let matching :=
    filter (λ r, EventBridge.matches (EventBridge.Name r) pats)
           (EventBridgeMore.listed good) in
  ∃ st',
    EventBridge.list_rules_by_pattern R pats st
    = Some (st', Ok (EventBridgeMore.discovered R <$> matching))
    ∧ filter EventBridgeMore.is_list_call (EventBridgeFacts.new_events st st')
      = (EventBridge.CallListTags ∘ EventBridge.Arn) <$> matching
    ∧ EventBridge.remote_tags st' = EventBridge.remote_tags st
    ∧ ∀ rule,
        (EventBridge.get_tagging_supported (EventBridgeMore.discovered R rule) = true ↔
         ∃ tag_response,
           EventBridge.list_tags_for_resource R (EventBridge.Arn rule) = Ok tag_response
           ∧ EventBridge.current_tags (EventBridgeMore.discovered R rule)
             = Py.dict_of_pairs tag_response).
Proof.
  intros Hpages Hc matching.
  destruct (walk_pages_exact R pats good [] st Hc) as (evs & Hwalk & Hev).
  unfold EventBridge.list_rules_by_pattern, try_except.
  rewrite Hpages, Hwalk. rewrite app_nil_l. eexists. split; [reflexivity|].
  split; [|split; [done|]].
  - unfold EventBridgeFacts.new_events. cbn [EventBridge.trace].
    by rewrite drop_app_length.
  - intros rule. unfold EventBridgeMore.discovered.
    destruct (EventBridge.list_tags_for_resource R (EventBridge.Arn rule))
      as [tag_response|e]; simpl.
    + split; [eauto|done].
    + split; [done|]. by intros (? & ? & _).
Qed.

(** One page with one matching and one other rule. *)
Lemma discovery_returns_matching_rules_witness :
  ∃ st',
    EventBridge.list_rules_by_pattern
      {| EventBridge.pages := [Ok (Some [EBScenarios.rule "test-rule";
                                         EBScenarios.rule "other"])];
         EventBridge.list_tags_for_resource := EBScenarios.no_tags;
         EventBridge.tag_resource_answer := EBScenarios.always_ok;
         EventBridge.getenv_CI := None;
         EventBridge.stdin_line := "" |}
      ["test"] EBScenarios.state0
    = Some (st', Ok [{| EventBridge.name := "test-rule";
                        EventBridge.arn := "arn:test-rule";
                        EventBridge.current_tags := ∅;
                        EventBridge.tagging_supported := None |}]).
Proof.
  destruct (discovery_returns_matching_rules
              {| EventBridge.pages := [Ok (Some [EBScenarios.rule "test-rule";
                                                 EBScenarios.rule "other"])];
                 EventBridge.list_tags_for_resource := EBScenarios.no_tags;
                 EventBridge.tag_resource_answer := EBScenarios.always_ok;
                 EventBridge.getenv_CI := None;
                 EventBridge.stdin_line := "" |}
              ["test"] [Some [EBScenarios.rule "test-rule"; EBScenarios.rule "other"]]
              EBScenarios.state0) as (st' & Hrun & _).
  - reflexivity.
  - intros a e H. simpl in H. discriminate H.
  - exists st'. exact Hrun.
Defined.

(** X7.  [list_rules_by_pattern] only reads: for every remote it makes no
    call of [tag_resource] and leaves the remote tags as they are; it catches
    every [ClientError] and [BotoCoreError], so an exception that leaves it is
    of neither class. *)
Theorem discovery_only_reads
    (R : EventBridge.Remote) (pats : list string) (st : EventBridge.State) :
  ∃ st' r,
    EventBridge.list_rules_by_pattern R pats st = Some (st', r)
    ∧ EventBridge.tag_calls st' = EventBridge.tag_calls st
    ∧ EventBridge.remote_tags st' = EventBridge.remote_tags st
    ∧ ∀ e, r = Raise e →
           (∀ code, e ≠ ClientError code) ∧ (∀ msg, e ≠ BotoCoreError msg).
Proof.
  destruct (list_rules_by_pattern_caught R pats st) as (evs & r & Hrun & Hs & Hr).
  eexists _, r. split; [exact Hrun|]. split; [|split; [done|exact Hr]].
  by rewrite tag_calls_app, (silent_filter evs Hs), app_nil_r.
Qed.

(** X8.  [tag_rules], and so [main], never calls [tag_resource] and never
    changes the remote tags, whatever the remote and the user answer.  When
    the discovery finds no taggable rule the run returns; when it finds one,
    the run ends with a [TypeError] or with a [NameError]. *)
Theorem tag_rules_never_tags
    (fuel : nat) (R : EventBridge.Remote) (pats : list string)
    (tags : gmap string string) (st : EventBridge.State) :
  (∃ st' r,
     EventBridge.tag_rules fuel R pats tags st = Some (st', r)
     ∧ EventBridge.tag_calls st' = EventBridge.tag_calls st
     ∧ EventBridge.remote_tags st' = EventBridge.remote_tags st
     ∧ ∀ st1 rules,
         EventBridge.list_rules_by_pattern R pats
           {| EventBridge.remote_tags := EventBridge.remote_tags st;
              EventBridge.trace := EventBridge.trace st
                                   ++ [EventBridge.Print EventBridge.LTagging] |}
         = Some (st1, Ok rules) →
         let taggable :=
           filter (λ rule, EventBridge.get_tagging_supported rule) rules in
         (taggable = [] → r = Ok ())
         ∧ (taggable ≠ [] →
            r = Raise (TypeError "apply_tags() missing 1 required positional argument: 'tags'")
            ∨ r = Raise (NameError "response")))
  ∧ ∃ st' r,
      EventBridgeMain.main fuel R st = Some (st', r)
      ∧ EventBridge.tag_calls st' = EventBridge.tag_calls st
      ∧ EventBridge.remote_tags st' = EventBridge.remote_tags st.
Proof.
  split; [|apply tag_rules_makes_no_tag_call].
  destruct (tag_rules_makes_no_tag_call fuel R pats tags st)
    as (st' & r & Hrun & Hcalls & Htags).
  exists st', r. split; [done|]. split; [done|]. split; [done|].
  intros st1 rules Hlist taggable.
  destruct (tag_rules_after_discovery fuel R pats tags st st1 rules Hlist)
    as (ls & Hrun').
  rewrite Hrun' in Hrun. injection Hrun as _ <-.
  fold taggable. unfold EventBridgeFacts.gate_outcome.
  split.
  - intros ->. done.
  - intros Hne. rewrite bool_decide_eq_false_2 by done.
    repeat case_bool_decide; simpl; auto.
Qed.

(** X9.  [apply_tags] never raises: whenever it returns, it returns [True]
    or [False].  With [False] the remote tags are as before; with [True] the
    tags of the rule are its former tags overlaid with the given ones, and
    no other rule is touched. *)
Theorem apply_tags_never_raises
    (fuel : nat) (R : EventBridge.Remote) (arn nm : string)
    (tags : gmap string string) (st st' : EventBridge.State)
    (r : result bool) :
  EventBridge.apply_tags fuel R arn nm tags st = Some (st', r) →
  ∃ ok,
    r = Ok ok
    ∧ (ok = false → EventBridge.remote_tags st' = EventBridge.remote_tags st)
    ∧ (ok = true →
       EventBridge.remote_tags st' !! arn
       = Some (Py.dict_merge (default ∅ (EventBridge.remote_tags st !! arn)) tags)
       ∧ ∀ a, a ≠ arn →
              EventBridge.remote_tags st' !! a = EventBridge.remote_tags st !! a).
Proof.
  intros Hrun.
  destruct (apply_tags_result fuel R arn nm tags st st' r Hrun)
    as (ok & -> & Hf & Ht).
  exists ok. split; [done|]. split; [done|].
  intros Hok. rewrite (Ht Hok). split.
  - apply lookup_insert_eq.
  - intros a Ha. by apply lookup_insert_ne.
Qed.

(** Two throttled calls, then success: the tags arrive. *)
Lemma apply_tags_never_raises_witness :
  ∃ ok,
    EBScenarios.returned EBScenarios.throttled_twice = Some (Ok ok)
    ∧ (ok = true →
       EventBridge.remote_tags (EBScenarios.state_after EBScenarios.throttled_twice)
         !! "arn:test-rule"
       = Some EBScenarios.the_tags).
Proof.
  destruct (apply_tags_never_raises 3
              {| EventBridge.pages := [];
                 EventBridge.list_tags_for_resource := EBScenarios.no_tags;
                 EventBridge.tag_resource_answer := EBScenarios.throttle_first 2;
                 EventBridge.getenv_CI := None;
                 EventBridge.stdin_line := "" |}
              "arn:test-rule" "test-rule" EBScenarios.the_tags EBScenarios.state0
              (EBScenarios.state_after EBScenarios.throttled_twice) (Ok true))
    as (ok & Hok & _ & Ht).
  - vm_compute. reflexivity.
  - exists ok. split; [rewrite <- Hok; vm_compute; reflexivity|].
    intros H. destruct (Ht H) as [Hl _]. rewrite Hl. vm_compute. reflexivity.
Defined.

(** ** More on the S3 tagger *)

Section more_apply.
Import S3 S3New S3Facts S3More.
Implicit Types (R : Remote) (st : State) (b : string).

Lemma fetch_no_fault R tg b :
  get_fault R b = None → fetch R tg b = Ok (tags_of tg b).
Proof. intros H. unfold fetch, tags_of. by rewrite H. Qed.

Lemma apply_outcome_no_fault R b :
  get_fault R b = None → put_fault R b = None →
  apply_outcome R b false = Ok true.
Proof. intros Hg Hp. unfold apply_outcome, send_outcome. by rewrite Hg, Hp. Qed.

Lemma tags_of_insert tg b (m : gmap string string) :
  tags_of (<[b := Py.items m]> tg) b = m.
Proof. unfold tags_of. rewrite lookup_insert_eq. apply dict_of_pairs_items. Qed.

Lemma tags_of_insert_ne tg b b' ts :
  b' ≠ b → tags_of (<[b := ts]> tg) b' = tags_of tg b'.
Proof. intros H. unfold tags_of. by rewrite lookup_insert_ne. Qed.

Lemma final_tags_idem (existing tags : gmap string string) merge :
  final_tags (final_tags existing tags merge) tags merge
  = final_tags existing tags merge.
Proof.
  apply map_eq. intros k. rewrite !final_tags_lookup.
  destruct (tags !! k) as [v|]; [destruct (Py.truthy (Py.strip v))|];
    by destruct merge.
Qed.

Lemma apply_tagging_other R tg b b' tags merge dry :
  b' ≠ b → apply_tagging R tg b tags merge dry !! b' = tg !! b'.
Proof.
  intros Hne. unfold apply_tagging.
  repeat case_match; try done. by apply lookup_insert_ne.
Qed.

Lemma apply_tagging_unchanged R tg b tags merge dry :
  apply_outcome R b dry ≠ Ok true → apply_tagging R tg b tags merge dry = tg.
Proof. intros H. unfold apply_tagging. by repeat case_match. Qed.

Lemma apply_outcome_not_client R b dry e :
  apply_outcome R b dry = Raise e → ∀ code, e ≠ ClientError code.
Proof.
  unfold apply_outcome, send_outcome. intros H code ->.
  repeat case_match; simplify_eq.
Qed.

Lemma apply_outcome_same R R' b dry :
  get_fault R b = get_fault R' b → put_fault R b = put_fault R' b →
  apply_outcome R b dry = apply_outcome R' b dry.
Proof. intros Hg Hp. unfold apply_outcome, send_outcome. by rewrite Hg, Hp. Qed.

Lemma apply_tagging_same R R' tg b tags merge dry :
  get_fault R b = get_fault R' b → put_fault R b = put_fault R' b →
  apply_tagging R tg b tags merge dry = apply_tagging R' tg b tags merge dry.
Proof.
  intros Hg Hp. unfold apply_tagging, fetch.
  by rewrite (apply_outcome_same R R' b dry Hg Hp), Hg.
Qed.

(** The events of an apply up to the backup. *)
Lemma apply_writes_backup R b tags merge dry st existing :
  fetch R (tagging st) b = Ok existing →
  open_fault R (backup_file b) = None →
  ∃ st' r pre post,
    apply_tags_to_bucket R b tags merge dry st = Some (st', r)
    ∧ new_events st st' = pre ++ WriteFile (backup_file b) existing :: post
    ∧ Forall (λ e, is_mutating e = false) pre.
Proof.
  intros Hf Ho. unfold apply_tags_to_bucket.
  set (log0 := if bool_decide (size (filter_tags tags) ≠ size tags) then _ else _).
  assert (∃ evs0, log0 st = Some ({| tagging := tagging st; trace := trace st ++ evs0 |}, Ok ())
            ∧ quiet b evs0) as (evs0 & Hlog0 & Hq0).
  { unfold log0, quiet, about. case_bool_decide; s3_unfold.
    - eexists; split; [reflexivity|]. repeat constructor; simpl; congruence.
    - exists []. rewrite app_nil_r. by destruct st. }
  unfold try_except, bind at 1. rewrite Hlog0.
  unfold bind at 1.
  destruct (get_bucket_tags_run R b {| tagging := tagging st; trace := trace st ++ evs0 |})
    as (evs1 & Hget & Hq1).
  rewrite Hget. cbn [tagging trace]. rewrite Hf.
  unfold bind at 1. unfold backup_tags, try_except, write_json, fail_with.
  fold (backup_file b). rewrite Ho.
  assert (Forall (λ e, is_mutating e = false) (evs0 ++ evs1)) as Hpre.
  { apply Forall_app. split; (eapply Forall_impl; [eassumption|]); by intros e []. }
  destruct merge, dry; s3_unfold;
    try (destruct (put_fault R b) as [[code| | | | | |]|]; s3_unfold);
    rewrite <- ?app_assoc; simpl;
    (eexists _, _, (evs0 ++ evs1), _; split; [reflexivity|]);
    (split; [|done]);
    unfold new_events; cbn [trace]; rewrite drop_app_length;
    rewrite <- ?app_assoc; reflexivity.
Qed.

End more_apply.

(** X10.  When the tags of a bucket can be fetched and sent, a successful
    [apply_tags_to_bucket] followed by [get_bucket_tags] returns the final tags
    of the apply (the non-blank desired tags, in merge mode laid over the
    former tags), and applying the same tags once more stores the same tag
    set: the apply is idempotent. *)
Theorem apply_then_fetch_round_trip
    (R : S3.Remote) (b : string) (tags : gmap string string) (merge : bool)
    (st : S3.State) :
  S3.get_fault R b = None → S3.put_fault R b = None →
  ∃ st1 st2 st3,
    S3New.apply_tags_to_bucket R b tags merge false st = Some (st1, Ok true)
    ∧ S3New.get_bucket_tags R b st1
      = Some (st2, Ok (S3Facts.final_tags (S3More.tags_of (S3.tagging st) b)
                         tags merge))
    ∧ S3New.apply_tags_to_bucket R b tags merge false st1 = Some (st3, Ok true)
    ∧ S3.tagging st3 = S3.tagging st1.
Proof.
  intros Hg Hp.
  destruct (apply_tags_to_bucket_run R b tags merge false st)
    as (evs1 & Hrun1 & _).
  rewrite (apply_outcome_no_fault R b Hg Hp) in Hrun1.
  set (final := S3Facts.final_tags (S3More.tags_of (S3.tagging st) b) tags merge).
  assert (S3Facts.apply_tagging R (S3.tagging st) b tags merge false
          = <[b := Py.items final]> (S3.tagging st)) as Htg1.
  { unfold S3Facts.apply_tagging.
    by rewrite (fetch_no_fault R _ b Hg), (apply_outcome_no_fault R b Hg Hp). }
  rewrite Htg1 in Hrun1.
  set (st1 := {| S3.tagging := <[b := Py.items final]> (S3.tagging st);
                 S3.trace := S3.trace st ++ evs1 |}) in *.
  destruct (get_bucket_tags_run R b st1) as (evs2 & Hget & _).
  rewrite (fetch_no_fault R _ b Hg) in Hget.
  destruct (apply_tags_to_bucket_run R b tags merge false st1)
    as (evs3 & Hrun3 & _).
  rewrite (apply_outcome_no_fault R b Hg Hp) in Hrun3.
  assert (S3More.tags_of (S3.tagging st1) b = final) as Hfinal.
  { unfold st1. simpl. apply tags_of_insert. }
  rewrite Hfinal in Hget.
  eexists st1, _, _. split; [exact Hrun1|]. split; [exact Hget|].
  split; [exact Hrun3|]. simpl.
  unfold S3Facts.apply_tagging.
  rewrite (fetch_no_fault R _ b Hg), (apply_outcome_no_fault R b Hg Hp).
  unfold st1 in Hfinal. simpl in Hfinal. rewrite Hfinal.
  unfold final. rewrite final_tags_idem. apply insert_insert_eq.
Qed.

(** A bucket that holds [{"a": "1"}] receives [{"b": "2"}]. *)
Lemma apply_then_fetch_round_trip_witness :
  ∃ st1 st2,
    S3New.apply_tags_to_bucket
      (Scenarios.s3_remote [] Scenarios.no_fault Scenarios.no_fault) "bucket"
      {[ "b" := "2" ]} true false
      (Scenarios.s3_state {[ "bucket" := [("a", "1")] ]}) = Some (st1, Ok true)
    ∧ S3New.get_bucket_tags
        (Scenarios.s3_remote [] Scenarios.no_fault Scenarios.no_fault) "bucket" st1
      = Some (st2, Ok {[ "a" := "1"; "b" := "2" ]}).
Proof.
  destruct (apply_then_fetch_round_trip
              (Scenarios.s3_remote [] Scenarios.no_fault Scenarios.no_fault)
              "bucket" {[ "b" := "2" ]} true
              (Scenarios.s3_state {[ "bucket" := [("a", "1")] ]}))
    as (st1 & st2 & _ & Hrun & Hget & _).
  - reflexivity.
  - reflexivity.
  - exists st1, st2. split; [exact Hrun|]. rewrite Hget.
    vm_compute. reflexivity.
Defined.

(** X11.  [apply_tags_to_bucket] changes the stored tags of its own bucket
    only, and only when it returns [True] outside a dry run; it catches every
    [ClientError], so an exception that leaves it is of another class. *)
Theorem apply_changes_its_bucket_only_on_success
    (R : S3.Remote) (b : string) (tags : gmap string string)
    (merge dry : bool) (st : S3.State) :
  ∃ st' r,
    S3New.apply_tags_to_bucket R b tags merge dry st = Some (st', r)
    ∧ (∀ b', b' ≠ b → S3.tagging st' !! b' = S3.tagging st !! b')
    ∧ (r ≠ Ok true ∨ dry = true → S3.tagging st' = S3.tagging st)
    ∧ (∀ e, r = Raise e → ∀ code, e ≠ ClientError code).
Proof.
  destruct (apply_tags_to_bucket_run R b tags merge dry st)
    as (evs & Hrun & _).
  eexists _, _. split; [exact Hrun|]. simpl. split; [|split].
  - intros b' Hne. by apply apply_tagging_other.
  - intros [Hr| ->].
    + by apply apply_tagging_unchanged.
    + unfold S3Facts.apply_tagging. by repeat case_match.
  - intros e He. by eapply apply_outcome_not_client.
Qed.

(** X12.  Whenever the current tags are fetched and the backup file can be
    opened, [apply_tags_to_bucket] writes the fetched tags to the file
    [<bucket>_tags_backup.json] before any mutating call, in a dry run too. *)
Theorem backup_is_written_before_any_change
    (R : S3.Remote) (b : string) (tags existing : gmap string string)
    (merge dry : bool) (st : S3.State) :
  S3Facts.fetch R (S3.tagging st) b = Ok existing →
  S3.open_fault R (b +:+ "_tags_backup.json") = None →
  ∃ st' r pre post,
    S3New.apply_tags_to_bucket R b tags merge dry st = Some (st', r)
    ∧ S3Facts.new_events st st'
      = pre ++ S3.WriteFile (b +:+ "_tags_backup.json") existing :: post
    ∧ Forall (λ e, S3.is_mutating e = false) pre.
Proof. apply apply_writes_backup. Qed.

(** The dry run of a bucket that holds [{"a": "1"}] writes the backup. *)
Lemma backup_is_written_before_any_change_witness :
  ∃ st' r pre post,
    S3New.apply_tags_to_bucket
      (Scenarios.s3_remote [] Scenarios.no_fault Scenarios.no_fault) "bucket"
      {[ "b" := "2" ]} true true
      (Scenarios.s3_state {[ "bucket" := [("a", "1")] ]}) = Some (st', r)
    ∧ S3Facts.new_events (Scenarios.s3_state {[ "bucket" := [("a", "1")] ]}) st'
      = pre ++ S3.WriteFile "bucket_tags_backup.json" {[ "a" := "1" ]} :: post.
Proof.
  destruct (backup_is_written_before_any_change
              (Scenarios.s3_remote [] Scenarios.no_fault Scenarios.no_fault)
              "bucket" {[ "b" := "2" ]} {[ "a" := "1" ]} true true
              (Scenarios.s3_state {[ "bucket" := [("a", "1")] ]}))
    as (st' & r & pre & post & Hrun & Hev & _).
  - vm_compute. reflexivity.
  - reflexivity.
  - exists st', r, pre, post. split; [exact Hrun|exact Hev].
Defined.

(** X13.  The backup is best effort: two remotes that answer the tagging
    calls of a bucket alike give the same result and the same stored tags,
    whether or not the backup file can be written. *)
Theorem backup_failure_changes_nothing
    (R R' : S3.Remote) (b : string) (tags : gmap string string)
    (merge dry : bool) (st : S3.State) :
  S3.get_fault R b = S3.get_fault R' b →
  S3.put_fault R b = S3.put_fault R' b →
  ∃ st1 st2 r,
    S3New.apply_tags_to_bucket R b tags merge dry st = Some (st1, r)
    ∧ S3New.apply_tags_to_bucket R' b tags merge dry st = Some (st2, r)
    ∧ S3.tagging st1 = S3.tagging st2.
Proof.
  intros Hg Hp.
  destruct (apply_tags_to_bucket_run R b tags merge dry st) as (evs & Hrun & _).
  destruct (apply_tags_to_bucket_run R' b tags merge dry st) as (evs' & Hrun' & _).
  rewrite <- (apply_outcome_same R R' b dry Hg Hp) in Hrun'.
  eexists _, _, _. split; [exact Hrun|]. split; [exact Hrun'|].
  simpl. by apply apply_tagging_same.
Qed.

(** The same apply with a backup file that cannot be opened. *)
Lemma backup_failure_changes_nothing_witness :
  ∃ st1 st2 r,
    S3New.apply_tags_to_bucket
      (Scenarios.s3_remote [] Scenarios.no_fault Scenarios.no_fault) "bucket"
      {[ "b" := "2" ]} true false (Scenarios.s3_state ∅) = Some (st1, r)
    ∧ S3New.apply_tags_to_bucket
        {| S3.list_buckets_answer := Ok (Some []);
           S3.get_fault := Scenarios.no_fault; S3.put_fault := Scenarios.no_fault;
           S3.delete_fault := Scenarios.no_fault;
           S3.open_fault := λ _, Some (OSError "Permission denied") |}
        "bucket" {[ "b" := "2" ]} true false (Scenarios.s3_state ∅) = Some (st2, r)
    ∧ S3.tagging st1 = S3.tagging st2.
Proof.
  apply (backup_failure_changes_nothing
           (Scenarios.s3_remote [] Scenarios.no_fault Scenarios.no_fault)
           {| S3.list_buckets_answer := Ok (Some []);
              S3.get_fault := Scenarios.no_fault; S3.put_fault := Scenarios.no_fault;
              S3.delete_fault := Scenarios.no_fault;
              S3.open_fault := λ _, Some (OSError "Permission denied") |}
           "bucket" {[ "b" := "2" ]} true false (Scenarios.s3_state ∅));
    reflexivity.
Defined.

Section more_remove.
Import S3 S3New S3Facts S3More.
Implicit Types (R : Remote) (st : State) (b : string).

Lemma remaining_empty (tag_keys : list string) : remaining ∅ tag_keys = ∅.
Proof. unfold remaining. apply map_filter_empty. Qed.

Lemma tags_of_delete tg b : tags_of (delete b tg) b = ∅.
Proof. unfold tags_of. by rewrite lookup_delete_eq. Qed.

Lemma mutating_calls_app evs1 evs2 :
  mutating_calls (evs1 ++ evs2) = mutating_calls evs1 ++ mutating_calls evs2.
Proof. apply filter_app. Qed.

Lemma mutating_calls_quiet b evs : quiet b evs → mutating_calls evs = [].
Proof.
  unfold quiet, mutating_calls. induction 1 as [|e evs [He _] _ IH]; [done|].
  rewrite filter_cons_False; [done|]. rewrite He. auto.
Qed.

(** The run of [remove_tags_from_bucket] outside a dry run when the tags are
    fetched. *)
Lemma remove_tags_run R b tag_keys st existing :
  fetch R (tagging st) b = Ok existing →
  ∃ evs tg r,
    remove_tags_from_bucket R b tag_keys false st
    = Some ({| tagging := tg; trace := trace st ++ evs |}, r)
    ∧ Forall (about b) evs
    ∧ mutating_calls evs = removal_calls b existing tag_keys
    ∧ (∀ b', b' ≠ b → tg !! b' = tagging st !! b')
    ∧ (r ≠ Ok true → tg = tagging st)
    ∧ (∀ e, r = Raise e → ∀ code, e ≠ ClientError code)
    ∧ (get_fault R b = None → put_fault R b = None → delete_fault R b = None →
       r = Ok true ∧ tags_of tg b = remaining existing tag_keys).
Proof.
  intros Hf.
  unfold remove_tags_from_bucket, try_except.
  destruct (get_bucket_tags_run R b st) as (evs1 & Hget & Hq1).
  unfold bind at 1. rewrite Hget, Hf.
  pose proof (mutating_calls_quiet b evs1 Hq1) as Hm1.
  assert (Forall (about b) evs1) as Ha1.
  { eapply Forall_impl; [exact Hq1|]. by intros e [_ ?]. }
  unfold removal_calls. fold (remaining existing tag_keys).
  case_bool_decide as Hex.
  { rewrite decide_True by done. s3_unfold. rewrite <- app_assoc.
    eexists _, _, _. split; [reflexivity|].
    split; [apply Forall_app; split; [done|]; repeat constructor;
            unfold about; simpl; congruence|].
    split; [rewrite mutating_calls_app, Hm1; reflexivity|].
    split; [done|]. split; [done|]. split; [done|].
    intros Hg _ _. split; [done|]. subst existing. rewrite remaining_empty.
    rewrite (fetch_no_fault R _ b Hg) in Hf. simpl. congruence. }
  rewrite decide_False by done.
  case_bool_decide as Hrem.
  - rewrite decide_False by done. s3_unfold.
    destruct (put_fault R b) as [[code| | | | | |]|] eqn:Hp; s3_unfold;
      rewrite <- ?app_assoc; simpl;
      (eexists _, _, _; split; [reflexivity|]);
      (split; [apply Forall_app; split; [done|]; repeat constructor;
               unfold about; simpl; congruence|]);
      (split; [rewrite mutating_calls_app, Hm1; reflexivity|]);
      (split; [intros b' Hne; simpl; by rewrite ?lookup_insert_ne|]);
      (split; [done|]); (split; [congruence|]);
      intros _ ? _; try done.
    split; [done|]. apply tags_of_insert.
  - rewrite decide_True by done. s3_unfold.
    destruct (delete_fault R b) as [[code| | | | | |]|] eqn:Hp; s3_unfold;
      rewrite <- ?app_assoc; simpl;
      (eexists _, _, _; split; [reflexivity|]);
      (split; [apply Forall_app; split; [done|]; repeat constructor;
               unfold about; simpl; congruence|]);
      (split; [rewrite mutating_calls_app, Hm1; reflexivity|]);
      (split; [intros b' Hne; simpl; by rewrite ?lookup_delete_ne|]);
      (split; [done|]); (split; [congruence|]);
      intros _ _ ?; try done.
    split; [done|]. rewrite Hrem. apply tags_of_delete.
Qed.

(** The run of [remove_tags_from_bucket] when fetching the tags fails. *)
Lemma remove_tags_fetch_fails R b tag_keys dry st e :
  fetch R (tagging st) b = Raise e →
  ∃ evs,
    remove_tags_from_bucket R b tag_keys dry st
    = Some ({| tagging := tagging st; trace := trace st ++ evs |},
            match e with ClientError _ => Ok false | _ => Raise e end)
    ∧ quiet b evs.
Proof.
  intros Hf.
  unfold remove_tags_from_bucket, try_except.
  destruct (get_bucket_tags_run R b st) as (evs1 & Hget & Hq1).
  unfold bind at 1. rewrite Hget, Hf.
  destruct e; s3_unfold; rewrite <- ?app_assoc;
    (eexists; split; [reflexivity|]); unfold quiet in *;
    try done; try (apply Forall_app; split; [done|]);
    repeat constructor; unfold about; simpl; congruence.
Qed.

End more_remove.

(** X14.  When the tagging calls on a bucket do not fail,
    [remove_tags_from_bucket] returns [True] and a later [get_bucket_tags]
    returns the former tags without the given keys.  It makes no mutating call
    when the bucket has no tags, one [delete_bucket_tagging] when no tag
    remains, and one [put_bucket_tagging] of the remaining tags otherwise. *)
Theorem remove_then_fetch_round_trip
    (R : S3.Remote) (b : string) (tag_keys : list string) (st : S3.State) :
  S3.get_fault R b = None → S3.put_fault R b = None →
  S3.delete_fault R b = None →
  ∃ st1 st2,
    S3New.remove_tags_from_bucket R b tag_keys false st = Some (st1, Ok true)
    ∧ S3New.get_bucket_tags R b st1
      = Some (st2, Ok (S3More.remaining (S3More.tags_of (S3.tagging st) b) tag_keys))
    ∧ (∀ k, S3More.remaining (S3More.tags_of (S3.tagging st) b) tag_keys !! k
            = if decide (k ∈ tag_keys) then None
              else S3More.tags_of (S3.tagging st) b !! k)
    ∧ S3More.mutating_calls (S3Facts.new_events st st1)
      = S3More.removal_calls b (S3More.tags_of (S3.tagging st) b) tag_keys.
Proof.
  intros Hg Hp Hd.
  destruct (remove_tags_run R b tag_keys st (S3More.tags_of (S3.tagging st) b))
    as (evs & tg & r & Hrun & _ & Hcalls & _ & _ & _ & Hok).
  { apply (fetch_no_fault R _ b Hg). }
  destruct (Hok Hg Hp Hd) as [-> Htags].
  set (st1 := {| S3.tagging := tg; S3.trace := S3.trace st ++ evs |}) in *.
  destruct (get_bucket_tags_run R b st1) as (evs2 & Hget & _).
  rewrite (fetch_no_fault R _ b Hg) in Hget.
  exists st1. eexists. split; [exact Hrun|]. split; [|split].
  - rewrite Hget. f_equal. f_equal. f_equal. exact Htags.
  - intros k. unfold S3More.remaining.
    destruct (S3More.tags_of (S3.tagging st) b !! k) as [v|] eqn:Hk.
    + case_decide as Hin.
      * apply map_lookup_filter_None. right. intros v' _ Hn. by apply Hn.
      * apply map_lookup_filter_Some. done.
    + rewrite (proj2 (map_lookup_filter_None _ _ _)) by (by left).
      by case_decide.
  - unfold st1. rewrite new_events_app. exact Hcalls.
Qed.

(** Removing [b] from the tags [{"a": "1", "b": "2"}] of a bucket. *)
Lemma remove_then_fetch_round_trip_witness :
  ∃ st1 st2,
    S3New.remove_tags_from_bucket
      (Scenarios.s3_remote [] Scenarios.no_fault Scenarios.no_fault) "bucket"
      ["b"] false
      (Scenarios.s3_state {[ "bucket" := [("a", "1"); ("b", "2")] ]})
    = Some (st1, Ok true)
    ∧ S3New.get_bucket_tags
        (Scenarios.s3_remote [] Scenarios.no_fault Scenarios.no_fault) "bucket" st1
      = Some (st2, Ok {[ "a" := "1" ]}).
Proof.
  destruct (remove_then_fetch_round_trip
              (Scenarios.s3_remote [] Scenarios.no_fault Scenarios.no_fault)
              "bucket" ["b"]
              (Scenarios.s3_state {[ "bucket" := [("a", "1"); ("b", "2")] ]}))
    as (st1 & st2 & Hrun & Hget & _).
  - reflexivity.
  - reflexivity.
  - reflexivity.
  - exists st1, st2. split; [exact Hrun|]. rewrite Hget.
    vm_compute. reflexivity.
Defined.

(** X15.  [remove_tags_from_bucket] makes tagging calls on its own bucket
    only and leaves the tags of every other bucket as they are; when it does
    not return [True], and in a dry run, no stored tags change; a dry run
    makes no mutating call; a [ClientError] never leaves it. *)
Theorem remove_changes_its_bucket_only_on_success
    (R : S3.Remote) (b : string) (tag_keys : list string) (dry : bool)
    (st : S3.State) :
  ∃ st' r,
    S3New.remove_tags_from_bucket R b tag_keys dry st = Some (st', r)
    ∧ Forall (S3Facts.about b) (S3Facts.new_events st st')
    ∧ (∀ b', b' ≠ b → S3.tagging st' !! b' = S3.tagging st !! b')
    ∧ (r ≠ Ok true ∨ dry = true → S3.tagging st' = S3.tagging st)
    ∧ (dry = true → S3More.mutating_calls (S3Facts.new_events st st') = [])
    ∧ (∀ e, r = Raise e → ∀ code, e ≠ ClientError code).
Proof.
  destruct (S3Facts.fetch R (S3.tagging st) b) as [existing|e] eqn:Hf.
  - destruct dry.
    + destruct (remove_tags_dry_run R b tag_keys st) as (evs & Hrun & Hq).
      rewrite Hf in Hrun. eexists _, _. split; [exact Hrun|].
      rewrite new_events_app. simpl.
      split; [eapply Forall_impl; [exact Hq|]; by intros e [_ ?]|].
      split; [done|]. split; [done|].
      split; [intros _; by eapply mutating_calls_quiet|]. done.
    + destruct (remove_tags_run R b tag_keys st existing Hf)
        as (evs & tg & r & Hrun & Hab & _ & Hfr & Hun & Hexc & _).
      eexists _, _. split; [exact Hrun|]. rewrite new_events_app. simpl.
      split; [done|]. split; [done|].
      split; [intros [?|?]; [auto|done]|]. split; [done|]. done.
  - destruct (remove_tags_fetch_fails R b tag_keys dry st e Hf)
      as (evs & Hrun & Hq).
    eexists _, _. split; [exact Hrun|]. rewrite new_events_app. simpl.
    split; [eapply Forall_impl; [exact Hq|]; by intros e' [_ ?]|].
    split; [done|]. split; [done|].
    split; [intros _; by eapply mutating_calls_quiet|].
    intros e' He' code ->. by destruct e.
Qed.

(** ** More on the runs over all buckets *)

Section more_runs.
Import S3 S3New S3Facts S3More.
Implicit Types (R : Remote) (st : State) (b : string).

Lemma tag_loop_exact R tags merge dry (bs : list Bucket) :
  ∀ (acc : gmap string bool) st, ∃ evs,
    for_fold bs acc (λ results bucket,
      success <- apply_tags_to_bucket R (Name bucket) tags merge dry ;;
      ret (<[Name bucket := success]> results)) st
    = Some ({| tagging := loop_tagging R tags merge dry bs (tagging st);
               trace := trace st ++ evs |},
            loop_result R dry bs acc).
Proof.
  induction bs as [|bucket bs IH]; intros acc st.
  { exists []. simpl. unfold ret. rewrite app_nil_r. by destruct st. }
  destruct (apply_tags_to_bucket_run R (Name bucket) tags merge dry st)
    as (evs1 & Hrun & _).
  simpl. unfold bind at 1. unfold bind at 1. rewrite Hrun.
  destruct (apply_outcome R (Name bucket) dry) as [success|exc] eqn:Hout.
  - unfold ret at 1.
    destruct (IH (<[Name bucket := success]> acc)
                {| tagging := apply_tagging R (tagging st) (Name bucket) tags merge dry;
                   trace := trace st ++ evs1 |}) as (evs2 & Hrest).
    rewrite Hrest. simpl. exists (evs1 ++ evs2). by rewrite app_assoc.
  - by exists evs1.
Qed.

Lemma loop_tagging_other R tags merge dry (bs : list Bucket) b :
  b ∉ Name <$> bs →
  ∀ tg, loop_tagging R tags merge dry bs tg !! b = tg !! b.
Proof.
  induction bs as [|bucket bs IH]; intros Hb tg; [done|].
  rewrite fmap_cons, not_elem_of_cons in Hb. destruct Hb as [Hne Hb].
  simpl. destruct (apply_outcome R (Name bucket) dry).
  - rewrite IH by done. by apply apply_tagging_other.
  - by apply apply_tagging_other.
Qed.

Lemma apply_tagging_no_fault R tg b tags merge :
  get_fault R b = None → put_fault R b = None →
  apply_tagging R tg b tags merge false
  = <[b := Py.items (final_tags (tags_of tg b) tags merge)]> tg.
Proof.
  intros Hg Hp. unfold apply_tagging.
  by rewrite (fetch_no_fault R _ b Hg), (apply_outcome_no_fault R b Hg Hp).
Qed.

Lemma loop_tagging_no_fault R tags merge (bs : list Bucket) :
  (∀ bucket, bucket ∈ bs →
     get_fault R (Name bucket) = None ∧ put_fault R (Name bucket) = None) →
  ∀ tg b, b ∈ Name <$> bs →
    tags_of (loop_tagging R tags merge false bs tg) b
    = final_tags (tags_of tg b) tags merge.
Proof.
  induction bs as [|bucket bs IH]; intros Hok tg b Hb; [set_solver|].
  destruct (Hok bucket) as [Hg Hp]; [set_solver|].
  simpl. rewrite (apply_outcome_no_fault R _ Hg Hp).
  rewrite (apply_tagging_no_fault R tg _ tags merge Hg Hp).
  assert (∀ bucket', bucket' ∈ bs →
            get_fault R (Name bucket') = None ∧ put_fault R (Name bucket') = None)
    as Hok' by (intros; apply Hok; set_solver).
  destruct (decide (b ∈ Name <$> bs)) as [Hin|Hnin].
  - rewrite (IH Hok' _ b Hin).
    destruct (decide (b = Name bucket)) as [->|Hne].
    + by rewrite tags_of_insert, final_tags_idem.
    + by rewrite tags_of_insert_ne.
  - assert (b = Name bucket) as -> by set_solver.
    unfold tags_of at 1. rewrite loop_tagging_other by done.
    fold (tags_of (<[Name bucket := Py.items (final_tags (tags_of tg (Name bucket)) tags merge)]> tg) (Name bucket)).
    apply tags_of_insert.
Qed.

Lemma loop_result_no_fault R (bs : list Bucket) :
  (∀ bucket, bucket ∈ bs →
     get_fault R (Name bucket) = None ∧ put_fault R (Name bucket) = None) →
  ∀ acc, ∃ results,
    loop_result R false bs acc = Ok results
    ∧ ∀ b, b ∈ Name <$> bs → results !! b = Some true.
Proof.
  intros Hok acc.
  destruct (loop_result_Ok R false bs acc) as [results Hres].
  { intros bucket Hin. destruct (Hok bucket Hin) as [Hg Hp].
    rewrite (apply_outcome_no_fault R _ Hg Hp). eauto. }
  exists results. split; [done|]. intros b Hb.
  rewrite (loop_result_lookup R false bs acc results Hres b).
  rewrite decide_True by done.
  apply list_elem_of_fmap in Hb as (bucket & -> & Hin).
  destruct (Hok bucket Hin) as [Hg Hp].
  by rewrite (apply_outcome_no_fault R _ Hg Hp).
Qed.

Lemma tag_all_bucket_exact R tags merge dry bf st response :
  list_buckets_answer R = Ok response →
  ∃ evs,
    tag_all_bucket R tags merge dry bf st
    = Some ({| tagging := loop_tagging R tags merge dry
                            (filtered_buckets bf response) (tagging st);
               trace := trace st ++ evs |},
            loop_result R dry (filtered_buckets bf response) ∅).
Proof.
  intros Hans. unfold tag_all_bucket.
  destruct (list_buckets_run R st) as (evs0 & Hlist & _).
  unfold bind at 1. rewrite Hlist, Hans.
  fold (filtered_buckets bf response).
  set (st0 := {| tagging := tagging st; trace := trace st ++ evs0 |}).
  set (log1 := match bf with Some f => _ | None => _ end).
  assert (∃ evs1, log1 st0 = Some ({| tagging := tagging st; trace := trace st0 ++ evs1 |}, Ok ()))
    as (evs1 & Hlog1).
  { unfold log1. destruct bf as [f|]; [destruct (Py.truthy f)|]; s3_unfold.
    - eexists; reflexivity.
    - exists []. by rewrite app_nil_r.
    - exists []. by rewrite app_nil_r. }
  unfold bind at 1. rewrite Hlog1. unfold bind at 1.
  destruct (tag_loop_exact R tags merge dry (filtered_buckets bf response) ∅
              {| tagging := tagging st; trace := trace st0 ++ evs1 |})
    as (evs2 & Hloop).
  rewrite Hloop. simpl trace. simpl tagging.
  destruct (loop_result R dry (filtered_buckets bf response) ∅) as [results|exc].
  - s3_unfold. rewrite <- !app_assoc. eexists. reflexivity.
  - rewrite <- !app_assoc. eexists. reflexivity.
Qed.

Lemma tag_all_bucket_listing_fails R tags merge dry bf st e :
  list_buckets_answer R = Raise e →
  tag_all_bucket R tags merge dry bf st
  = Some ({| tagging := tagging st;
             trace := trace st ++ Call ListBuckets ::
                        match e with
                        | ClientError _ => [Error (FailedToListBuckets e)]
                        | _ => []
                        end |}, Raise e).
Proof.
  intros Hans. unfold tag_all_bucket. s3_unfold. rewrite Hans.
  destruct e; s3_unfold; by rewrite <- ?app_assoc.
Qed.

End more_runs.

(** X16.  When [list_buckets] fails, [tag_all_bucket] raises the same
    exception after the one listing call, logs the failure if it is a
    [ClientError], calls no bucket and changes no tags. *)
Theorem listing_failure_stops_tag_all_bucket
    (R : S3.Remote) (tags : gmap string string) (merge dry : bool)
    (bf : option string) (st : S3.State) (e : exn) :
  S3.list_buckets_answer R = Raise e →
  ∃ st',
    S3New.tag_all_bucket R tags merge dry bf st = Some (st', Raise e)
    ∧ S3.tagging st' = S3.tagging st
    ∧ S3Facts.new_events st st'
      = S3.Call S3.ListBuckets ::
          match e with
          | ClientError _ => [S3.Error (S3.FailedToListBuckets e)]
          | _ => []
          end.
Proof.
  intros Hans. eexists.
  split; [apply (tag_all_bucket_listing_fails R tags merge dry bf st e Hans)|].
  split; [done|]. apply new_events_app.
Qed.

(** The listing is denied. *)
Lemma listing_failure_stops_tag_all_bucket_witness :
  ∃ st',
    S3New.tag_all_bucket
      {| S3.list_buckets_answer := Raise (ClientError "AccessDenied");
         S3.get_fault := Scenarios.no_fault; S3.put_fault := Scenarios.no_fault;
         S3.delete_fault := Scenarios.no_fault;
         S3.open_fault := Scenarios.no_fault |}
      {[ "Env" := "prd" ]} true false None (Scenarios.s3_state ∅)
    = Some (st', Raise (ClientError "AccessDenied"))
    ∧ S3.trace st'
      = [S3.Call S3.ListBuckets;
         S3.Error (S3.FailedToListBuckets (ClientError "AccessDenied"))].
Proof.
  destruct (listing_failure_stops_tag_all_bucket
              {| S3.list_buckets_answer := Raise (ClientError "AccessDenied");
                 S3.get_fault := Scenarios.no_fault;
                 S3.put_fault := Scenarios.no_fault;
                 S3.delete_fault := Scenarios.no_fault;
                 S3.open_fault := Scenarios.no_fault |}
              {[ "Env" := "prd" ]} true false None (Scenarios.s3_state ∅)
              (ClientError "AccessDenied"))
    as (st' & Hrun & _ & Hev).
  - reflexivity.
  - exists st'. split; [exact Hrun|]. exact Hev.
Defined.

(** X17.  Whatever fails, [tag_all_bucket] leaves the tags of every bucket
    that is not among the listed buckets passing the filter as they are. *)
Theorem tag_all_bucket_leaves_other_buckets
    (R : S3.Remote) (tags : gmap string string) (merge dry : bool)
    (bf : option string) (st : S3.State) :
  ∃ st' r,
    S3New.tag_all_bucket R tags merge dry bf st = Some (st', r)
    ∧ ∀ b,
        (∀ response, S3.list_buckets_answer R = Ok response →
                     b ∉ S3.Name <$> S3Facts.filtered_buckets bf response) →
        S3.tagging st' !! b = S3.tagging st !! b.
Proof.
  destruct (S3.list_buckets_answer R) as [response|e] eqn:Hans.
  - destruct (tag_all_bucket_exact R tags merge dry bf st response Hans)
      as (evs & Hrun).
    eexists _, _. split; [exact Hrun|]. intros b Hb. simpl.
    apply loop_tagging_other. by apply Hb.
  - eexists _, _.
    split; [apply (tag_all_bucket_listing_fails R tags merge dry bf st e Hans)|].
    done.
Qed.

(** X18.  When the listing succeeds and the tagging calls on the buckets
    passing the filter do not fail, [tag_all_bucket] returns [True] for each of
    them and each ends with the final tags of an apply on its former tags:
    the non-blank desired tags, in merge mode laid over the former ones. *)
Theorem tag_all_bucket_tags_every_filtered_bucket
    (R : S3.Remote) (tags : gmap string string) (merge : bool)
    (bf : option string) (st : S3.State) (response : option (list S3.Bucket)) :
  S3.list_buckets_answer R = Ok response →
  (∀ bucket, bucket ∈ S3Facts.filtered_buckets bf response →
     S3.get_fault R (S3.Name bucket) = None
     ∧ S3.put_fault R (S3.Name bucket) = None) →
  ∃ st' results,
    S3New.tag_all_bucket R tags merge false bf st = Some (st', Ok results)
    ∧ ∀ b, b ∈ S3.Name <$> S3Facts.filtered_buckets bf response →
        results !! b = Some true
        ∧ S3More.tags_of (S3.tagging st') b
          = S3Facts.final_tags (S3More.tags_of (S3.tagging st) b) tags merge.
Proof.
  intros Hans Hok.
  destruct (tag_all_bucket_exact R tags merge false bf st response Hans)
    as (evs & Hrun).
  destruct (loop_result_no_fault R (S3Facts.filtered_buckets bf response) Hok ∅)
    as (results & Hres & Htrue).
  rewrite Hres in Hrun. eexists _, results. split; [exact Hrun|].
  intros b Hb. split; [by apply Htrue|]. simpl.
  by apply loop_tagging_no_fault.
Qed.

(** Two buckets, of which the filter [prod] keeps one. *)
Lemma tag_all_bucket_tags_every_filtered_bucket_witness :
  ∃ st' results,
    S3New.tag_all_bucket
      (Scenarios.s3_remote [Scenarios.bucket "prod-a"; Scenarios.bucket "test-b"]
         Scenarios.no_fault Scenarios.no_fault)
      {[ "Env" := "prd" ]} true false (Some "prod")
      (Scenarios.s3_state {[ "prod-a" := [("a", "1")] ]})
    = Some (st', Ok results)
    ∧ results !! "prod-a" = Some true
    ∧ S3More.tags_of (S3.tagging st') "prod-a" = {[ "a" := "1"; "Env" := "prd" ]}.
Proof.
  destruct (tag_all_bucket_tags_every_filtered_bucket
              (Scenarios.s3_remote
                 [Scenarios.bucket "prod-a"; Scenarios.bucket "test-b"]
                 Scenarios.no_fault Scenarios.no_fault)
              {[ "Env" := "prd" ]} true (Some "prod")
              (Scenarios.s3_state {[ "prod-a" := [("a", "1")] ]})
              (Some [Scenarios.bucket "prod-a"; Scenarios.bucket "test-b"]))
    as (st' & results & Hrun & Hall).
  - reflexivity.
  - intros bucket _. split; reflexivity.
  - exists st', results. split; [exact Hrun|].
    destruct (Hall "prod-a") as [Hr Ht].
    + vm_compute. apply list_elem_of_here.
    + split; [exact Hr|]. rewrite Ht. vm_compute. reflexivity.
Defined.

(** ** More on tag_s3.py *)

Section more_old.
Import S3 S3Facts S3More.
Implicit Types (R : Remote) (st : State) (b : string).

Lemma old_apply_tags_exact R b st :
  ∃ evs,
    S3Old.apply_tags R b st
    = Some ({| tagging := old_apply_tagging R (tagging st) b;
               trace := trace st ++ evs |},
            match fetch R (tagging st) b, put_fault R b with
            | Ok _, None => Ok ()
            | Ok _, Some e => Raise e
            | Raise e, _ => Raise e
            end).
Proof.
  unfold S3Old.apply_tags, old_apply_tagging.
  destruct (get_existing_tags_run R b st) as (evs1 & Hget).
  unfold bind at 1. rewrite Hget.
  destruct (fetch R (tagging st) b) as [existing|e]; [|by exists evs1].
  s3_unfold. destruct (put_fault R b) as [e|]; s3_unfold;
    rewrite <- ?app_assoc; eexists; reflexivity.
Qed.

Lemma old_main_loop_exact R (bs : list Bucket) : ∀ st,
  ∃ evs,
    for_each bs (λ bucket,
      try_except (S3Old.apply_tags R (Name bucket))
        (λ e, Some (error (ErrorTagging (Name bucket) e)))) st
    = Some ({| tagging := foldl (old_apply_tagging R) (tagging st) (Name <$> bs);
               trace := trace st ++ evs |}, Ok ()).
Proof.
  induction bs as [|bucket bs IH]; intros st.
  { exists []. simpl. unfold ret. rewrite app_nil_r. by destruct st. }
  destruct (old_apply_tags_exact R (Name bucket) st) as (evs1 & Hrun).
  simpl. unfold bind at 1. unfold try_except at 1. rewrite Hrun.
  set (r := match fetch R (tagging st) (Name bucket) with Ok _ => _ | Raise _ => _ end).
  destruct r as [[]|e]; [|unfold error at 1; unfold emit at 1; simpl].
  - destruct (IH {| tagging := old_apply_tagging R (tagging st) (Name bucket);
                    trace := trace st ++ evs1 |}) as (evs2 & Hrest).
    rewrite Hrest. simpl. rewrite <- app_assoc. eexists. reflexivity.
  - destruct (IH {| tagging := old_apply_tagging R (tagging st) (Name bucket);
                    trace := (trace st ++ evs1)
                             ++ [Error (ErrorTagging (Name bucket) e)] |})
      as (evs2 & Hrest).
    rewrite Hrest. simpl. rewrite <- !app_assoc. eexists. reflexivity.
Qed.

Lemma old_apply_tagging_other R tg b b' :
  b' ≠ b → old_apply_tagging R tg b !! b' = tg !! b'.
Proof.
  intros Hne. unfold old_apply_tagging.
  destruct (fetch R tg b), (put_fault R b); try done.
  by rewrite lookup_insert_ne.
Qed.

Lemma fetch_ext R tg tg' b : tg !! b = tg' !! b → fetch R tg b = fetch R tg' b.
Proof. intros Heq. unfold fetch. by rewrite Heq. Qed.

Lemma old_apply_tagging_ext R tg tg' b :
  tg !! b = tg' !! b →
  old_apply_tagging R tg b !! b = old_apply_tagging R tg' b !! b.
Proof.
  intros Heq. unfold old_apply_tagging. rewrite (fetch_ext R tg tg' b Heq).
  destruct (fetch R tg' b), (put_fault R b); try done.
  by rewrite !lookup_insert_eq.
Qed.

Lemma dict_merge_idem (a c : gmap string string) :
  Py.dict_merge (Py.dict_merge a c) c = Py.dict_merge a c.
Proof.
  apply map_eq. intros k. rewrite !dict_merge_lookup. by destruct (c !! k).
Qed.

Lemma fetch_insert R tg b (m existing : gmap string string) :
  fetch R tg b = Ok existing →
  fetch R (<[b := Py.items m]> tg) b
  = Ok (match get_fault R b with None => m | Some _ => existing end).
Proof.
  unfold fetch. destruct (get_fault R b) as [[code| | | | | |]|]; try done.
  intros _. by rewrite lookup_insert_eq, dict_of_pairs_items.
Qed.

Lemma old_apply_tagging_idem R tg b :
  old_apply_tagging R (old_apply_tagging R tg b) b = old_apply_tagging R tg b.
Proof.
  unfold old_apply_tagging at 2.
  destruct (fetch R tg b) as [existing|e] eqn:Hf.
  2:{ unfold old_apply_tagging. by rewrite Hf. }
  destruct (put_fault R b) as [e|] eqn:Hp.
  { unfold old_apply_tagging. by rewrite Hf, Hp. }
  unfold old_apply_tagging.
  rewrite (fetch_insert R tg b _ existing Hf), Hp.
  destruct (get_fault R b).
  - by rewrite Hf, insert_insert_eq.
  - by rewrite Hf, dict_merge_idem, insert_insert_eq.
Qed.

Lemma old_loop_lookup R (names : list string) b : ∀ tg,
  foldl (old_apply_tagging R) tg names !! b
  = if decide (b ∈ names) then old_apply_tagging R tg b !! b else tg !! b.
Proof.
  induction names as [|n names IH]; intros tg.
  { case_decide; [set_solver|done]. }
  cbn [foldl]. rewrite IH.
  destruct (decide (b ∈ names)) as [Hin|Hnin],
    (decide (b ∈ n :: names)) as [Hin'|Hnin']; try set_solver.
  - destruct (decide (b = n)) as [->|Hne].
    + by rewrite old_apply_tagging_idem.
    + apply old_apply_tagging_ext. by apply old_apply_tagging_other.
  - apply old_apply_tagging_other. set_solver.
Qed.

End more_old.

(** X19.  When the listing succeeds, [main] of tag_s3.py returns normally
    whatever the tagging calls do.  Every listed bucket whose calls do not fail
    ends with its former tags overlaid with [REQUIRED_TAGS]; a listed bucket
    whose tags cannot be fetched or sent, and every bucket that is not listed,
    keeps its tags. *)
Theorem old_main_tags_every_bucket
    (R : S3.Remote) (st : S3.State) (buckets : list S3.Bucket) :
  S3.list_buckets_answer R = Ok (Some buckets) →
  ∃ st',
    S3Old.main R st = Some (st', Ok ())
    ∧ (∀ b, b ∈ S3.Name <$> buckets →
         S3.get_fault R b = None → S3.put_fault R b = None →
         S3More.tags_of (S3.tagging st') b
         = Py.dict_merge (S3More.tags_of (S3.tagging st) b) S3Old.REQUIRED_TAGS)
    ∧ (∀ b, b ∈ S3.Name <$> buckets →
         S3Facts.fetch_fails R b ∨ is_Some (S3.put_fault R b) →
         S3.tagging st' !! b = S3.tagging st !! b)
    ∧ (∀ b, b ∉ S3.Name <$> buckets →
         S3.tagging st' !! b = S3.tagging st !! b).
Proof.
  intros Hans. unfold S3Old.main, S3.list_buckets. rewrite Hans.
  unfold bind at 1. unfold bind at 1. unfold S3.emit at 1. unfold ret at 1.
  destruct (old_main_loop_exact R buckets
              {| S3.tagging := S3.tagging st;
                 S3.trace := S3.trace st ++ [S3.Call S3.ListBuckets] |})
    as (evs & Hloop).
  rewrite Hloop. eexists. split; [reflexivity|]. simpl.
  split; [|split].
  - intros b Hb Hg Hp. unfold S3More.tags_of at 1.
    rewrite old_loop_lookup, decide_True by done.
    unfold S3More.old_apply_tagging.
    rewrite (fetch_no_fault R _ b Hg), Hp, lookup_insert_eq.
    apply dict_of_pairs_items.
  - intros b Hb Hfail. rewrite old_loop_lookup, decide_True by done.
    unfold S3More.old_apply_tagging.
    destruct Hfail as [(e & He & Hne)|[e He]].
    + unfold S3Facts.fetch. rewrite He.
      destruct e as [code| | | | | |]; try done.
      case_decide; [congruence|done].
    + rewrite He. by destruct (S3Facts.fetch R (S3.tagging st) b).
  - intros b Hb. by rewrite old_loop_lookup, decide_False by done.
Qed.

(** One bucket that holds [{"a": "1"}]. *)
Lemma old_main_tags_every_bucket_witness :
  ∃ st',
    S3Old.main
      (Scenarios.s3_remote [Scenarios.bucket "bucket"]
         Scenarios.no_fault Scenarios.no_fault)
      (Scenarios.s3_state {[ "bucket" := [("a", "1")] ]}) = Some (st', Ok ())
    ∧ S3More.tags_of (S3.tagging st') "bucket"
      = {[ "a" := "1"; "project" := "prod"; "costcenter" := "engineering";
           "owner" := "abc@gmail.com" ]}.
Proof.
  destruct (old_main_tags_every_bucket
              (Scenarios.s3_remote [Scenarios.bucket "bucket"]
                 Scenarios.no_fault Scenarios.no_fault)
              (Scenarios.s3_state {[ "bucket" := [("a", "1")] ]})
              [Scenarios.bucket "bucket"])
    as (st' & Hrun & Hok & _).
  - reflexivity.
  - exists st'. split; [exact Hrun|].
    rewrite (Hok "bucket"); [by vm_compute| |reflexivity|reflexivity].
    vm_compute. apply list_elem_of_here.
Defined.

(** X20.  A listing response without the key ['Buckets']: [tag_all_bucket]
    takes it for an empty list, so that it returns the empty mapping after
    logging 0 buckets found and 0/0 completed, while [main] of tag_s3.py
    raises [KeyError]; neither calls a bucket. *)
Theorem missing_buckets_key
    (R : S3.Remote) (tags : gmap string string) (merge dry : bool)
    (bf : option string) (st : S3.State) :
  S3.list_buckets_answer R = Ok None →
  S3New.tag_all_bucket R tags merge dry bf st
  = Some ({| S3.tagging := S3.tagging st;
             S3.trace := S3.trace st
               ++ [S3.Call S3.ListBuckets; S3.Info (S3.FoundBuckets 0)]
               ++ match bf with
                  | Some f => if Py.truthy f then [S3.Info (S3.FilteredTo 0 f)] else []
                  | None => []
                  end
               ++ [S3.Info (S3.ActivityCompleted 0 0)] |}, Ok ∅)
  ∧ S3Old.main R st
    = Some ({| S3.tagging := S3.tagging st;
               S3.trace := S3.trace st ++ [S3.Call S3.ListBuckets] |},
            Raise (KeyError "Buckets")).
Proof.
  intros Hans. split.
  - assert (S3New.list_buckets R st
            = Some ({| S3.tagging := S3.tagging st;
                       S3.trace := S3.trace st
                         ++ [S3.Call S3.ListBuckets; S3.Info (S3.FoundBuckets 0)] |},
                    Ok [])) as Hlist.
    { s3_unfold. rewrite Hans. s3_unfold. by rewrite <- app_assoc. }
    unfold S3New.tag_all_bucket. unfold bind at 1. rewrite Hlist.
    rewrite filter_nil. cbn [for_fold length].
    destruct bf as [f|]; [destruct (Py.truthy f)|];
      cbv beta iota delta [bind ret S3.info S3.emit];
      cbn [S3.trace S3.tagging];
      rewrite sum_values_true_entries; unfold S3Facts.true_entries;
      rewrite map_filter_empty, map_size_empty;
      rewrite <- ?app_assoc; reflexivity.
  - unfold S3Old.main. s3_unfold. by rewrite Hans.
Qed.

(** A response without the key, and no filter. *)
Lemma missing_buckets_key_witness :
  Scenarios.returned
    (S3New.tag_all_bucket
       {| S3.list_buckets_answer := Ok None;
          S3.get_fault := Scenarios.no_fault; S3.put_fault := Scenarios.no_fault;
          S3.delete_fault := Scenarios.no_fault;
          S3.open_fault := Scenarios.no_fault |}
       {[ "Env" := "prd" ]} true false None (Scenarios.s3_state ∅))
  = Some (Ok ∅).
Proof.
  destruct (missing_buckets_key
              {| S3.list_buckets_answer := Ok None;
                 S3.get_fault := Scenarios.no_fault;
                 S3.put_fault := Scenarios.no_fault;
                 S3.delete_fault := Scenarios.no_fault;
                 S3.open_fault := Scenarios.no_fault |}
              {[ "Env" := "prd" ]} true false None (Scenarios.s3_state ∅))
    as [Hrun _].
  - reflexivity.
  - rewrite Hrun. reflexivity.
Defined.

(** ** More on the retry of [apply_tags] *)

(** X23.  [apply_tags] takes a failure of [tag_resource] for throttling only
    when its error code is the literal of line 104: on a [ClientError] with
    any other code, the code [ThrottlingException] included, it makes no
    second call and no pause, prints the one line of that code and returns
    [False], the tags unchanged. *)
Theorem other_codes_are_not_retried
    (depth : nat) (R : EventBridge.Remote) (arn nm : string)
    (tags : gmap string string) (st : EventBridge.State) (code : string) :
  EventBridge.tag_resource_answer R (length (EventBridge.tag_calls st)) arn
  = Some (ClientError code) →
  code ≠ "ThrottlingExcep" →
  ∃ st',
    EventBridge.apply_tags (S depth) R arn nm tags st = Some (st', Ok false)
    ∧ EventBridgeFacts.new_events st st'
      = [EventBridge.CallTagResource arn (Py.items tags);
         EventBridge.Print (EventBridgeMore.failure_line nm code)]
    ∧ EventBridge.remote_tags st' = EventBridge.remote_tags st.
Proof.
  intros Hans Hne. unfold EventBridgeMore.failure_line. simpl. eb_unfold.
  rewrite Hans. eb_unfold.
  repeat (case_decide; eb_unfold); try contradiction;
    rewrite <- ?app_assoc; simpl;
    (eexists; split; [reflexivity|]);
    unfold EventBridgeFacts.new_events; simpl; by rewrite drop_app_length.
Qed.

(** The service's own code for throttling is not retried. *)
Lemma other_codes_are_not_retried_witness :
  ∃ st',
    EventBridge.apply_tags 3
      {| EventBridge.pages := [];
         EventBridge.list_tags_for_resource := EBScenarios.no_tags;
         EventBridge.tag_resource_answer :=
           λ _ _, Some (ClientError "ThrottlingException");
         EventBridge.getenv_CI := None;
         EventBridge.stdin_line := "" |}
      "arn:test-rule" "test-rule" EBScenarios.the_tags EBScenarios.state0
    = Some (st', Ok false)
    ∧ EventBridge.trace st'
      = [EventBridge.CallTagResource "arn:test-rule" [("Env", "prd")];
         EventBridge.Print
           (EventBridge.LErrorTagging "test-rule" (ClientError "ThrottlingException"))].
Proof.
  destruct (other_codes_are_not_retried 2
              {| EventBridge.pages := [];
                 EventBridge.list_tags_for_resource := EBScenarios.no_tags;
                 EventBridge.tag_resource_answer :=
                   λ _ _, Some (ClientError "ThrottlingException");
                 EventBridge.getenv_CI := None;
                 EventBridge.stdin_line := "" |}
              "arn:test-rule" "test-rule" EBScenarios.the_tags EBScenarios.state0
              "ThrottlingException") as (st' & Hrun & Hev & _).
  - reflexivity.
  - discriminate.
  - exists st'. split; [exact Hrun|]. exact Hev.
Defined.
